(** * david-dotfiles installer: a shallow embedding of the install pipeline

    The Go packages [internal/github], [internal/extractor],
    [internal/linker] and [internal/installer] are embedded as Rocq
    functions over an explicit world: a file system (a finite map from
    cleaned path names to nodes, the root directory among them), the HTTP
    replies and context cancellations the environment supplies, and the
    progress channel.
    [internal/catalog], [internal/system] and the selection, pre-flight
    and bin picker screens of [tui] are embedded as functions of what
    they read: the decoded catalog, the packages found, the keys pressed
    and the directory listings.
    Go strings are byte strings ([string]); Go errors are values of the
    inductive type [error]. *)

From Stdlib Require Import ZArith Lia Ascii String List Bool.
From Stdlib Require OrdersEx.
From stdpp Require Import base option list strings gmap fin_maps sorting.

Local Open Scope string_scope.
Local Open Scope list_scope.

(** ** Go's [strings] package, as far as the installer uses it *)

Module GoStrings.

(** [strings.HasPrefix]. *)
Definition HasPrefix (s pre : string) : bool := String.prefix pre s.

(** [strings.HasSuffix]: some tail of [s] is [suf]. *)
Fixpoint HasSuffix (s suf : string) : bool :=
  String.eqb s suf ||
  match s with
  | EmptyString => false
  | String _ t => HasSuffix t suf
  end.

Fixpoint drop (n : nat) (s : string) : string :=
  match n, s with
  | S k, String _ t => drop k t
  | _, _ => s
  end.

(** [strings.TrimPrefix]. *)
Definition TrimPrefix (s pre : string) : string :=
  if HasPrefix s pre then drop (String.length pre) s else s.

(** [strings.ReplaceAll s old new] for a non-empty [old]: the
    non-overlapping occurrences of [old] are replaced from left to right.
    [skip] counts the bytes of an occurrence still to be dropped. *)
Fixpoint replace_from (skip : nat) (old new s : string) : string :=
  match s with
  | EmptyString => EmptyString
  | String c t =>
      match skip with
      | S k => replace_from k old new t
      | O =>
          if String.prefix old s
          then new +:+ replace_from (Nat.pred (String.length old)) old new t
          else String c (replace_from 0 old new t)
      end
  end.

(** With an empty [old] Go inserts [new] before every rune and at the end;
    the installer only calls it with the literal [{version}]. *)
Definition ReplaceAll (s old new : string) : string :=
  match old with
  | EmptyString => s
  | _ => replace_from 0 old new s
  end.

(** [unicode.IsSpace] on the UTF-8 encoding. One-byte runes: TAB, LF, VT,
    FF, CR and SPACE. *)
Definition space1 (c : ascii) : bool :=
  let n := nat_of_ascii c in
  ((9 <=? n) && (n <=? 13) || (n =? 32))%nat.

(** Two-byte runes: U+0085 (C2 85) and U+00A0 (C2 A0). *)
Definition space2 (c1 c2 : ascii) : bool :=
  ((nat_of_ascii c1 =? 194) &&
   ((nat_of_ascii c2 =? 133) || (nat_of_ascii c2 =? 160)))%nat.

(** Three-byte runes: U+1680 (E1 9A 80), U+2000..U+200A (E2 80 80..8A),
    U+2028, U+2029 (E2 80 A8, A9), U+202F (E2 80 AF), U+205F (E2 81 9F)
    and U+3000 (E3 80 80). *)
Definition space3 (c1 c2 c3 : ascii) : bool :=
  let a := nat_of_ascii c1 in
  let b := nat_of_ascii c2 in
  let c := nat_of_ascii c3 in
  (((a =? 225) && (b =? 154) && (c =? 128)) ||
   ((a =? 226) && (b =? 128) &&
      (((128 <=? c) && (c <=? 138)) || (c =? 168) || (c =? 169) || (c =? 175))) ||
   ((a =? 226) && (b =? 129) && (c =? 159)) ||
   ((a =? 227) && (b =? 128) && (c =? 128)))%nat.

(** Drop the space runes at the head of [s]. [two] and [three] recognise
    the multi-byte runes in the order the bytes are met. *)
Fixpoint trim_head (two : ascii -> ascii -> bool)
    (three : ascii -> ascii -> ascii -> bool) (s : string) : string :=
  match s with
  | EmptyString => EmptyString
  | String c1 t1 =>
      if space1 c1 then trim_head two three t1
      else
        match t1 with
        | EmptyString => s
        | String c2 t2 =>
            if two c1 c2 then trim_head two three t2
            else
              match t2 with
              | EmptyString => s
              | String c3 t3 =>
                  if three c1 c2 c3 then trim_head two three t3 else s
              end
        end
  end.

Definition TrimLeftSpace (s : string) : string := trim_head space2 space3 s.

(** The trailing runes are met last byte first on the reversed string. *)
Definition TrimRightSpace (s : string) : string :=
  String.rev
    (trim_head (fun c2 c1 => space2 c1 c2)
               (fun c3 c2 c1 => space3 c1 c2 c3) (String.rev s)).

(** [strings.TrimSpace]. *)
Definition TrimSpace (s : string) : string := TrimRightSpace (TrimLeftSpace s).

(** [a < b] on strings: the order of the bytes, a proper prefix first. *)
Definition less (a b : string) : bool :=
  match OrdersEx.String_as_OT.compare a b with
  | Lt => true
  | _ => false
  end.

End GoStrings.

(** ** Go's [sort] package *)

Module GoSort.

(** [sort.Slice(s, less)] does not say where it leaves elements of which
    neither is less than the other; here each element is put before the
    first one already placed that is not less than it. Where [less] is a
    strict total order on the elements of [s], as on distinct names, every
    sorting procedure gives the same slice. *)
Fixpoint insert {A : Type} (less : A -> A -> bool) (x : A) (s : list A) : list A :=
  match s with
  | [] => [x]
  | y :: rest => if less y x then y :: insert less x rest else x :: y :: rest
  end.

Definition Slice {A : Type} (less : A -> A -> bool) (s : list A) : list A :=
  fold_right (insert less) [] s.

End GoSort.

(** ** Go's [path/filepath] package on Unix *)

Module GoPath.

Definition slash : ascii := "/"%char.

(** The elements of a path between its separators. *)
Fixpoint split_go (cur : string) (s : string) : list string :=
  match s with
  | EmptyString => [String.rev cur]
  | String c t =>
      if Ascii.eqb c slash then String.rev cur :: split_go EmptyString t
      else split_go (String c cur) t
  end.

Definition split (s : string) : list string := split_go EmptyString s.

Definition rooted (s : string) : bool :=
  match s with
  | String c _ => Ascii.eqb c slash
  | EmptyString => false
  end.

(** One element of [Clean]'s scan; [stack] holds the kept elements, last
    one first. *)
Definition clean_step (root : bool) (stack : list string) (e : string)
    : list string :=
  if String.eqb e "" then stack
  else if String.eqb e "." then stack
  else if String.eqb e ".." then
    match stack with
    | top :: rest =>
        if String.eqb top ".." then e :: stack else rest
    | [] => if root then [] else [e]
    end
  else e :: stack.

(** [filepath.Clean]. *)
Definition Clean (path : string) : string :=
  let root := rooted path in
  let kept := rev (fold_left (clean_step root) (split path) []) in
  let body := String.concat "/" kept in
  if root then "/" +:+ body
  else if String.eqb body "" then "." else body.

(** [filepath.Join]: empty elements are ignored, the rest is cleaned. *)
Definition Join (elems : list string) : string :=
  match filter (fun e => e <> "") elems with
  | [] => ""
  | es => Clean (String.concat "/" es)
  end.

Fixpoint strip_slashes (rs : string) : string :=
  match rs with
  | String c t => if Ascii.eqb c slash then strip_slashes t else rs
  | EmptyString => EmptyString
  end.

Fixpoint take_elem (rs : string) : string :=
  match rs with
  | String c t => if Ascii.eqb c slash then EmptyString else String c (take_elem t)
  | EmptyString => EmptyString
  end.

(** [filepath.Base]: the last element, trailing separators removed. *)
Definition Base (path : string) : string :=
  if String.eqb path "" then "."
  else
    let r := strip_slashes (String.rev path) in
    if String.eqb r "" then "/" else String.rev (take_elem r).

Fixpoint drop_elem (rs : string) : string :=
  match rs with
  | String c t => if Ascii.eqb c slash then rs else drop_elem t
  | EmptyString => EmptyString
  end.

(** [filepath.Dir]: everything up to the last separator, cleaned. *)
Definition Dir (path : string) : string :=
  Clean (String.rev (drop_elem (String.rev path))).

End GoPath.

(** ** Errors *)

(** [ctx.Err()] once the context is done. *)
Inductive ctx_error := Canceled | DeadlineExceeded.

(** One constructor per error the code builds; [Wrap msg e] stands for
    [fmt.Errorf(msg + ": %w", e)]. *)
Inductive error :=
| ErrOS (op path : string)
| ErrTransport (msg : string)
| ErrDecode (msg : string)
| ErrContext (e : ctx_error)
| ErrRepoNotFound (repo : string)
| ErrRateLimited (repo : string)
| ErrUnexpectedStatus (code : Z) (repo : string)
| ErrEmptyTag (repo : string)
| ErrDownloadStatus (code : Z) (url : string)
| ErrEmptyBody
| ErrRegularFile (target : string)
| Wrap (msg : string) (e : error).

Inductive result (A : Type) :=
| Ok (a : A)
| Err (e : error).
Arguments Ok {A} a.
Arguments Err {A} e.

(** ** The file system *)

Inductive node :=
| File (data : string) (perm : N)
| Symlink (target : string)
| Directory (perm : N).

(** Paths are keys as the code computes them ([filepath.Join] cleans
    them). The root directory is an entry like any other, and so is [.]
    where relative names are used. A new entry can be made only in a
    directory that is there, and gets the mode asked for less the umask of
    the process. A symbolic link is followed where the Go call follows it,
    a relative target counted from the directory of the link. An entry is
    known under the name it was made with: one file under two names
    (through a link to a directory) is outside the model. *)
Module OS.

Definition perm_0755 : N := 493.
Definition perm_0644 : N := 420.
Definition perm_0600 : N := 384.

(** The file mode creation mask of the process. *)
Class Umask := umask : N.

(** The mode of a new entry: [perm &^ umask]. *)
Definition create_mode `{Umask} (perm : N) : N := N.ldiff perm umask.

(** Where the link at [p] with target [t] leads. *)
Definition link_target (p t : string) : string :=
  if GoPath.rooted t then GoPath.Clean t else GoPath.Join [GoPath.Dir p; t].

(** The kernel gives up after 40 links. *)
Fixpoint follow (fuel : nat) (fs : gmap string node) (p : string) : result string :=
  match fs !! p with
  | Some (Symlink t) =>
      match fuel with
      | O => Err (ErrOS "too many levels of symbolic links" p)
      | S k => follow k fs (link_target p t)
      end
  | _ => Ok p
  end.

Definition resolve (fs : gmap string node) (p : string) : result string :=
  follow 40 fs p.

(** [os.Lstat]: the node at the path itself. *)
Definition Lstat (fs : gmap string node) (p : string) : result node :=
  match fs !! p with
  | Some n => Ok n
  | None => Err (ErrOS "lstat" p)
  end.

(** [os.Stat]: the node the path leads to. *)
Definition Stat (fs : gmap string node) (p : string) : result node :=
  match resolve fs p with
  | Err e => Err e
  | Ok q =>
      match fs !! q with
      | Some n => Ok n
      | None => Err (ErrOS "stat" p)
      end
  end.

Definition is_dir (fs : gmap string node) (p : string) : bool :=
  match Stat fs p with
  | Ok (Directory _) => true
  | _ => false
  end.

(** A new entry can be made at [p]: [p] is a name, and the directory it
    lies in is there. *)
Definition creatable (fs : gmap string node) (p : string) : bool :=
  negb (String.eqb p "") && is_dir fs (GoPath.Dir p).

(** [os.Open]: the file that the name denotes, if any. *)
Definition Open (fs : gmap string node) (p : string) : result string :=
  match resolve fs p with
  | Err e => Err e
  | Ok q =>
      match fs !! q with
      | Some _ => Ok q
      | None => Err (ErrOS "open" p)
      end
  end.

(** Reading an open file to its end. *)
Definition read_all (fs : gmap string node) (q : string) : result string :=
  match fs !! q with
  | Some (File d _) => Ok d
  | _ => Err (ErrOS "read" q)
  end.

(** [os.ReadFile]. *)
Definition ReadFile (fs : gmap string node) (p : string) : result string :=
  match Open fs p with
  | Err e => Err e
  | Ok q => read_all fs q
  end.

(** [os.OpenFile(p, O_CREATE|O_WRONLY|O_TRUNC, perm)]: an existing file is
    emptied and keeps its mode; a missing one is created with [perm] less
    the umask, if its directory is there. *)
Definition OpenFile_trunc `{Umask} (fs : gmap string node) (p : string) (perm : N)
    : result (string * gmap string node) :=
  match resolve fs p with
  | Err e => Err e
  | Ok q =>
      match fs !! q with
      | Some (File _ m) => Ok (q, <[q := File "" m]> fs)
      | None =>
          if creatable fs q then Ok (q, <[q := File "" (create_mode perm)]> fs)
          else Err (ErrOS "open" p)
      | Some _ => Err (ErrOS "open" p)
      end
  end.

(** Writing to a file opened for writing appends at its offset. *)
Definition write (fs : gmap string node) (q : string) (d : string)
    : gmap string node :=
  match fs !! q with
  | Some (File d0 m) => <[q := File (d0 +:+ d) m]> fs
  | _ => fs
  end.

(** [os.WriteFile]. *)
Definition WriteFile `{Umask} (fs : gmap string node) (p : string) (d : string)
    (perm : N) : result (gmap string node) :=
  match OpenFile_trunc fs p perm with
  | Err e => Err e
  | Ok (q, fs1) => Ok (write fs1 q d)
  end.

(** [os.Mkdir]: the name must be free (a link counts, wherever it leads)
    and lie in a directory that is there. *)
Definition Mkdir `{Umask} (fs : gmap string node) (p : string) (perm : N)
    : result (gmap string node) :=
  match fs !! p with
  | Some _ => Err (ErrOS "mkdir" p)
  | None =>
      if creatable fs p then Ok (<[p := Directory (create_mode perm)]> fs)
      else Err (ErrOS "mkdir" p)
  end.

(** The proper prefixes of a path that [MkdirAll] visits, shortest first,
    followed by the path itself. *)
Fixpoint ancestors_go (pre : string) (elems : list string) : list string :=
  match elems with
  | [] => []
  | e :: rest =>
      if String.eqb e "" then ancestors_go pre rest
      else
        let here := pre +:+ e in
        here :: ancestors_go (here +:+ "/") rest
  end.

Definition ancestors (p : string) : list string :=
  ancestors_go (if GoPath.rooted p then "/" else "") (GoPath.split p).

(** What [MkdirAll] does along the path: a name that leads to a directory
    is passed, one that leads to anything else ends the walk, one that
    leads nowhere is made with [Mkdir], which refuses a link that leads
    nowhere. *)
Fixpoint mkdirs `{Umask} (fs : gmap string node) (ps : list string) (perm : N)
    : result (gmap string node) :=
  match ps with
  | [] => Ok fs
  | p :: rest =>
      match Stat fs p with
      | Ok (Directory _) => mkdirs fs rest perm
      | Ok _ => Err (ErrOS "mkdir" p)
      | Err _ =>
          match Mkdir fs p perm with
          | Err e => Err e
          | Ok fs1 => mkdirs fs1 rest perm
          end
      end
  end.

(** [os.MkdirAll]. *)
Definition MkdirAll `{Umask} (fs : gmap string node) (p : string) (perm : N)
    : result (gmap string node) :=
  if String.eqb p "" then Err (ErrOS "mkdir" p)
  else mkdirs fs (ancestors p) perm.

Definition has_children (fs : gmap string node) (p : string) : bool :=
  bool_decide
    (Exists (fun k => GoStrings.HasPrefix k (p +:+ "/") = true)
            (map fst (map_to_list fs))).

(** [os.Remove]: a file, a symbolic link or an empty directory. *)
Definition Remove (fs : gmap string node) (p : string) : result (gmap string node) :=
  match fs !! p with
  | None => Err (ErrOS "remove" p)
  | Some (Directory _) =>
      if has_children fs p then Err (ErrOS "remove" p) else Ok (delete p fs)
  | Some _ => Ok (delete p fs)
  end.

(** [os.Symlink oldname newname]: [oldname] must not be empty, [newname]
    must be free and lie in a directory that is there. *)
Definition Symlink_ (fs : gmap string node) (oldname newname : string)
    : result (gmap string node) :=
  match fs !! newname with
  | Some _ => Err (ErrOS "symlink" newname)
  | None =>
      if negb (String.eqb oldname "") && creatable fs newname
      then Ok (<[newname := Symlink oldname]> fs)
      else Err (ErrOS "symlink" newname)
  end.

End OS.

(** ** internal/linker *)

Module linker.

Definition is_symlink (info : node) : bool :=
  match info with
  | Symlink _ => true
  | _ => false
  end.

(** [Link] creates a symlink at [binDir/dst] pointing to [src]. The result
    is the file system afterwards and the returned error ([None]: nil). *)
Definition Link (fs : gmap string node) (src binDir dst : string)
    : gmap string node * option error :=
  let target := GoPath.Join [binDir; dst] in
  let create (fs1 : gmap string node) :=
    match OS.Symlink_ fs1 src target with
    | Err e => (fs1, Some (Wrap ("create symlink " +:+ target +:+ " -> " +:+ src) e))
    | Ok fs2 => (fs2, None)
    end in
  match OS.Lstat fs target with
  | Ok info =>
      if is_symlink info then
        match OS.Remove fs target with
        | Err e => (fs, Some (Wrap ("remove existing symlink " +:+ target) e))
        | Ok fs1 => create fs1
        end
      else (fs, Some (ErrRegularFile target))
  | Err _ => create fs
  end.

End linker.

(** ** internal/extractor *)

Module extractor.

(** The second argument of [extractTar]: the literals gz, xz and bz2. *)
Inductive compression := gz | xz | bz2.

Inductive typeflag := TypeReg | TypeDir | TypeOther.

(** What [tar.Reader] yields for one member: its header, the bytes
    [io.Copy] obtains and the error that ends the copy, if any. *)
Record TarEntry := {
  tar_Name : string;
  tar_Typeflag : typeflag;
  tar_Mode : N;
  tar_data : string;
  tar_copy_err : option error
}.

(** The members in order, then [io.EOF] ([None]) or a read error. *)
Record TarStream := {
  tar_entries : list TarEntry;
  tar_end : option error
}.

Record ZipFile := {
  zip_Name : string;
  zip_IsDir : bool;
  zip_Mode : N;
  zip_open_err : option error;
  zip_data : string;
  zip_copy_err : option error
}.

(** The archive libraries (archive/tar, archive/zip, compress/gzip,
    compress/bzip2, ulikunitz/xz) as functions of the bytes of the file. *)
Record Codec := {
  gzip_NewReader : string -> option error;
  xz_NewReader : string -> option error;
  tar_Reader : compression -> string -> TarStream;
  zip_OpenReader : string -> result (list ZipFile)
}.

(** The five strategies [Extract] chooses from. *)
Inductive strategy :=
| UseTar (c : compression)
| UseZip
| UseCopy.

(** The [switch] of [Extract] on the base name. *)
Definition dispatch (name : string) : strategy :=
  if GoStrings.HasSuffix name ".tar.gz" || GoStrings.HasSuffix name ".tgz"
  then UseTar gz
  else if GoStrings.HasSuffix name ".tar.xz" || GoStrings.HasSuffix name ".txz"
  then UseTar xz
  else if GoStrings.HasSuffix name ".tar.bz2" then UseTar bz2
  else if GoStrings.HasSuffix name ".zip" then UseZip
  else UseCopy.

(** [filepath.Join(dstDir, filepath.Clean("/" + name)[1:])]. *)
Definition sanitize (dstDir name : string) : string :=
  GoPath.Join [dstDir; GoStrings.drop 1 (GoPath.Clean ("/" +:+ name))].

(** [os.MkdirAll] with its error dropped. *)
Definition MkdirAll_ `{OS.Umask} (fs : gmap string node) (p : string)
    : gmap string node :=
  match OS.MkdirAll fs p OS.perm_0755 with
  | Ok fs1 => fs1
  | Err _ => fs
  end.

(** Create or truncate [target], copy [data] into it, report the error of
    the open or of the copy. *)
Definition write_member `{OS.Umask} (fs : gmap string node) (target : string) (perm : N)
    (data : string) (copy_err : option error) : gmap string node * option error :=
  match OS.OpenFile_trunc fs target perm with
  | Err e => (fs, Some e)
  | Ok (q, fs1) => (OS.write fs1 q data, copy_err)
  end.

(** The loop of [extractTar] over the members already read. *)
Fixpoint tar_loop `{OS.Umask} (fs : gmap string node) (dstDir : string)
    (es : list TarEntry) (final : option error) : gmap string node * option error :=
  match es with
  | [] =>
      match final with
      | None => (fs, None)
      | Some e => (fs, Some (Wrap "read tar" e))
      end
  | hdr :: rest =>
      let target := sanitize dstDir (tar_Name hdr) in
      match tar_Typeflag hdr with
      | TypeDir => tar_loop (MkdirAll_ fs target) dstDir rest final
      | TypeReg =>
          let fs1 := MkdirAll_ fs (GoPath.Dir target) in
          match write_member fs1 target (tar_Mode hdr) (tar_data hdr) (tar_copy_err hdr) with
          | (fs2, Some e) => (fs2, Some e)
          | (fs2, None) => tar_loop fs2 dstDir rest final
          end
      | TypeOther => tar_loop fs dstDir rest final
      end
  end.

(** The bytes behind an open file; a name that cannot be read (a
    directory) gives the read error to whoever reads first. *)
Definition extractTar `{OS.Umask} (cd : Codec) (fs : gmap string node)
    (srcPath dstDir : string) (c : compression) : gmap string node * option error :=
  match OS.Open fs srcPath with
  | Err e => (fs, Some e)
  | Ok q =>
      let run (data : string) :=
        let st := tar_Reader cd c data in
        tar_loop fs dstDir (tar_entries st) (tar_end st) in
      match OS.read_all fs q, c with
      | Err e, gz => (fs, Some (Wrap "open gzip" e))
      | Err e, xz => (fs, Some (Wrap "open xz" e))
      | Err e, bz2 => (fs, Some (Wrap "read tar" e))
      | Ok data, gz =>
          match gzip_NewReader cd data with
          | Some e => (fs, Some (Wrap "open gzip" e))
          | None => run data
          end
      | Ok data, xz =>
          match xz_NewReader cd data with
          | Some e => (fs, Some (Wrap "open xz" e))
          | None => run data
          end
      | Ok data, bz2 => run data
      end
  end.

Fixpoint zip_loop `{OS.Umask} (fs : gmap string node) (dstDir : string)
    (files : list ZipFile)
    : gmap string node * option error :=
  match files with
  | [] => (fs, None)
  | f :: rest =>
      let target := sanitize dstDir (zip_Name f) in
      if zip_IsDir f then zip_loop (MkdirAll_ fs target) dstDir rest
      else
        let fs1 := MkdirAll_ fs (GoPath.Dir target) in
        match zip_open_err f with
        | Some e => (fs1, Some e)
        | None =>
            match write_member fs1 target (zip_Mode f) (zip_data f) (zip_copy_err f) with
            | (fs2, Some e) => (fs2, Some e)
            | (fs2, None) => zip_loop fs2 dstDir rest
            end
        end
  end.

Definition extractZip `{OS.Umask} (cd : Codec) (fs : gmap string node)
    (srcPath dstDir : string)
    : gmap string node * option error :=
  match OS.ReadFile fs srcPath with
  | Err e => (fs, Some (Wrap "open zip" e))
  | Ok data =>
      match zip_OpenReader cd data with
      | Err e => (fs, Some (Wrap "open zip" e))
      | Ok files => zip_loop fs dstDir files
      end
  end.

(** [copyBinary]: the destination is opened (and emptied) before the
    source is read, as in the code. *)
Definition copyBinary `{OS.Umask} (fs : gmap string node) (srcPath dstDir : string)
    : gmap string node * option error :=
  let name := GoPath.Base srcPath in
  let dst := GoPath.Join [dstDir; name] in
  match OS.Open fs srcPath with
  | Err e => (fs, Some e)
  | Ok inq =>
      match OS.OpenFile_trunc fs dst OS.perm_0755 with
      | Err e => (fs, Some e)
      | Ok (outq, fs1) =>
          match OS.read_all fs1 inq with
          | Err e => (fs1, Some e)
          | Ok data => (OS.write fs1 outq data, None)
          end
      end
  end.

(** [Extract] dispatches on the extension of the base name. *)
Definition Extract `{OS.Umask} (cd : Codec) (fs : gmap string node)
    (srcPath dstDir : string)
    : gmap string node * option error :=
  let name := GoPath.Base srcPath in
  match dispatch name with
  | UseTar c => extractTar cd fs srcPath dstDir c
  | UseZip => extractZip cd fs srcPath dstDir
  | UseCopy => copyBinary fs srcPath dstDir
  end.

End extractor.

(** ** internal/catalog: the program descriptors *)

Module catalog.

Record Bin := {
  Src : string;
  Dst : string
}.

(** [Bins] is the field [Bin] of the Go struct. *)
Record Program := {
  Name : string;
  Repo : string;
  AssetPattern : string;
  Packages : list string;
  Bins : list Bin
}.

(** [p.Name = name]. *)
Definition set_Name (name : string) (p : Program) : Program :=
  {| Name := name; Repo := Repo p; AssetPattern := AssetPattern p;
     Packages := Packages p; Bins := Bins p |}.

(** The [fieldErrs] of one entry; [bin] is optional. *)
Definition fieldErrs (p : Program) : list string :=
  (if String.eqb (Repo p) "" then ["repo is required"] else [])
  ++ (if String.eqb (AssetPattern p) "" then ["asset_pattern is required"] else []).

(** The loop of [Load] over [raw.Programs]. [entries] lists the map in
    the order the [range] visits it: any order, each key once. *)
Fixpoint validate (entries : list (string * Program)) (errs : list string)
    (programs : list Program) : list string * list Program :=
  match entries with
  | [] => (errs, programs)
  | (name, p0) :: rest =>
      let p := set_Name name p0 in
      if (0 <? length (fieldErrs p))%nat
      then validate rest
             (errs ++ ["[" +:+ name +:+ "]: " +:+ String.concat ", " (fieldErrs p)])
             programs
      else validate rest errs (programs ++ [p])
  end.

Inductive load_error :=
| ParseCatalog (e : error)
| ValidationErrors (msg : string).

Inductive loaded :=
| Programs (ps : list Program)
| LoadError (e : load_error).

(** [Load], given what [toml.DecodeFile] made of the file. *)
Definition Load (decoded : result (list (string * Program))) : loaded :=
  match decoded with
  | Err e => LoadError (ParseCatalog e)
  | Ok entries =>
      let (errs, programs) := validate entries [] [] in
      if (0 <? length errs)%nat
      then LoadError
             (ValidationErrors
                ("catalog validation errors:" +:+ String "010"%char ""
                   +:+ String.concat (String "010"%char "") errs))
      else Programs
             (GoSort.Slice (fun a b => GoStrings.less (Name a) (Name b)) programs)
  end.

End catalog.

(** ** internal/system *)

Module system.

Definition ShareDir : string := ".local/share".
Definition BinDir : string := ".local/bin".

Definition SharePath (home : string) : string := GoPath.Join [home; ShareDir].
Definition BinPath (home : string) : string := GoPath.Join [home; BinDir].

(** The loop of [EnsureBaseDirs]: the first [MkdirAll] that fails ends it. *)
Fixpoint ensure_dirs `{OS.Umask} (fs : gmap string node) (dirs : list string)
    : gmap string node * option error :=
  match dirs with
  | [] => (fs, None)
  | dir :: rest =>
      match OS.MkdirAll fs dir OS.perm_0755 with
      | Err e => (fs, Some e)
      | Ok fs1 => ensure_dirs fs1 rest
      end
  end.

Definition EnsureBaseDirs `{OS.Umask} (home : string) (fs : gmap string node)
    : gmap string node * option error :=
  ensure_dirs fs [SharePath home; BinPath home].

(** [CheckPackages]; [found pkg] says that the shell command
    [command -v pkg] ends with status 0. *)
Definition CheckPackages (found : string -> bool) (packages : list string)
    : list string :=
  fold_left (fun missing pkg => if found pkg then missing else missing ++ [pkg])
            packages [].

End system.

(** ** internal/github *)

Module github.

Definition defaultBaseURL : string := "https://api.github.com".

Record Client := { baseURL : string }.

Definition NewClient (b : string) : Client :=
  {| baseURL := if String.eqb b "" then defaultBaseURL else b |}.

(** What [httpClient.Do] gives for the request: a transport error, or a
    status code with the outcome of decoding the body's [tag_name]. *)
Inductive api_reply :=
| ApiDoErr (e : error)
| ApiResp (status : Z) (tag_name : result string).

Definition releases_url (c : Client) (repo : string) : string :=
  baseURL c +:+ "/repos/" +:+ repo +:+ "/releases/latest".

(** [LatestVersion], given the error of building the request (if any) and
    the reply to it. *)
Definition LatestVersion (build_err : option error) (reply : api_reply)
    (repo : string) : result string :=
  match build_err with
  | Some e => Err (Wrap "build request" e)
  | None =>
      match reply with
      | ApiDoErr e => Err (Wrap "github request" e)
      | ApiResp status body =>
          if (status =? 200)%Z then
            match body with
            | Err e => Err (Wrap "decode GitHub response" e)
            | Ok tag =>
                let version := GoStrings.TrimPrefix tag "v" in
                if String.eqb version "" then Err (ErrEmptyTag repo)
                else Ok version
            end
          else if (status =? 404)%Z then Err (ErrRepoNotFound repo)
          else if (status =? 403)%Z || (status =? 429)%Z then Err (ErrRateLimited repo)
          else Err (ErrUnexpectedStatus status repo)
      end
  end.

(** [Release]: the raw tag and the version. *)
Record Release := {
  Tag : string;
  Version : string
}.

(** [LatestRelease], the later form of [LatestVersion]: the status is
    examined before the body is decoded, and the raw tag is returned next
    to the version. *)
Definition LatestRelease (build_err : option error) (reply : api_reply)
    (repo : string) : result Release :=
  match build_err with
  | Some e => Err (Wrap "build request" e)
  | None =>
      match reply with
      | ApiDoErr e => Err (Wrap "github request" e)
      | ApiResp status body =>
          if (status =? 200)%Z then
            match body with
            | Err e => Err (Wrap "decode GitHub response" e)
            | Ok tag =>
                let version := GoStrings.TrimPrefix tag "v" in
                if String.eqb version "" then Err (ErrEmptyTag repo)
                else Ok {| Tag := tag; Version := version |}
            end
          else if (status =? 404)%Z then Err (ErrRepoNotFound repo)
          else if (status =? 403)%Z || (status =? 429)%Z then Err (ErrRateLimited repo)
          else Err (ErrUnexpectedStatus status repo)
      end
  end.

End github.

(** ** internal/installer *)

Module installer.

Import catalog.

(** [State]: the install state of a program, the [iota] constants in
    order. *)
Inductive State :=
| StatePending
| StateFetchingVersion
| StateDownloading
| StateExtracting
| StateLinking
| StateDone
| StateSkipped
| StateError.

Definition State_String (s : State) : string :=
  match s with
  | StatePending => "pending"
  | StateFetchingVersion => "fetching version"
  | StateDownloading => "downloading"
  | StateExtracting => "extracting"
  | StateLinking => "linking"
  | StateDone => "done"
  | StateSkipped => "skipped"
  | StateError => "error"
  end.

(** [ProgressMsg]: one message on the progress channel, with the fields
    [Program], [State], [Version] and [Err]. *)
Record ProgressMsg := {
  msg_Program : string;
  msg_State : State;
  msg_Version : string;
  msg_Err : option error
}.

Definition workerCount : nat := 3.

(** [time.Duration] counts nanoseconds. *)
Definition Second : Z := 1000000000.

(** The reply to one GET of a release asset: the error of [Do], or the
    status, the declared content length, the body bytes [io.Copy] gets and
    the error that ends the copy, if any. *)
Inductive asset_reply :=
| DoErr (e : error)
| Resp (status : Z) (contentLength : Z) (body : string) (copy_err : option error).

(** What the environment decides during a run. Replies, temporary names
    and the outcomes of [select] are indexed by how many were asked for
    before. *)
Record Env := {
  HOME : string;
  TempDir : string;
  url_error : string -> option error;
  api : string -> github.api_reply;
  asset : nat -> string -> asset_reply;
  temp_rand : nat -> string;
  ctx_done : nat -> option ctx_error;
  codec : extractor.Codec
}.

(** What a pipeline does outside its own code, in the order it is done.
    A file-system call is recorded with whether it returned a nil error. *)
Inductive call :=
| NetGet (url : string)
| Download (url : string)
| Sleep (d : Z) (completed : bool)
| Stderr (line : string)
| FsReadFile (p : string)
| FsCreateTemp (p : string)
| FsMkdirAll (p : string) (ok : bool)
| FsExtract (src dst : string) (ok : bool)
| FsWriteFile (p data : string) (ok : bool)
| FsLink (src binDir dst : string) (ok : bool)
| FsRemove (p : string) (ok : bool).

(** The mutable world of one run: the file system, the messages sent on
    the progress channel (oldest first), the calls made so far, and how
    many asset requests, selects and temporary files there have been. *)
Record World := {
  fs : gmap string node;
  chan : list ProgressMsg;
  calls : list call;
  gets : nat;
  selects : nat;
  temps : nat
}.

Definition M (A : Type) : Type := World -> A * World.

Definition ret {A} (a : A) : M A := fun w => (a, w).

Definition bind {A B} (m : M A) (k : A -> M B) : M B :=
  fun w => let (a, w1) := m w in k a w1.

Notation "x <- m ;; k" := (bind m (fun x => k))
  (at level 100, m at next level, right associativity).
Notation "m ;;; k" := (bind m (fun _ => k))
  (at level 100, right associativity).

Definition set_fs (f : gmap string node) (w : World) : World :=
  {| fs := f; chan := chan w; calls := calls w;
     gets := gets w; selects := selects w; temps := temps w |}.

Definition get_fs : M (gmap string node) := fun w => (fs w, w).

Definition put_fs (f : gmap string node) : M unit := fun w => (tt, set_fs f w).

Definition note (c : call) : M unit :=
  fun w => (tt, {| fs := fs w; chan := chan w; calls := calls w ++ [c];
                   gets := gets w; selects := selects w; temps := temps w |}).

(** [send]: the channel is buffered with eight places per program and no
    pipeline sends more than five messages, so a send never blocks. *)
Definition send (msg : ProgressMsg) : M unit :=
  fun w => (tt, {| fs := fs w; chan := chan w ++ [msg]; calls := calls w;
                   gets := gets w; selects := selects w; temps := temps w |}).

Definition next_get : M nat :=
  fun w => (gets w, {| fs := fs w; chan := chan w; calls := calls w;
                       gets := S (gets w); selects := selects w; temps := temps w |}).

Definition next_select : M nat :=
  fun w => (selects w, {| fs := fs w; chan := chan w; calls := calls w;
                          gets := gets w; selects := S (selects w); temps := temps w |}).

Definition next_temp : M nat :=
  fun w => (temps w, {| fs := fs w; chan := chan w; calls := calls w;
                        gets := gets w; selects := selects w; temps := S (temps w) |}).

Definition is_nil (e : option error) : bool :=
  match e with
  | None => true
  | Some _ => false
  end.

(** A file-system call that returns only an error. *)
Definition fs_call (c : bool -> call)
    (f : gmap string node -> gmap string node * option error) : M (option error) :=
  cur <- get_fs ;;
  let (nxt, e) := f cur in
  put_fs nxt ;;;
  note (c (is_nil e)) ;;;
  ret e.

Definition of_result (fs0 : gmap string node) (r : result (gmap string node))
    : gmap string node * option error :=
  match r with
  | Ok fs1 => (fs1, None)
  | Err e => (fs0, Some e)
  end.

Definition os_ReadFile (p : string) : M (result string) :=
  note (FsReadFile p) ;;;
  cur <- get_fs ;;
  ret (OS.ReadFile cur p).

Definition os_WriteFile `{OS.Umask} (p data : string) (perm : N) : M (option error) :=
  fs_call (FsWriteFile p data) (fun f => of_result f (OS.WriteFile f p data perm)).

Definition os_MkdirAll `{OS.Umask} (p : string) (perm : N) : M (option error) :=
  fs_call (FsMkdirAll p) (fun f => of_result f (OS.MkdirAll f p perm)).

Definition os_Remove (p : string) : M (option error) :=
  fs_call (FsRemove p) (fun f => of_result f (OS.Remove f p)).

Definition extractor_Extract `{OS.Umask} (env : Env) (src dst : string)
    : M (option error) :=
  fs_call (FsExtract src dst) (fun f => extractor.Extract (codec env) f src dst).

Definition linker_Link (src binDir dst : string) : M (option error) :=
  fs_call (FsLink src binDir dst) (fun f => linker.Link f src binDir dst).

(** [client.LatestVersion]: one GET unless the request cannot be built. *)
Definition client_LatestVersion (env : Env) (c : github.Client) (repo : string)
    : M (result string) :=
  let url := github.releases_url c repo in
  match url_error env url with
  | Some e => ret (github.LatestVersion (Some e) (api env url) repo)
  | None =>
      note (NetGet url) ;;;
      ret (github.LatestVersion None (api env url) repo)
  end.

(** The split of a [CreateTemp] pattern at its last star. *)
Fixpoint before_star (rs : string) : option string :=
  match rs with
  | EmptyString => None
  | String c t => if Ascii.eqb c "*"%char then Some t else before_star t
  end.

Fixpoint upto_star (rs : string) : string :=
  match rs with
  | EmptyString => EmptyString
  | String c t => if Ascii.eqb c "*"%char then EmptyString else String c (upto_star t)
  end.

Definition temp_path (dir pattern rand : string) : string :=
  let rp := String.rev pattern in
  match before_star rp with
  | Some rpre => GoPath.Join [dir; String.rev rpre +:+ rand +:+ String.rev (upto_star rp)]
  | None => GoPath.Join [dir; pattern +:+ rand]
  end.

Definition has_separator (s : string) : bool :=
  existsb (fun c => Ascii.eqb c GoPath.slash) (list_ascii_of_string s).

(** [os.CreateTemp("", pattern)]: a new, empty file of mode 0600 less the
    umask, in the directory for temporary files, which must be there. *)
Definition os_CreateTemp `{OS.Umask} (env : Env) (pattern : string)
    : M (result string) :=
  if has_separator pattern then ret (Err (ErrOS "createtemp" pattern))
  else
    n <- next_temp ;;
    let p := temp_path (TempDir env) pattern (temp_rand env n) in
    note (FsCreateTemp p) ;;;
    cur <- get_fs ;;
    match cur !! p with
    | Some _ => ret (Err (ErrOS "createtemp" p))
    | None =>
        if OS.creatable cur p
        then put_fs (<[p := File "" (OS.create_mode OS.perm_0600)]> cur) ;;; ret (Ok p)
        else ret (Err (ErrOS "createtemp" p))
    end.

(** [download]: one attempt. The result is the pair the Go function
    returns. *)
Definition download `{OS.Umask} (env : Env) (url assetName : string)
    : M (string * option error) :=
  note (Download url) ;;;
  match url_error env url with
  | Some e => ret ("", Some e)
  | None =>
      n <- next_get ;;
      note (NetGet url) ;;;
      match asset env n url with
      | DoErr e => ret ("", Some e)
      | Resp status contentLength body copy_err =>
          if negb (status =? 200)%Z then ret ("", Some (ErrDownloadStatus status url))
          else if (contentLength =? 0)%Z then ret ("", Some ErrEmptyBody)
          else
            t <- os_CreateTemp env ("installer-*-" +:+ assetName) ;;
            match t with
            | Err e => ret ("", Some e)
            | Ok tmp =>
                cur <- get_fs ;;
                put_fs (OS.write cur tmp body) ;;;
                match copy_err with
                | Some e => os_Remove tmp ;;; ret ("", Some e)
                | None => ret (tmp, None)
                end
            end
      end
  end.

(** The [select] between [ctx.Done()] and [time.After(d)]. *)
Definition select_sleep (env : Env) (d : Z) : M (option ctx_error) :=
  n <- next_select ;;
  match ctx_done env n with
  | Some e => note (Sleep d false) ;;; ret (Some e)
  | None => note (Sleep d true) ;;; ret None
  end.

(** [time.Duration(1<<uint(attempt-1)) * time.Second]. *)
Definition backoff (attempt : nat) : Z :=
  Z.shiftl 1 (Z.of_nat (attempt - 1)) * Second.

(** The loop of [downloadWithRetry] from [attempt] on, with [left]
    iterations to go. *)
Fixpoint retry_from `{OS.Umask} (env : Env) (url assetName : string)
    (left attempt : nat) (lastErr : option error) : M (string * option error) :=
  match left with
  | O => ret ("", lastErr)
  | S k =>
      let try :=
        r <- download env url assetName ;;
        match r with
        | (path, None) => ret (path, None)
        | (_, Some err) => retry_from env url assetName k (S attempt) (Some err)
        end in
      if (0 <? attempt)%nat then
        c <- select_sleep env (backoff attempt) ;;
        match c with
        | Some e => ret ("", Some (ErrContext e))
        | None => try
        end
      else try
  end.

Definition downloadWithRetry `{OS.Umask} (env : Env) (url assetName : string)
    : M (string * option error) :=
  retry_from env url assetName 3 0 None.

Definition progress (p : Program) (s : State) (v : string) (e : option error)
    : ProgressMsg :=
  {| msg_Program := Name p; msg_State := s; msg_Version := v; msg_Err := e |}.

(** The loop over [p.Bin], then the final message. *)
Fixpoint link_all (p : Program) (installDir binDir version : string)
    (bs : list Bin) : M unit :=
  match bs with
  | [] => send (progress p StateDone version None)
  | b :: rest =>
      let src := GoPath.Join
                   [installDir; GoStrings.ReplaceAll (Src b) "{version}" version] in
      e <- linker_Link src binDir (Dst b) ;;
      match e with
      | Some err =>
          send (progress p StateError "" (Some (Wrap ("link " +:+ Dst b) err)))
      | None => link_all p installDir binDir version rest
      end
  end.

Definition download_url (p : Program) (version assetName : string) : string :=
  "https://github.com/" +:+ Repo p +:+ "/releases/download/v" +:+ version
    +:+ "/" +:+ assetName.

(** [installDir] and [versionFile] of [install]. *)
Definition installDir (env : Env) (p : Program) : string :=
  GoPath.Join [system.SharePath (HOME env); Name p].

Definition versionFile (env : Env) (p : Program) : string :=
  GoPath.Join [installDir env p; ".version"].

(** [install] from the extraction on; the caller removes [tmpFile]
    afterwards (the deferred [os.Remove]). *)
Definition install_unpack `{OS.Umask} (env : Env) (p : Program)
    (version tmpFile : string)
    : M unit :=
  send (progress p StateExtracting version None) ;;;
  e <- os_MkdirAll (installDir env p) OS.perm_0755 ;;
  match e with
  | Some err => send (progress p StateError "" (Some err))
  | None =>
      e <- extractor_Extract env tmpFile (installDir env p) ;;
      match e with
      | Some err => send (progress p StateError "" (Some (Wrap "extract" err)))
      | None =>
          os_WriteFile (versionFile env p) version OS.perm_0644 ;;;
          send (progress p StateLinking version None) ;;;
          link_all p (installDir env p) (system.BinPath (HOME env)) version (Bins p)
      end
  end.

(** [install] once the version is known not to be installed: the
    download URL, the download and what follows it. *)
Definition install_download `{OS.Umask} (env : Env) (p : Program) (verbose : bool)
    (version : string) : M unit :=
  let assetName := GoStrings.ReplaceAll (AssetPattern p) "{version}" version in
  let downloadURL := download_url p version assetName in
  (if verbose
   then note (Stderr ("[verbose] " +:+ Name p +:+ ": version=" +:+ version
                        +:+ " url=" +:+ downloadURL))
   else ret tt) ;;;
  send (progress p StateDownloading version None) ;;;
  d <- downloadWithRetry env downloadURL assetName ;;
  match d with
  | (_, Some err) => send (progress p StateError "" (Some (Wrap "download" err)))
  | (tmpFile, None) =>
      install_unpack env p version tmpFile ;;;
      os_Remove tmpFile ;;;
      ret tt
  end.

(** The test of [install] on what [os.ReadFile] gave for the marker. *)
Definition up_to_date (current : result string) (version : string) : bool :=
  match current with
  | Ok c => String.eqb (GoStrings.TrimSpace c) version
  | Err _ => false
  end.

Definition install `{OS.Umask} (env : Env) (client : github.Client) (p : Program)
    (verbose : bool) : M unit :=
  send (progress p StateFetchingVersion "" None) ;;;
  r <- client_LatestVersion env client (Repo p) ;;
  match r with
  | Err err => send (progress p StateError "" (Some err))
  | Ok version =>
      current <- os_ReadFile (versionFile env p) ;;
      if up_to_date current version
      then send (progress p StateSkipped version None)
      else install_download env p verbose version
  end.

(** *** [Run]: the goroutines and the semaphore

    [Run] starts one goroutine that walks over [programs]; for each it
    puts a token into [sem] (a channel of capacity [workerCount], so the
    send blocks while [workerCount] tokens are inside) and only then
    starts the goroutine that runs [install] and, on return, takes a token
    out again. The interleavings are the paths of [step]. *)

Definition is_terminal (s : State) : bool :=
  match s with
  | StateDone | StateSkipped | StateError => true
  | _ => false
  end.

(** The messages of one pipeline: [StateFetchingVersion] first, one
    terminal state last, none before. *)
Definition pipeline (ms : list ProgressMsg) : Prop :=
  exists first mid last,
    ms = first :: mid ++ [last] /\
    msg_State first = StateFetchingVersion /\
    Forall (fun m => is_terminal (msg_State m) = false) mid /\
    is_terminal (msg_State last) = true.

(** A goroutine running [install]: what it has sent and what it will
    still send. *)
Record Worker := {
  w_prog : Program;
  w_sent : list ProgressMsg;
  w_pending : list ProgressMsg
}.

Record Pool := {
  todo : list Program;
  sem : list Worker;
  returned : list Worker;
  ch : list ProgressMsg;
  closed : bool
}.

Definition start (programs : list Program) : Pool :=
  {| todo := programs; sem := []; returned := []; ch := []; closed := false |}.

(** The places of the channel: [make(chan ProgressMsg, len(programs)*8)]. *)
Definition buffer (programs : list Program) : nat := length programs * 8.

Inductive step : Pool -> Pool -> Prop :=
| step_acquire (s : Pool) (p : Program) (rest : list Program) (ms : list ProgressMsg) :
    todo s = p :: rest ->
    (length (sem s) < workerCount)%nat ->
    pipeline ms ->
    step s {| todo := rest;
              sem := sem s ++ [{| w_prog := p; w_sent := []; w_pending := ms |}];
              returned := returned s; ch := ch s; closed := closed s |}
| step_send (s : Pool) (before after : list Worker) (p : Program)
    (sent rest : list ProgressMsg) (m : ProgressMsg) :
    sem s = before ++ {| w_prog := p; w_sent := sent; w_pending := m :: rest |} :: after ->
    step s {| todo := todo s;
              sem := before ++ {| w_prog := p; w_sent := sent ++ [m]; w_pending := rest |} :: after;
              returned := returned s; ch := ch s ++ [m]; closed := closed s |}
| step_release (s : Pool) (before after : list Worker) (w : Worker) :
    sem s = before ++ w :: after ->
    w_pending w = [] ->
    step s {| todo := todo s; sem := before ++ after;
              returned := w :: returned s; ch := ch s; closed := closed s |}
| step_close (s : Pool) :
    todo s = [] -> sem s = [] -> closed s = false ->
    step s {| todo := []; sem := []; returned := returned s; ch := ch s; closed := true |}.

Inductive reachable (programs : list Program) : Pool -> Prop :=
| reach_start : reachable programs (start programs)
| reach_step (s s' : Pool) : reachable programs s -> step s s' -> reachable programs s'.

(** A pipeline is active from its fetching-version message up to its
    terminal message. *)
Definition active (w : Worker) : bool :=
  existsb (fun m => match msg_State m with StateFetchingVersion => true | _ => false end)
          (w_sent w)
  && negb (existsb (fun m => is_terminal (msg_State m)) (w_sent w)).

Definition active_count (s : Pool) : nat :=
  length (List.filter active (sem s ++ returned s)).

End installer.

(** ** tui *)

Module tui.

Import catalog.

(** *** [RootModel.Update] on the selector screen, once the selection is
    confirmed: the pre-flight check and the start of the installer *)

(** The inner loop over [p.Packages]; [seen] is the map of that name,
    [all] is [allPackages]. *)
Fixpoint add_packages (pkgs : list string) (seen : gset string) (all : list string)
    : gset string * list string :=
  match pkgs with
  | [] => (seen, all)
  | pkg :: rest =>
      if decide (pkg ∈ seen) then add_packages rest seen all
      else add_packages rest ({[pkg]} ∪ seen) (all ++ [pkg])
  end.

(** The outer loop over [selected]. *)
Fixpoint gather (selected : list Program) (seen : gset string) (all : list string)
    : gset string * list string :=
  match selected with
  | [] => (seen, all)
  | p :: rest =>
      let (seen1, all1) := add_packages (Packages p) seen all in
      gather rest seen1 all1
  end.

Definition allPackages (selected : list Program) : list string :=
  snd (gather selected ∅ []).

(** What [Update] does next: [tea.Quit], the pre-flight screen with the
    missing packages, or the call of [installer.Run] and the progress
    screen with the names. *)
Inductive outcome :=
| Quit
| Preflight (missing : list string)
| Launch (selected : list Program) (names : list string).

Definition confirm (found : string -> bool) (selected : list Program) : outcome :=
  if (length selected =? 0)%nat then Quit
  else
    let missing := system.CheckPackages found (allPackages selected) in
    if (0 <? length missing)%nat then Preflight missing
    else Launch selected (map Name selected).

(** *** The program selector with its list of check boxes *)

Module selector.

Record programItem := {
  program : Program;
  item_selected : bool
}.

(** [items] are the items of [m.list]; the cursor of the list belongs to
    the list widget and is given to [Update] as [index]. *)
Record selectorModel := {
  items : list programItem;
  programs : list Program;
  selected : gmap string bool;
  done : bool;
  quit : bool
}.

Definition newSelectorModel (ps : list Program) : selectorModel :=
  {| items := map (fun p => {| program := p; item_selected := false |}) ps;
     programs := ps;
     selected := ∅;
     done := false;
     quit := false |}.

(** The key [" "]: the item under the cursor, if there is one. *)
Definition toggle (index : nat) (m : selectorModel) : selectorModel :=
  match items m !! index with
  | Some i =>
      let i' := {| program := program i; item_selected := negb (item_selected i) |} in
      {| items := <[index := i']> (items m);
         programs := programs m;
         selected := <[Name (program i) := item_selected i']> (selected m);
         done := done m;
         quit := quit m |}
  | None => m
  end.

(** The loop of the key ["a"] from index [idx] on. [SetItem] is called
    with the indices of [programs], which are indices of the list. *)
Fixpoint set_all (idx : nat) (ps : list Program) (v : bool)
    (its : list programItem) (sel : gmap string bool)
    : list programItem * gmap string bool :=
  match ps with
  | [] => (its, sel)
  | p :: rest =>
      set_all (S idx) rest v
        (<[idx := {| program := p; item_selected := v |}]> its)
        (<[Name p := v]> sel)
  end.

(** [Update] on a key message, [key] being [msg.String()]. *)
Definition Update (index : nat) (key : string) (m : selectorModel) : selectorModel :=
  if String.eqb key "q" || String.eqb key "ctrl+c" then
    {| items := items m; programs := programs m; selected := selected m;
       done := done m; quit := true |}
  else if String.eqb key " " then toggle index m
  else if String.eqb key "a" then
    let allSelected := (size (selected m) =? length (programs m))%nat in
    let (its, sel) := set_all 0 (programs m) (negb allSelected) (items m) (selected m) in
    {| items := its; programs := programs m; selected := sel;
       done := done m; quit := quit m |}
  else if String.eqb key "enter" then
    {| items := items m; programs := programs m; selected := selected m;
       done := true; quit := quit m |}
  else m.

(** [m.selected[p.Name]]: false where the map has no entry. *)
Definition is_selected (m : selectorModel) (p : Program) : bool :=
  default false (selected m !! Name p).

Definition selectedPrograms (m : selectorModel) : list Program :=
  List.filter (is_selected m) (programs m).

(** The keys pressed one after the other, each with the position of the
    cursor at that time. *)
Definition press (m : selectorModel) (keys : list (nat * string)) : selectorModel :=
  fold_left (fun acc k => Update (fst k) (snd k) acc) keys m.

End selector.

(** *** The picker of binaries *)

Module picker.

Record fileEntry := {
  name : string;
  path : string;
  isDir : bool
}.

Inductive pickerPhase := phaseBrowse | phaseNaming.

(** [input] is the value of the text input. *)
Record pickerModel := {
  installDir : string;
  currentDir : string;
  entries : list fileEntry;
  cursor : Z;
  input : string;
  phase : pickerPhase;
  selectedSrc : string;
  added : list Bin;
  done : bool;
  quit : bool;
  height : Z
}.

Definition less_name (a b : fileEntry) : bool := GoStrings.less (name a) (name b).

Section Browse.

(** [os.ReadDir]: the names in a directory and whether each is a
    directory; an unreadable directory has none. *)
Variable ReadDir : string -> list (string * bool).

(** What the text input makes of a key that the picker does not handle
    itself. *)
Variable edit : string -> string -> string.

(** [loadDir]. *)
Definition loadDir (m : pickerModel) : pickerModel :=
  let parent :=
    if String.eqb (currentDir m) (installDir m) then []
    else [{| name := ".."; path := GoPath.Dir (currentDir m); isDir := true |}] in
  let shown :=
    List.filter (fun e => negb (GoStrings.HasPrefix (fst e) ".")) (ReadDir (currentDir m)) in
  let entry (e : string * bool) :=
    {| name := fst e; path := GoPath.Join [currentDir m; fst e]; isDir := snd e |} in
  let dirs := map entry (List.filter (fun e => snd e) shown) in
  let files := map entry (List.filter (fun e => negb (snd e)) shown) in
  {| installDir := installDir m;
     currentDir := currentDir m;
     entries := parent ++ GoSort.Slice less_name dirs ++ GoSort.Slice less_name files;
     cursor := 0;
     input := input m;
     phase := phase m;
     selectedSrc := selectedSrc m;
     added := added m;
     done := done m;
     quit := quit m;
     height := height m |}.

Definition newPickerModel (dir : string) : pickerModel :=
  loadDir {| installDir := dir; currentDir := dir; entries := []; cursor := 0;
             input := ""; phase := phaseBrowse; selectedSrc := ""; added := [];
             done := false; quit := false; height := 0 |}.

Definition with_cursor (c : Z) (m : pickerModel) : pickerModel :=
  {| installDir := installDir m; currentDir := currentDir m; entries := entries m;
     cursor := c; input := input m; phase := phase m; selectedSrc := selectedSrc m;
     added := added m; done := done m; quit := quit m; height := height m |}.

Definition with_dir (d : string) (m : pickerModel) : pickerModel :=
  {| installDir := installDir m; currentDir := d; entries := entries m;
     cursor := cursor m; input := input m; phase := phase m;
     selectedSrc := selectedSrc m; added := added m; done := done m;
     quit := quit m; height := height m |}.

Definition is_key (key : string) (names : list string) : bool :=
  existsb (String.eqb key) names.

(** [m.entries[m.cursor]]: an index out of range ends the program. *)
Definition at_cursor (m : pickerModel) : option fileEntry :=
  if (cursor m <? 0)%Z then None else entries m !! Z.to_nat (cursor m).

(** [updateBrowse] on a key; [None] is the run-time panic of an index out
    of range. *)
Definition updateBrowse (key : string) (m : pickerModel) : option pickerModel :=
  if is_key key ["ctrl+c"; "q"] then
    Some {| installDir := installDir m; currentDir := currentDir m;
            entries := entries m; cursor := cursor m; input := input m;
            phase := phase m; selectedSrc := selectedSrc m; added := added m;
            done := done m; quit := true; height := height m |}
  else if is_key key ["up"; "k"] then
    Some (if (0 <? cursor m)%Z then with_cursor (cursor m - 1) m else m)
  else if is_key key ["down"; "j"] then
    Some (if (cursor m <? Z.of_nat (length (entries m)) - 1)%Z
          then with_cursor (cursor m + 1) m else m)
  else if is_key key ["enter"; "right"; "l"] then
    if (length (entries m) =? 0)%nat then Some m
    else
      match at_cursor m with
      | None => None
      | Some e =>
          if isDir e then Some (loadDir (with_dir (path e) m))
          else
            Some {| installDir := installDir m; currentDir := currentDir m;
                    entries := entries m; cursor := cursor m; input := name e;
                    phase := phaseNaming; selectedSrc := path e; added := added m;
                    done := done m; quit := quit m; height := height m |}
      end
  else if is_key key ["left"; "h"] then
    Some (if String.eqb (currentDir m) (installDir m) then m
          else loadDir (with_dir (GoPath.Dir (currentDir m)) m))
  else if is_key key ["d"; "D"] then
    Some {| installDir := installDir m; currentDir := currentDir m;
            entries := entries m; cursor := cursor m; input := input m;
            phase := phase m; selectedSrc := selectedSrc m; added := added m;
            done := true; quit := quit m; height := height m |}
  else Some m.

(** [updateNaming] on a key. *)
Definition updateNaming (key : string) (m : pickerModel) : pickerModel :=
  if String.eqb key "ctrl+c" then
    {| installDir := installDir m; currentDir := currentDir m;
       entries := entries m; cursor := cursor m; input := input m;
       phase := phase m; selectedSrc := selectedSrc m; added := added m;
       done := done m; quit := true; height := height m |}
  else if String.eqb key "esc" then
    {| installDir := installDir m; currentDir := currentDir m;
       entries := entries m; cursor := cursor m; input := input m;
       phase := phaseBrowse; selectedSrc := selectedSrc m; added := added m;
       done := done m; quit := quit m; height := height m |}
  else if String.eqb key "enter" then
    let trimmed := GoStrings.TrimSpace (input m) in
    let dst := if String.eqb trimmed "" then GoPath.Base (selectedSrc m) else trimmed in
    {| installDir := installDir m; currentDir := currentDir m;
       entries := entries m; cursor := cursor m; input := "";
       phase := phaseBrowse; selectedSrc := selectedSrc m;
       added := added m ++ [{| Src := selectedSrc m; Dst := dst |}];
       done := done m; quit := quit m; height := height m |}
  else
    {| installDir := installDir m; currentDir := currentDir m;
       entries := entries m; cursor := cursor m; input := edit key (input m);
       phase := phase m; selectedSrc := selectedSrc m; added := added m;
       done := done m; quit := quit m; height := height m |}.

(** What the program is told: a key, or the size of the window. *)
Inductive msg :=
| KeyMsg (key : string)
| WindowSizeMsg (width height : Z).

(** [Update]. *)
Definition Update (x : msg) (m : pickerModel) : option pickerModel :=
  match x with
  | WindowSizeMsg _ h =>
      Some {| installDir := installDir m; currentDir := currentDir m;
              entries := entries m; cursor := cursor m; input := input m;
              phase := phase m; selectedSrc := selectedSrc m; added := added m;
              done := done m; quit := quit m; height := h |}
  | KeyMsg key =>
      match phase m with
      | phaseBrowse => updateBrowse key m
      | phaseNaming => Some (updateNaming key m)
      end
  end.

(** The messages one after the other. *)
Fixpoint feed (m : pickerModel) (msgs : list msg) : option pickerModel :=
  match msgs with
  | [] => Some m
  | x :: rest =>
      match Update x m with
      | None => None
      | Some m1 => feed m1 rest
      end
  end.

End Browse.

(** The lines of [viewBrowse] that show entries, and the scroll window:
    the indices [start] to [end - 1] are drawn. The numbers are those of
    a terminal and of a directory, far from the ends of [int]. *)
Definition visibleLines (m : pickerModel) : Z :=
  let reservedLines :=
    if (0 <? length (added m))%nat
    then (6 + (Z.of_nat (length (added m)) + 2))%Z else 6%Z in
  let v := (height m - reservedLines)%Z in
  if (v <? 3)%Z then 3%Z else v.

Definition window (m : pickerModel) : Z * Z :=
  let start :=
    if (cursor m >=? visibleLines m)%Z
    then (cursor m - visibleLines m + 1)%Z else 0%Z in
  let stop := (start + visibleLines m)%Z in
  (start,
   if (stop >? Z.of_nat (length (entries m)))%Z
   then Z.of_nat (length (entries m)) else stop).

End picker.

End tui.

(** * Properties *)

(** ** Strings and paths on examples *)

Example HasSuffix_tgz : GoStrings.HasSuffix "fzf-0.1.tgz" ".tgz" = true.
Proof. reflexivity. Qed.

Example ReplaceAll_twice :
  GoStrings.ReplaceAll "a-{version}/b-{version}.zip" "{version}" "1.2"
  = "a-1.2/b-1.2.zip".
Proof. reflexivity. Qed.

Example TrimSpace_newline :
  GoStrings.TrimSpace (" 1.2.3" +:+ String "010"%char "") = "1.2.3".
Proof. reflexivity. Qed.

Example Clean_dots : GoPath.Clean "/a/./b/../../c//d/" = "/c/d".
Proof. reflexivity. Qed.

Example Clean_up : GoPath.Clean "a/../../b" = "../b".
Proof. reflexivity. Qed.

Example Join_share :
  GoPath.Join ["/home/u/.local/share"; "fzf"] = "/home/u/.local/share/fzf".
Proof. reflexivity. Qed.

Example Base_trailing : GoPath.Base "/tmp/x.zip/" = "x.zip".
Proof. reflexivity. Qed.

Example Dir_file : GoPath.Dir "/a/b/c" = "/a/b".
Proof. reflexivity. Qed.

Example TrimSpace_unicode :
  GoStrings.TrimSpace
    (String "194"%char (String "160"%char "1.2.3")
       +:+ String "226"%char (String "128"%char (String "137"%char "")))
  = "1.2.3".
Proof. reflexivity. Qed.

(** ** The placeholder *)

Section Placeholder.

Definition brace_free (s : string) : Prop :=
  Forall (fun c => c <> "{"%char) (list_ascii_of_string s).

Lemma replace_from_skip (x old new b : string) :
  GoStrings.replace_from (String.length x) old new (x +:+ b)
  = GoStrings.replace_from 0 old new b.
Proof.
  induction x as [|c x IH]; [destruct b; reflexivity|].
  simpl. exact IH.
Qed.

Lemma replace_from_cons (c : ascii) (t old new : string) :
  GoStrings.replace_from 0 old new (String c t)
  = if String.prefix old (String c t)
    then new +:+ GoStrings.replace_from (Nat.pred (String.length old)) old new t
    else String c (GoStrings.replace_from 0 old new t).
Proof. reflexivity. Qed.

Lemma prefix_other_head (c : ascii) (t : string) :
  c <> "{"%char -> String.prefix "{version}" (String c t) = false.
Proof.
  intros Hc. cbn [String.prefix].
  destruct (ascii_dec "{"%char c) as [E | E]; [congruence | reflexivity].
Qed.

(** [ReplaceAll] copies the text before an occurrence of the placeholder,
    puts the version in its place and goes on behind it. *)
Lemma ReplaceAll_placeholder (a b v : string) :
  brace_free a ->
  GoStrings.ReplaceAll (a +:+ "{version}" +:+ b) "{version}" v
  = a +:+ v +:+ GoStrings.ReplaceAll b "{version}" v.
Proof.
  unfold GoStrings.ReplaceAll, brace_free.
  induction a as [|c a IH]; intros Ha.
  - change ("" +:+ "{version}" +:+ b) with (String "{"%char ("version}" +:+ b)).
    rewrite replace_from_cons.
    replace (String.prefix "{version}" (String "{"%char ("version}" +:+ b)))
      with true by (destruct b; reflexivity).
    change (Nat.pred (String.length "{version}")) with (String.length "version}").
    rewrite replace_from_skip. reflexivity.
  - simpl in Ha. apply Forall_cons in Ha as [Hc Ha].
    change ((String c a) +:+ "{version}" +:+ b)
      with (String c (a +:+ "{version}" +:+ b)).
    rewrite replace_from_cons, (prefix_other_head _ _ Hc).
    rewrite IH by exact Ha. reflexivity.
Qed.

Lemma ReplaceAll_plain (a v : string) :
  brace_free a -> GoStrings.ReplaceAll a "{version}" v = a.
Proof.
  unfold GoStrings.ReplaceAll, brace_free.
  induction a as [|c a IH]; intros Ha; [reflexivity|].
  simpl in Ha. apply Forall_cons in Ha as [Hc Ha].
  rewrite replace_from_cons, (prefix_other_head _ _ Hc).
  rewrite IH by exact Ha. reflexivity.
Qed.

End Placeholder.

(** ** Suffixes *)

Section Suffix.






End Suffix.


(** ** The file system *)


Lemma follow_free (fuel : nat) (fs : gmap string node) (p : string) :
  (forall t, fs !! p <> Some (Symlink t)) -> OS.follow fuel fs p = Ok p.
Proof.
  intros H. destruct fuel; simpl;
    destruct (fs !! p) as [[| |]|] eqn:E; try reflexivity;
    exfalso; eapply H; reflexivity.
Qed.

Lemma resolve_free (fs : gmap string node) (p : string) :
  (forall t, fs !! p <> Some (Symlink t)) -> OS.resolve fs p = Ok p.
Proof. apply follow_free. Qed.

(** Following links ends at a name that is not a link. *)
Lemma follow_not_link (fuel : nat) (fs : gmap string node) (p q t : string) :
  OS.follow fuel fs p = Ok q -> fs !! q <> Some (Symlink t).
Proof.
  revert p. induction fuel as [|k IH]; intros p; simpl.
  - destruct (fs !! p) as [[| |]|] eqn:E; intros H; inversion H; subst; congruence.
  - destruct (fs !! p) as [[| |]|] eqn:E; intros H;
      try (inversion H; subst; congruence).
    eapply IH. exact H.
Qed.

(** A name that holds a directory is a directory. *)
Lemma is_dir_here (fs : gmap string node) (p : string) (m : N) :
  fs !! p = Some (Directory m) -> OS.is_dir fs p = true.
Proof.
  intros H. unfold OS.is_dir, OS.Stat.
  rewrite resolve_free by (intros t; congruence). rewrite H. reflexivity.
Qed.

(** A name in a directory can be given to a new entry. *)
Lemma creatable_in (fs : gmap string node) (p : string) (m : N) :
  p <> "" -> fs !! GoPath.Dir p = Some (Directory m) -> OS.creatable fs p = true.
Proof.
  intros Hp Hd. unfold OS.creatable. apply String.eqb_neq in Hp. rewrite Hp.
  rewrite (is_dir_here _ _ _ Hd). reflexivity.
Qed.

(** [filepath.Clean] never returns the empty string, and so [Join] of
    elements that are not all empty never does. *)
Lemma Clean_nonempty (path : string) : GoPath.Clean path <> "".
Proof.
  unfold GoPath.Clean. destruct (GoPath.rooted path); [discriminate|].
  destruct (String.eqb _ "") eqn:E; [discriminate|].
  apply String.eqb_neq. exact E.
Qed.

Lemma Join_nonempty (elems : list string) (e : string) :
  In e elems -> e <> "" -> GoPath.Join elems <> "".
Proof.
  intros Hin He. unfold GoPath.Join.
  destruct (filter (fun e : string => e <> "") elems) as [|x l] eqn:F.
  - exfalso. assert (Hx : e ∈ filter (fun e : string => e <> "") elems).
    { apply list_elem_of_filter. split; [exact He | apply list_elem_of_In; exact Hin]. }
    rewrite F in Hx. inversion Hx.
  - apply Clean_nonempty.
Qed.

(** ** internal/linker *)

(** C6. When the destination [binDir/dst] holds a symbolic link, [Link]
    removes it and creates the new one: it returns nil, the destination
    then points at [src] and every other path is as before. This is so
    for a source that is not the empty name and a destination whose
    directory is there, as it is where a link stands; the sources and
    the destinations of the links [install] makes are never empty. When
    the destination holds anything that is not a symbolic link (a
    regular file in particular), [Link] returns the regular-file error
    and the file system is exactly as before. *)
Theorem Link_collision (fs : gmap string node) (src binDir dst : string) :
  let target := GoPath.Join [binDir; dst] in
  (forall old m, fs !! target = Some (Symlink old) ->
     src <> "" -> target <> "" ->
     fs !! GoPath.Dir target = Some (Directory m) ->
     linker.Link fs src binDir dst = (<[target := Symlink src]> fs, None) /\
     fst (linker.Link fs src binDir dst) !! target = Some (Symlink src)) /\
  (forall n, fs !! target = Some n -> linker.is_symlink n = false ->
     linker.Link fs src binDir dst = (fs, Some (ErrRegularFile target))) /\
  (forall (env : installer.Env) (p : catalog.Program) (version : string)
          (b : catalog.Bin),
     GoPath.Join [installer.installDir env p;
                  GoStrings.ReplaceAll (catalog.Src b) "{version}" version] <> "" /\
     GoPath.Join [system.BinPath (installer.HOME env); catalog.Dst b] <> "").
Proof.
  intros target. split; [|split].
  - intros old m H Hsrc Ht Hd.
    assert (Hne : GoPath.Dir target <> target) by congruence.
    assert (Hc : OS.creatable (delete target fs) target = true).
    { apply (creatable_in _ _ m); [exact Ht|].
      rewrite lookup_delete_ne by congruence. exact Hd. }
    assert (E : linker.Link fs src binDir dst = (<[target := Symlink src]> fs, None)).
    { unfold linker.Link, OS.Lstat. fold target. rewrite H. simpl.
      unfold OS.Remove. rewrite H. unfold OS.Symlink_.
      rewrite lookup_delete_eq, Hc. apply String.eqb_neq in Hsrc. rewrite Hsrc.
      simpl. rewrite insert_delete_eq. reflexivity. }
    split; [exact E|]. rewrite E. simpl. apply lookup_insert_eq.
  - intros n H Hn. unfold linker.Link, OS.Lstat. fold target.
    rewrite H, Hn. reflexivity.
  - intros env p version b.
    assert (Hshare : forall home, system.SharePath home <> "").
    { intros home. apply (Join_nonempty _ system.ShareDir); [|discriminate].
      right. left. reflexivity. }
    assert (Hbin : forall home, system.BinPath home <> "").
    { intros home. apply (Join_nonempty _ system.BinDir); [|discriminate].
      right. left. reflexivity. }
    split.
    + apply (Join_nonempty _ (installer.installDir env p)); [left; reflexivity|].
      apply (Join_nonempty _ (system.SharePath (installer.HOME env)));
        [left; reflexivity | apply Hshare].
    + apply (Join_nonempty _ (system.BinPath (installer.HOME env)));
        [left; reflexivity | apply Hbin].
Qed.

Definition bin_with_link : gmap string node :=
  <["/home/u/.local/bin/fzf" := Symlink "/opt/old/fzf"]>
    {[ "/home/u/.local/bin" := Directory 493%N ]}.

Definition bin_with_file : gmap string node :=
  <["/home/u/.local/bin/fzf" := File "#!/bin/sh" 493%N]>
    {[ "/home/u/.local/bin" := Directory 493%N ]}.

Lemma Link_collision_witness :
  (linker.Link bin_with_link "/home/u/.local/share/fzf/fzf" "/home/u/.local/bin" "fzf"
   = (<["/home/u/.local/bin/fzf" := Symlink "/home/u/.local/share/fzf/fzf"]> bin_with_link,
      None)) /\
  (linker.Link bin_with_file "/home/u/.local/share/fzf/fzf" "/home/u/.local/bin" "fzf"
   = (bin_with_file, Some (ErrRegularFile "/home/u/.local/bin/fzf"))).
Proof.
  split.
  - apply (proj1 (Link_collision bin_with_link "/home/u/.local/share/fzf/fzf"
                    "/home/u/.local/bin" "fzf") "/opt/old/fzf" 493%N).
    + reflexivity.
    + discriminate.
    + discriminate.
    + reflexivity.
  - apply (proj1 (proj2 (Link_collision bin_with_file "/home/u/.local/share/fzf/fzf"
                           "/home/u/.local/bin" "fzf")) (File "#!/bin/sh" 493%N));
      reflexivity.
Defined.

(** [Link] never touches a path that holds something other than a
    symbolic link. *)
Lemma Link_keeps (fs : gmap string node) (src binDir dst path : string) (n : node) :
  fs !! path = Some n -> linker.is_symlink n = false ->
  fst (linker.Link fs src binDir dst) !! path = Some n.
Proof.
  intros H Hn. unfold linker.Link, OS.Lstat.
  set (target := GoPath.Join [binDir; dst]).
  destruct (fs !! target) as [m|] eqn:E.
  - destruct (linker.is_symlink m) eqn:Hm; [|exact H].
    assert (path <> target) by (intros ->; congruence).
    unfold OS.Remove. rewrite E.
    destruct m; try discriminate. unfold OS.Symlink_.
    rewrite lookup_delete_eq.
    destruct (negb (String.eqb src "") && OS.creatable (delete target fs) target);
      simpl.
    + rewrite lookup_insert_ne by congruence.
      rewrite lookup_delete_ne by congruence. exact H.
    + rewrite lookup_delete_ne by congruence. exact H.
  - unfold OS.Symlink_. rewrite E.
    assert (path <> target) by (intros ->; congruence).
    destruct (negb (String.eqb src "") && OS.creatable fs target); simpl.
    + rewrite lookup_insert_ne by congruence. exact H.
    + exact H.
Qed.

(** ** internal/extractor *)







Section CopyErrors.

Context {um : OS.Umask}.









End CopyErrors.



(** ** Reasoning about pipelines

    [wp m w Q]: running [m] in [w] only appends to the channel and to the
    record of calls, and [Q] holds of the result, the final world and what
    was appended. *)

Section Logic.

Import installer.

Definition wp {A : Type} (m : M A) (w : World)
    (Q : A -> World -> list ProgressMsg -> list call -> Prop) : Prop :=
  exists ms cs,
    chan (snd (m w)) = chan w ++ ms /\
    calls (snd (m w)) = calls w ++ cs /\
    Q (fst (m w)) (snd (m w)) ms cs.

Lemma wp_mono {A : Type} (m : M A) (w : World)
    (Q Q' : A -> World -> list ProgressMsg -> list call -> Prop) :
  wp m w Q -> (forall a w' ms cs, Q a w' ms cs -> Q' a w' ms cs) -> wp m w Q'.
Proof.
  intros (ms & cs & H1 & H2 & H3) HQ. exists ms, cs. auto.
Qed.

Lemma wp_ret {A : Type} (a : A) (w : World)
    (Q : A -> World -> list ProgressMsg -> list call -> Prop) :
  Q a w [] [] -> wp (ret a) w Q.
Proof.
  intros H. exists [], []. simpl. rewrite !app_nil_r. auto.
Qed.

Lemma wp_bind {A B : Type} (m : M A) (k : A -> M B) (w : World)
    (Q : B -> World -> list ProgressMsg -> list call -> Prop) :
  wp m w (fun a w1 ms1 cs1 =>
            wp (k a) w1 (fun b w2 ms2 cs2 => Q b w2 (ms1 ++ ms2) (cs1 ++ cs2))) ->
  wp (bind m k) w Q.
Proof.
  unfold wp, bind. destruct (m w) as [a w1]. simpl.
  intros (ms1 & cs1 & H1 & H2 & ms2 & cs2 & H3 & H4 & H5).
  exists (ms1 ++ ms2), (cs1 ++ cs2).
  rewrite H3, H4, H1, H2, !app_assoc. auto.
Qed.

Lemma wp_send (m : ProgressMsg) (w : World)
    (Q : unit -> World -> list ProgressMsg -> list call -> Prop) :
  Q tt (snd (send m w)) [m] [] -> wp (send m) w Q.
Proof.
  intros H. exists [m], []. simpl. rewrite app_nil_r. auto.
Qed.

Lemma wp_note (c : call) (w : World)
    (Q : unit -> World -> list ProgressMsg -> list call -> Prop) :
  Q tt (snd (note c w)) [] [c] -> wp (note c) w Q.
Proof.
  intros H. exists [], [c]. simpl. rewrite app_nil_r. auto.
Qed.

Lemma wp_get_fs (w : World)
    (Q : gmap string node -> World -> list ProgressMsg -> list call -> Prop) :
  Q (fs w) w [] [] -> wp get_fs w Q.
Proof.
  intros H. exists [], []. simpl. rewrite !app_nil_r. auto.
Qed.

Lemma wp_put_fs (f : gmap string node) (w : World)
    (Q : unit -> World -> list ProgressMsg -> list call -> Prop) :
  Q tt (set_fs f w) [] [] -> wp (put_fs f) w Q.
Proof.
  intros H. exists [], []. simpl. rewrite !app_nil_r. auto.
Qed.

Lemma wp_next_get (w : World)
    (Q : nat -> World -> list ProgressMsg -> list call -> Prop) :
  Q (gets w) (snd (next_get w)) [] [] -> wp next_get w Q.
Proof.
  intros H. exists [], []. simpl. rewrite !app_nil_r. auto.
Qed.

Lemma wp_next_select (w : World)
    (Q : nat -> World -> list ProgressMsg -> list call -> Prop) :
  Q (selects w) (snd (next_select w)) [] [] -> wp next_select w Q.
Proof.
  intros H. exists [], []. simpl. rewrite !app_nil_r. auto.
Qed.

Lemma wp_next_temp (w : World)
    (Q : nat -> World -> list ProgressMsg -> list call -> Prop) :
  Q (temps w) (snd (next_temp w)) [] [] -> wp next_temp w Q.
Proof.
  intros H. exists [], []. simpl. rewrite !app_nil_r. auto.
Qed.

Lemma fs_call_eq (c : bool -> call)
    (f : gmap string node -> gmap string node * option error) (w : World) :
  fs_call c f w =
  (snd (f (fs w)),
   {| fs := fst (f (fs w)); chan := chan w;
      calls := calls w ++ [c (is_nil (snd (f (fs w))))];
      gets := gets w; selects := selects w; temps := temps w |}).
Proof.
  unfold fs_call, bind, get_fs, put_fs, note, ret, set_fs.
  destruct (f (fs w)) as [nxt e]. reflexivity.
Qed.

Lemma wp_fs_call (c : bool -> call)
    (f : gmap string node -> gmap string node * option error) (w : World)
    (Q : option error -> World -> list ProgressMsg -> list call -> Prop) :
  Q (snd (f (fs w)))
    {| fs := fst (f (fs w)); chan := chan w;
       calls := calls w ++ [c (is_nil (snd (f (fs w))))];
       gets := gets w; selects := selects w; temps := temps w |}
    [] [c (is_nil (snd (f (fs w))))] ->
  wp (fs_call c f) w Q.
Proof.
  intros H. exists [], [c (is_nil (snd (f (fs w))))].
  rewrite fs_call_eq. simpl. rewrite app_nil_r. auto.
Qed.

Lemma wp_os_ReadFile (p : string) (w : World)
    (Q : result string -> World -> list ProgressMsg -> list call -> Prop) :
  Q (OS.ReadFile (fs w) p) (snd (note (FsReadFile p) w)) [] [FsReadFile p] ->
  wp (os_ReadFile p) w Q.
Proof.
  intros H. exists [], [FsReadFile p]. simpl. rewrite app_nil_r. auto.
Qed.

End Logic.

(** One step of symbolic execution. *)
Ltac wp_step :=
  lazymatch goal with
  | |- wp (installer.bind _ _) _ _ => apply wp_bind
  | |- wp (installer.ret _) _ _ => apply wp_ret
  | |- wp (installer.send _) _ _ => apply wp_send
  | |- wp (installer.note _) _ _ => apply wp_note
  | |- wp installer.get_fs _ _ => apply wp_get_fs
  | |- wp (installer.put_fs _) _ _ => apply wp_put_fs
  | |- wp installer.next_get _ _ => apply wp_next_get
  | |- wp installer.next_select _ _ => apply wp_next_select
  | |- wp installer.next_temp _ _ => apply wp_next_temp
  | |- wp (installer.fs_call _ _) _ _ => apply wp_fs_call
  | |- wp (installer.os_ReadFile _) _ _ => apply wp_os_ReadFile
  | |- wp (installer.os_Remove _) _ _ => unfold installer.os_Remove
  | |- wp (installer.os_WriteFile _ _ _) _ _ => unfold installer.os_WriteFile
  | |- wp (installer.os_MkdirAll _ _) _ _ => unfold installer.os_MkdirAll
  | |- wp (installer.extractor_Extract _ _ _) _ _ => unfold installer.extractor_Extract
  | |- wp (installer.linker_Link _ _ _) _ _ => unfold installer.linker_Link
  end.

Ltac wsimpl :=
  cbn [installer.fs installer.chan installer.calls installer.gets
       installer.selects installer.temps fst snd installer.note installer.send
       installer.next_get installer.next_select installer.next_temp
       installer.set_fs installer.put_fs installer.get_fs installer.ret] in *.

Ltac wp_run := repeat (wp_step; cbn beta iota); wsimpl.

(** ** internal/installer: the version check *)

Section VersionCheck.

Import installer catalog.

Context {um : OS.Umask}.

(** The release lookup of [client] for [p] yields version [v]. *)
Definition resolves (env : Env) (client : github.Client) (p : Program)
    (v : string) : Prop :=
  github.LatestVersion
    (url_error env (github.releases_url client (Repo p)))
    (api env (github.releases_url client (Repo p))) (Repo p) = Ok v.

(** The world after [install] has announced the pipeline, asked for the
    latest release and read the marker. *)
Definition checked (env : Env) (client : github.Client) (p : Program)
    (w : World) : World :=
  {| fs := fs w;
     chan := chan w ++ [progress p StateFetchingVersion "" None];
     calls := calls w ++ [NetGet (github.releases_url client (Repo p));
                          FsReadFile (versionFile env p)];
     gets := gets w; selects := selects w; temps := temps w |}.

Lemma resolves_url_ok (env : Env) (client : github.Client) (p : Program) (v : string) :
  resolves env client p v ->
  url_error env (github.releases_url client (Repo p)) = None.
Proof.
  unfold resolves, github.LatestVersion.
  destruct (url_error env _); [discriminate | reflexivity].
Qed.

Lemma install_resolved (env : Env) (client : github.Client) (p : Program)
    (verbose : bool) (w : World) (v : string) :
  resolves env client p v ->
  install env client p verbose w =
  if up_to_date (OS.ReadFile (fs w) (versionFile env p)) v
  then send (progress p StateSkipped v None) (checked env client p w)
  else install_download env p verbose v (checked env client p w).
Proof.
  intros H. pose proof (resolves_url_ok _ _ _ _ H) as U.
  unfold resolves in H.
  unfold install, bind, client_LatestVersion, send at 1.
  rewrite U. unfold bind, note, ret. rewrite U in H. rewrite H.
  unfold os_ReadFile, bind, note, get_fs, ret. cbn [fs chan calls gets selects temps].
  unfold checked. rewrite <- !app_assoc.
  destruct (up_to_date _ v); reflexivity.
Qed.

Lemma install_up_to_date (env : Env) (client : github.Client) (p : Program)
    (verbose : bool) (w : World) (version current : string) :
  resolves env client p version ->
  OS.ReadFile (fs w) (versionFile env p) = Ok current ->
  GoStrings.TrimSpace current = version ->
  install env client p verbose w =
  (tt, {| fs := fs w;
          chan := chan w ++ [progress p StateFetchingVersion "" None;
                             progress p StateSkipped version None];
          calls := calls w ++ [NetGet (github.releases_url client (Repo p));
                               FsReadFile (versionFile env p)];
          gets := gets w; selects := selects w; temps := temps w |}).
Proof.
  intros Hv Hr Ht. rewrite (install_resolved _ _ _ _ _ _ Hv).
  rewrite Hr. unfold up_to_date. rewrite Ht, String.eqb_refl.
  unfold send, checked. cbn [fs chan calls gets selects temps].
  rewrite <- app_assoc. reflexivity.
Qed.

(** C1. When the release lookup yields [version] and the marker, read
    successfully and trimmed, equals it, [install] sends the
    fetching-version and the skipped message and returns: the only calls
    are the one GET of the release lookup and the read of the marker (no
    download, extraction, marker write or link), and the file system is
    untouched. *)
Theorem skip_when_up_to_date (env : Env) (client : github.Client) (p : Program)
    (verbose : bool) (w : World) (version current : string) :
  resolves env client p version ->
  OS.ReadFile (fs w) (versionFile env p) = Ok current ->
  GoStrings.TrimSpace current = version ->
  install env client p verbose w =
  (tt, {| fs := fs w;
          chan := chan w ++ [progress p StateFetchingVersion "" None;
                             progress p StateSkipped version None];
          calls := calls w ++ [NetGet (github.releases_url client (Repo p));
                               FsReadFile (versionFile env p)];
          gets := gets w; selects := selects w; temps := temps w |}).
Proof. apply install_up_to_date. Qed.

End VersionCheck.

(** ** internal/installer: the download with retry *)

Ltac splits := repeat match goal with |- _ /\ _ => split end.

Ltac attempt_done :=
  wsimpl; splits; try reflexivity;
  try (eexists; split; [reflexivity | repeat constructor; reflexivity]).

Section Retry.

Import installer catalog.

Context {um : OS.Umask}.

Variable env : Env.
Variables url assetName : string.

(** The calls one attempt may make besides announcing itself. *)
Definition attempt_call (c : call) : Prop :=
  match c with
  | NetGet u => u = url
  | FsCreateTemp _ => True
  | FsRemove _ _ => True
  | _ => False
  end.

(** What one attempt leaves behind: on success a new temporary file with
    the body, in a directory that was there, on failure the file system
    as it was. *)
Definition attempt_post (w : World) (r : string * option error) (w' : World)
    (ms : list ProgressMsg) (cs : list call) : Prop :=
  ms = [] /\
  selects w' = selects w /\
  (exists rest, cs = Download url :: rest /\ Forall attempt_call rest) /\
  match r with
  | (tmp, None) =>
      exists n body,
        tmp = temp_path (TempDir env) ("installer-*-" +:+ assetName) (temp_rand env n) /\
        fs w !! tmp = None /\
        fs w' = <[tmp := File body (OS.create_mode OS.perm_0600)]> (fs w)
  | (_, Some _) => fs w' = fs w
  end.

Lemma download_spec (w : World) :
  wp (download env url assetName) w (attempt_post w).
Proof.
  unfold download, attempt_post.
  wp_run. destruct (url_error env url) as [e|].
  { wp_run. attempt_done. }
  wp_run. destruct (asset env (gets w) url) as [e|status len body cerr].
  { wp_run. attempt_done. }
  destruct (negb (status =? 200)%Z).
  { wp_run. attempt_done. }
  destruct (len =? 0)%Z.
  { wp_run. attempt_done. }
  wp_run. unfold os_CreateTemp.
  destruct (has_separator ("installer-*-" +:+ assetName)).
  { wp_run. attempt_done. }
  wp_run.
  set (tmp := temp_path (TempDir env) ("installer-*-" +:+ assetName)
                (temp_rand env (temps w))).
  destruct (fs w !! tmp) as [n0|] eqn:Etmp.
  { wp_run. attempt_done. }
  destruct (OS.creatable (fs w) tmp) eqn:Edir.
  2:{ wp_run. attempt_done. }
  wp_run.
  unfold OS.write. rewrite lookup_insert_eq. rewrite insert_insert_eq.
  destruct cerr as [e|].
  - wp_step. wp_step. wp_step. wsimpl.
    unfold OS.Remove. rewrite lookup_insert_eq.
    cbn [of_result fst snd is_nil].
    wp_run. attempt_done.
    apply delete_insert_id. exact Etmp.
  - wp_run. attempt_done.
    exists (temps w), ("" +:+ body). auto.
Qed.

(** The outcome of a [select]: did the timer fire? *)
Definition fired (c : option ctx_error) : bool :=
  match c with
  | None => true
  | Some _ => false
  end.

Lemma select_sleep_eq (d : Z) (w : World) :
  select_sleep env d w =
  (ctx_done env (selects w),
   {| fs := fs w; chan := chan w;
      calls := calls w ++ [Sleep d (fired (ctx_done env (selects w)))];
      gets := gets w; selects := S (selects w); temps := temps w |}).
Proof.
  unfold select_sleep, bind, next_select, note, ret.
  destruct (ctx_done env (selects w)); reflexivity.
Qed.

Lemma backoff_1 : backoff 1 = Second.
Proof. reflexivity. Qed.

Lemma backoff_2 : backoff 2 = (2 * Second)%Z.
Proof. reflexivity. Qed.

(** The attempts and the waits of [downloadWithRetry], the later ones
    meaningful when the earlier ones have failed. *)
Definition attempt1 (w : World) := download env url assetName w.
Definition pause1 (w : World) := select_sleep env Second (snd (attempt1 w)).
Definition attempt2 (w : World) := download env url assetName (snd (pause1 w)).
Definition pause2 (w : World) := select_sleep env (2 * Second) (snd (attempt2 w)).
Definition attempt3 (w : World) := download env url assetName (snd (pause2 w)).

(** [downloadWithRetry] written out. *)
Lemma downloadWithRetry_eq (w : World) :
  downloadWithRetry env url assetName w =
  match snd (fst (attempt1 w)) with
  | None => ((fst (fst (attempt1 w)), None), snd (attempt1 w))
  | Some _ =>
      match fst (pause1 w) with
      | Some c => (("", Some (ErrContext c)), snd (pause1 w))
      | None =>
          match snd (fst (attempt2 w)) with
          | None => ((fst (fst (attempt2 w)), None), snd (attempt2 w))
          | Some _ =>
              match fst (pause2 w) with
              | Some c => (("", Some (ErrContext c)), snd (pause2 w))
              | None =>
                  match snd (fst (attempt3 w)) with
                  | None => ((fst (fst (attempt3 w)), None), snd (attempt3 w))
                  | Some e3 => (("", Some e3), snd (attempt3 w))
                  end
              end
          end
      end
  end.
Proof.
  unfold attempt3, pause2, attempt2, pause1, attempt1.
  unfold downloadWithRetry. cbn [retry_from Nat.ltb Nat.leb].
  rewrite backoff_1, backoff_2. unfold bind, ret.
  destruct (download env url assetName w) as [[p1 [e1|]] w1]; cbn [fst snd]; [|reflexivity].
  destruct (select_sleep env Second w1) as [[c1|] w1']; cbn [fst snd]; [reflexivity|].
  destruct (download env url assetName w1') as [[p2 [e2|]] w2]; cbn [fst snd]; [|reflexivity].
  destruct (select_sleep env (2 * Second) w2) as [[c2|] w2']; cbn [fst snd]; [reflexivity|].
  destruct (download env url assetName w2') as [[p3 [e3|]] w3]; reflexivity.
Qed.

(** The attempts and waits among the calls. *)
Inductive retry_event :=
| Try
| Wait (d : Z).

Definition retry_events (cs : list call) : list retry_event :=
  flat_map (fun c => match c with
                     | Download _ => [Try]
                     | Sleep d _ => [Wait d]
                     | _ => []
                     end) cs.

(** The attempts and waits the loop goes through when every attempt
    fails and no wait is cut short. *)
Fixpoint schedule (left attempt : nat) : list retry_event :=
  match left with
  | O => []
  | S k =>
      (if (0 <? attempt)%nat then [Wait (backoff attempt)] else [])
        ++ Try :: schedule k (S attempt)
  end.

Definition retry_call (c : call) : Prop :=
  match c with
  | Download u => u = url
  | Sleep _ _ => True
  | _ => attempt_call c
  end.

Definition retry_post (left attempt : nat) (w : World) (r : string * option error)
    (w' : World) (ms : list ProgressMsg) (cs : list call) : Prop :=
  ms = [] /\
  Forall retry_call cs /\
  retry_events cs `prefix_of` schedule left attempt /\
  (attempt = 0%nat -> left <> 0%nat -> exists rest, cs = Download url :: rest) /\
  match r with
  | (tmp, None) =>
      exists n body,
        tmp = temp_path (TempDir env) ("installer-*-" +:+ assetName) (temp_rand env n) /\
        fs w !! tmp = None /\
        fs w' = <[tmp := File body (OS.create_mode OS.perm_0600)]> (fs w)
  | (_, Some _) => fs w' = fs w
  end.

Lemma attempt_call_retry (c : call) : attempt_call c -> retry_call c.
Proof. destruct c; simpl; tauto. Qed.

Lemma attempt_events (cs : list call) : Forall attempt_call cs -> retry_events cs = [].
Proof.
  induction 1 as [|c cs Hc _ IH]; [reflexivity|].
  unfold retry_events in *. simpl. rewrite IH. destruct c; simpl in *; tauto.
Qed.

Lemma retry_spec (left attempt : nat) (lastErr : option error) (w : World) :
  (left = 0%nat -> lastErr <> None) ->
  wp (retry_from env url assetName left attempt lastErr) w (retry_post left attempt w).
Proof.
  revert attempt lastErr w.
  induction left as [|k IH]; intros attempt lastErr w Hl.
  - cbn [retry_from]. wp_run. unfold retry_post.
    split; [reflexivity|]. split; [constructor|]. split; [apply prefix_nil|].
    split; [intros _ H; exfalso; apply H; reflexivity|].
    destruct lastErr; [reflexivity | exfalso; apply Hl; reflexivity].
  - cbn [retry_from].
    assert (Try_ : forall w0, fs w0 = fs w ->
              wp (r <- download env url assetName;;
                  match r with
                  | (path, None) => ret (path, None)
                  | (_, Some err) =>
                      retry_from env url assetName k (S attempt) (Some err)
                  end) w0
                 (fun r w' ms cs =>
                    ms = [] /\ Forall retry_call cs /\
                    retry_events cs `prefix_of` (Try :: schedule k (S attempt)) /\
                    (exists rest, cs = Download url :: rest) /\
                    match r with
                    | (tmp, None) =>
                        exists n body,
                          tmp = temp_path (TempDir env) ("installer-*-" +:+ assetName)
                                  (temp_rand env n) /\
                          fs w !! tmp = None /\
                          fs w' = <[tmp := File body (OS.create_mode OS.perm_0600)]> (fs w)
                    | (_, Some _) => fs w' = fs w
                    end)).
    { intros w0 Hw0. wp_step. eapply wp_mono; [apply download_spec|].
      intros [path [err|]] w1 ms cs (Hms & _ & (rest & Hcs & Hrest) & Hfs); cbn beta.
      - eapply wp_mono; [apply IH; congruence|].
        intros r w2 ms2 cs2 (Hms2 & Hcs2 & Hev & _ & Hfs2). subst ms ms2 cs.
        split; [reflexivity|]. split; [|split; [|split; [eexists; reflexivity|]]].
        + constructor; [reflexivity|]. apply Forall_app. split; [|exact Hcs2].
          eapply Forall_impl; [exact Hrest|]. apply attempt_call_retry.
        + unfold retry_events in *. cbn [flat_map app]. rewrite flat_map_app.
          fold (retry_events rest). rewrite (attempt_events _ Hrest).
          cbn [app]. apply prefix_cons. exact Hev.
        + destruct r as [tmp [e2|]]; rewrite Hfs, Hw0 in Hfs2; exact Hfs2.
      - wp_run. subst ms cs. rewrite !app_nil_r.
        split; [reflexivity|]. split; [|split; [|split; [eexists; reflexivity|]]].
        + constructor; [reflexivity|].
          eapply Forall_impl; [exact Hrest|]. apply attempt_call_retry.
        + unfold retry_events in *. cbn [flat_map app].
          fold (retry_events rest). rewrite (attempt_events _ Hrest).
          apply prefix_cons. apply prefix_nil.
        + rewrite Hw0 in Hfs. exact Hfs. }
    unfold retry_post.
    destruct attempt as [|a]; cbn [Nat.ltb Nat.leb schedule app].
    + eapply wp_mono; [apply Try_; reflexivity|].
      intros r w' ms cs (Hms & Hcs & Hev & Hfirst & Hfs). auto.
    + wp_step. unfold select_sleep. wp_run.
      destruct (ctx_done env (selects w)) as [c|].
      * wp_run. split; [reflexivity|].
        split; [|split; [|split]]; [| |discriminate|reflexivity].
        -- repeat constructor.
        -- cbn. apply prefix_cons. apply prefix_nil.
      * do 3 (wp_step; cbn beta iota). wsimpl.
        eapply wp_mono; [apply Try_; reflexivity|].
        intros r w' ms cs (Hms & Hcs & Hev & _ & Hfs).
        subst ms. split; [reflexivity|]. split; [|split; [|split]]; [| |discriminate|].
        -- constructor; [exact I | exact Hcs].
        -- cbn. apply prefix_cons. exact Hev.
        -- exact Hfs.
Qed.

Lemma downloadWithRetry_spec (w : World) :
  wp (downloadWithRetry env url assetName) w (retry_post 3 0 w).
Proof. apply retry_spec. discriminate. Qed.

Lemma download_calls (w : World) :
  exists rest,
    calls (snd (download env url assetName w)) = calls w ++ Download url :: rest /\
    Forall attempt_call rest /\
    retry_events (Download url :: rest) = [Try].
Proof.
  destruct (download_spec w) as (ms & cs & _ & Hc & _ & _ & (rest & -> & Hrest) & _).
  exists rest. split; [exact Hc|]. split; [exact Hrest|].
  unfold retry_events. cbn [flat_map app]. fold (retry_events rest).
  rewrite (attempt_events _ Hrest). reflexivity.
Qed.

Lemma retry_events_app (cs1 cs2 : list call) :
  retry_events (cs1 ++ cs2) = retry_events cs1 ++ retry_events cs2.
Proof. apply flat_map_app. Qed.

(** C7. When the first attempt has failed and the context is done before
    the first timer fires, [downloadWithRetry] returns the context's error
    at once: the abandoned wait is its last call and only one attempt was
    made. Likewise when the second attempt has failed and the context is
    done during the second wait: two attempts, no third. *)
Theorem cancelled_wait_returns (w : World) (c : ctx_error) :
  (is_nil (snd (fst (attempt1 w))) = false ->
   ctx_done env (selects (snd (attempt1 w))) = Some c ->
   downloadWithRetry env url assetName w
   = (("", Some (ErrContext c)), snd (pause1 w)) /\
   exists cs,
     calls (snd (pause1 w)) = calls w ++ cs ++ [Sleep Second false] /\
     retry_events cs = [Try]) /\
  (is_nil (snd (fst (attempt1 w))) = false ->
   ctx_done env (selects (snd (attempt1 w))) = None ->
   is_nil (snd (fst (attempt2 w))) = false ->
   ctx_done env (selects (snd (attempt2 w))) = Some c ->
   downloadWithRetry env url assetName w
   = (("", Some (ErrContext c)), snd (pause2 w)) /\
   exists cs,
     calls (snd (pause2 w)) = calls w ++ cs ++ [Sleep (2 * Second) false] /\
     retry_events cs = [Try; Wait Second; Try]).
Proof.
  split.
  - intros H1 Hc. rewrite downloadWithRetry_eq.
    destruct (snd (fst (attempt1 w))) as [e1|] eqn:E1; [|discriminate].
    unfold pause1 at 1 2. rewrite select_sleep_eq, Hc. cbn [fst snd].
    split; [unfold pause1; rewrite select_sleep_eq, Hc; reflexivity|].
    destruct (download_calls w) as (rest & Hcalls & _ & Hev).
    exists (Download url :: rest). split; [|exact Hev].
    unfold pause1. rewrite select_sleep_eq, Hc. cbn [calls snd fired].
    unfold attempt1. rewrite Hcalls. rewrite <- app_assoc. reflexivity.
  - intros H1 Hc1 H2 Hc2. rewrite downloadWithRetry_eq.
    destruct (snd (fst (attempt1 w))) as [e1|] eqn:E1; [|discriminate].
    assert (P1 : pause1 w =
                 (None, {| fs := fs (snd (attempt1 w)); chan := chan (snd (attempt1 w));
                           calls := calls (snd (attempt1 w)) ++ [Sleep Second true];
                           gets := gets (snd (attempt1 w));
                           selects := S (selects (snd (attempt1 w)));
                           temps := temps (snd (attempt1 w)) |})).
    { unfold pause1. rewrite select_sleep_eq, Hc1. reflexivity. }
    rewrite P1 at 1. cbn [fst].
    destruct (snd (fst (attempt2 w))) as [e2|] eqn:E2; [|discriminate].
    assert (P2 : pause2 w =
                 (Some c, {| fs := fs (snd (attempt2 w)); chan := chan (snd (attempt2 w));
                             calls := calls (snd (attempt2 w)) ++ [Sleep (2 * Second) false];
                             gets := gets (snd (attempt2 w));
                             selects := S (selects (snd (attempt2 w)));
                             temps := temps (snd (attempt2 w)) |})).
    { unfold pause2. rewrite select_sleep_eq, Hc2. reflexivity. }
    rewrite P2. cbn [fst snd]. split; [reflexivity|].
    destruct (download_calls w) as (rest1 & Hcalls1 & _ & Hev1).
    destruct (download_calls (snd (pause1 w))) as (rest2 & Hcalls2 & _ & Hev2).
    exists ((Download url :: rest1) ++ [Sleep Second true] ++ (Download url :: rest2)).
    split.
    + cbn [calls]. unfold attempt2. rewrite Hcalls2. rewrite P1. cbn [calls snd].
      unfold attempt1. rewrite Hcalls1. rewrite <- !app_assoc. reflexivity.
    + rewrite !retry_events_app, Hev1, Hev2. reflexivity.
Qed.

End Retry.

(** ** Symbolic links are only made by the linker *)

Section Links.

Context {um : OS.Umask}.

(** Every symbolic link of [fs'] was one of [fs] already. *)
Definition no_new_links (fs fs' : gmap string node) : Prop :=
  forall p t, fs' !! p = Some (Symlink t) -> fs !! p = Some (Symlink t).

Lemma no_new_links_refl (fs : gmap string node) : no_new_links fs fs.
Proof. intros p t H. exact H. Qed.

Lemma no_new_links_trans (fs1 fs2 fs3 : gmap string node) :
  no_new_links fs1 fs2 -> no_new_links fs2 fs3 -> no_new_links fs1 fs3.
Proof. intros H12 H23 p t H. apply H12, H23, H. Qed.

Lemma no_new_links_insert (fs : gmap string node) (q : string) (n : node) :
  linker.is_symlink n = false -> no_new_links fs (<[q := n]> fs).
Proof.
  intros Hn p t H. destruct (decide (q = p)) as [->|Hne].
  - rewrite lookup_insert_eq in H. inversion H; subst. discriminate.
  - rewrite lookup_insert_ne in H by exact Hne. exact H.
Qed.

Lemma no_new_links_delete (fs : gmap string node) (q : string) :
  no_new_links fs (delete q fs).
Proof.
  intros p t H. destruct (decide (q = p)) as [->|Hne].
  - rewrite lookup_delete_eq in H. discriminate.
  - rewrite lookup_delete_ne in H by exact Hne. exact H.
Qed.

Lemma OpenFile_trunc_links (fs fs1 : gmap string node) (p q : string) (perm : N) :
  OS.OpenFile_trunc fs p perm = Ok (q, fs1) -> no_new_links fs fs1.
Proof.
  unfold OS.OpenFile_trunc. destruct (OS.resolve fs p) as [r|e]; [|discriminate].
  destruct (fs !! r) as [[d m| |]|]; try destruct (OS.creatable fs r);
    intros H; inversion H; subst; apply no_new_links_insert; reflexivity.
Qed.

Lemma write_links (fs : gmap string node) (q d : string) :
  no_new_links fs (OS.write fs q d).
Proof.
  unfold OS.write. destruct (fs !! q) as [[d0 m| |]|];
    try apply no_new_links_refl.
  apply no_new_links_insert. reflexivity.
Qed.

Lemma WriteFile_links (fs fs1 : gmap string node) (p d : string) (perm : N) :
  OS.WriteFile fs p d perm = Ok fs1 -> no_new_links fs fs1.
Proof.
  unfold OS.WriteFile.
  destruct (OS.OpenFile_trunc fs p perm) as [[q fs0]|e] eqn:E; [|discriminate].
  intros H; inversion H; subst.
  eapply no_new_links_trans; [eapply OpenFile_trunc_links; exact E|].
  apply write_links.
Qed.

Lemma Mkdir_links (fs fs1 : gmap string node) (p : string) (perm : N) :
  OS.Mkdir fs p perm = Ok fs1 -> no_new_links fs fs1.
Proof.
  unfold OS.Mkdir. destruct (fs !! p); [discriminate|].
  destruct (OS.creatable fs p); [|discriminate].
  intros H; inversion H; subst. apply no_new_links_insert. reflexivity.
Qed.

Lemma mkdirs_links (ps : list string) (fs fs1 : gmap string node) (perm : N) :
  OS.mkdirs fs ps perm = Ok fs1 -> no_new_links fs fs1.
Proof.
  revert fs. induction ps as [|p rest IH]; intros fs; simpl.
  - intros H; inversion H; subst. apply no_new_links_refl.
  - destruct (OS.Stat fs p) as [[d m| |m]|e]; try discriminate.
    + apply IH.
    + destruct (OS.Mkdir fs p perm) as [fs0|e0] eqn:E; [|discriminate].
      intros H. eapply no_new_links_trans; [|apply IH; exact H].
      eapply Mkdir_links. exact E.
Qed.

Lemma MkdirAll_ok_links (fs fs1 : gmap string node) (p : string) (perm : N) :
  OS.MkdirAll fs p perm = Ok fs1 -> no_new_links fs fs1.
Proof.
  unfold OS.MkdirAll. destruct (String.eqb p ""); [discriminate|].
  apply mkdirs_links.
Qed.

Lemma MkdirAll_links (fs : gmap string node) (p : string) :
  no_new_links fs (extractor.MkdirAll_ fs p).
Proof.
  unfold extractor.MkdirAll_.
  destruct (OS.MkdirAll fs p OS.perm_0755) as [fs1|e] eqn:E.
  - eapply MkdirAll_ok_links. exact E.
  - apply no_new_links_refl.
Qed.

Lemma write_member_links (fs : gmap string node) (target : string) (perm : N)
    (data : string) (copy_err : option error) :
  no_new_links fs (fst (extractor.write_member fs target perm data copy_err)).
Proof.
  unfold extractor.write_member.
  destruct (OS.OpenFile_trunc fs target perm) as [[q fs1]|e] eqn:E; simpl.
  - eapply no_new_links_trans; [eapply OpenFile_trunc_links; exact E|].
    apply write_links.
  - apply no_new_links_refl.
Qed.

Lemma tar_loop_links (es : list extractor.TarEntry) (fs : gmap string node)
    (dstDir : string) (final : option error) :
  no_new_links fs (fst (extractor.tar_loop fs dstDir es final)).
Proof.
  revert fs. induction es as [|hdr rest IH]; intros fs; simpl.
  - destruct final; apply no_new_links_refl.
  - destruct (extractor.tar_Typeflag hdr).
    + pose proof (write_member_links
                    (extractor.MkdirAll_ fs
                       (GoPath.Dir (extractor.sanitize dstDir (extractor.tar_Name hdr))))
                    (extractor.sanitize dstDir (extractor.tar_Name hdr))
                    (extractor.tar_Mode hdr) (extractor.tar_data hdr)
                    (extractor.tar_copy_err hdr)) as Hw.
      destruct (extractor.write_member _ _ _ _ _) as [fs2 [e|]]; simpl in *.
      * eapply no_new_links_trans; [apply MkdirAll_links | exact Hw].
      * eapply no_new_links_trans; [|apply IH].
        eapply no_new_links_trans; [apply MkdirAll_links | exact Hw].
    + eapply no_new_links_trans; [apply MkdirAll_links | apply IH].
    + apply IH.
Qed.

Lemma zip_loop_links (files : list extractor.ZipFile) (fs : gmap string node)
    (dstDir : string) :
  no_new_links fs (fst (extractor.zip_loop fs dstDir files)).
Proof.
  revert fs. induction files as [|f rest IH]; intros fs; simpl.
  - apply no_new_links_refl.
  - destruct (extractor.zip_IsDir f).
    + eapply no_new_links_trans; [apply MkdirAll_links | apply IH].
    + destruct (extractor.zip_open_err f) as [e|]; simpl.
      * apply MkdirAll_links.
      * pose proof (write_member_links
                      (extractor.MkdirAll_ fs
                         (GoPath.Dir (extractor.sanitize dstDir (extractor.zip_Name f))))
                      (extractor.sanitize dstDir (extractor.zip_Name f))
                      (extractor.zip_Mode f) (extractor.zip_data f)
                      (extractor.zip_copy_err f)) as Hw.
        destruct (extractor.write_member _ _ _ _ _) as [fs2 [e|]]; simpl in *.
        -- eapply no_new_links_trans; [apply MkdirAll_links | exact Hw].
        -- eapply no_new_links_trans; [|apply IH].
           eapply no_new_links_trans; [apply MkdirAll_links | exact Hw].
Qed.

Lemma Extract_links (cd : extractor.Codec) (fs : gmap string node)
    (srcPath dstDir : string) :
  no_new_links fs (fst (extractor.Extract cd fs srcPath dstDir)).
Proof.
  unfold extractor.Extract.
  destruct (extractor.dispatch (GoPath.Base srcPath)) as [c| |].
  - unfold extractor.extractTar.
    destruct (OS.Open fs srcPath) as [q|e]; [|apply no_new_links_refl].
    destruct (OS.read_all fs q) as [data|e], c; simpl;
      try apply no_new_links_refl;
      try (destruct (extractor.gzip_NewReader cd data); simpl;
           [apply no_new_links_refl | apply tar_loop_links]);
      try (destruct (extractor.xz_NewReader cd data); simpl;
           [apply no_new_links_refl | apply tar_loop_links]).
    apply tar_loop_links.
  - unfold extractor.extractZip.
    destruct (OS.ReadFile fs srcPath) as [data|e]; [|apply no_new_links_refl].
    destruct (extractor.zip_OpenReader cd data) as [files|e];
      [apply zip_loop_links | apply no_new_links_refl].
  - unfold extractor.copyBinary.
    destruct (OS.Open fs srcPath) as [inq|e]; [|apply no_new_links_refl].
    destruct (OS.OpenFile_trunc fs _ OS.perm_0755) as [[outq fs1]|e] eqn:E;
      [|apply no_new_links_refl].
    destruct (OS.read_all fs1 inq) as [data|e]; simpl.
    + eapply no_new_links_trans; [eapply OpenFile_trunc_links; exact E|].
      apply write_links.
    + eapply OpenFile_trunc_links; exact E.
Qed.

(** A marker written to a name that is not a symbolic link is a regular
    file with exactly the bytes written. *)
Lemma WriteFile_file (fs fs1 : gmap string node) (p d : string) (perm : N) :
  (forall t, fs !! p <> Some (Symlink t)) ->
  OS.WriteFile fs p d perm = Ok fs1 ->
  exists m, fs1 !! p = Some (File d m).
Proof.
  intros Hp. unfold OS.WriteFile, OS.OpenFile_trunc.
  rewrite (resolve_free _ _ Hp).
  destruct (fs !! p) as [[d0 m| |]|] eqn:E; try destruct (OS.creatable fs p);
    try discriminate;
    intros H; inversion H; subst; unfold OS.write;
    rewrite lookup_insert_eq, insert_insert_eq, lookup_insert_eq; eauto.
Qed.

Lemma ReadFile_of_file (fs : gmap string node) (p d : string) (m : N) :
  fs !! p = Some (File d m) -> OS.ReadFile fs p = Ok d.
Proof.
  intros H. unfold OS.ReadFile, OS.Open.
  rewrite resolve_free by (intros t; congruence).
  rewrite H. unfold OS.read_all. rewrite H. reflexivity.
Qed.

End Links.

(** ** internal/installer: from the extraction to the links *)

Section Unpack.

Import installer catalog.

Context {um : OS.Umask}.

Variable env : Env.
Variable p : Program.
Variable version : string.

Definition is_link (c : call) : Prop :=
  match c with
  | FsLink _ _ _ _ => True
  | _ => False
  end.

(** What the loop over the links does: one terminal message, only calls
    of [Link], and nothing but symbolic links is replaced. *)
Definition link_post (bs : list Bin) (w : World) (_ : unit) (w' : World)
    (ms : list ProgressMsg) (cs : list call) : Prop :=
  (exists m, ms = [m] /\ is_terminal (msg_State m) = true) /\
  Forall is_link cs /\
  (forall path n, fs w !! path = Some n -> linker.is_symlink n = false ->
                  fs w' !! path = Some n) /\
  (bs = [] -> ms = [progress p StateDone version None] /\ cs = [] /\ w' = snd (send (progress p StateDone version None) w)).

Lemma link_all_spec (dir bin : string) (bs : list Bin) (w : World) :
  wp (link_all p dir bin version bs) w (link_post bs w).
Proof.
  revert w. induction bs as [|b rest IH]; intros w; cbn [link_all].
  - wp_run. unfold link_post. splits; eauto.
  - wp_step. wp_step. wp_step. cbn beta.
    pose proof (Link_keeps (fs w)
                  (GoPath.Join [dir; GoStrings.ReplaceAll (Src b) "{version}" version])
                  bin (Dst b)) as Hk.
    destruct (linker.Link (fs w) _ bin (Dst b)) as [fs1 [e|]]; cbn [fst snd is_nil] in *.
    + wp_run. unfold link_post. splits.
      * eexists. split; reflexivity.
      * repeat constructor.
      * exact Hk.
      * discriminate.
    + eapply wp_mono; [apply IH|].
      intros [] w' ms cs ((m & Hm & Ht) & Hcs & Hkeep & _). wsimpl.
      unfold link_post. splits.
      * exists m. split; [exact Hm | exact Ht].
      * constructor; [exact I | exact Hcs].
      * intros path n Hp Hn. apply Hkeep; [|exact Hn]. apply Hk; assumption.
      * discriminate.
Qed.

Definition no_link_at (fs : gmap string node) (path : string) : Prop :=
  forall t, fs !! path <> Some (Symlink t).

Lemma no_new_links_at (fs fs' : gmap string node) (path : string) :
  no_new_links fs fs' -> no_link_at fs path -> no_link_at fs' path.
Proof. intros H Hp t E. apply (Hp t). apply H. exact E. Qed.

(** What [install] does from the extraction on. Either it stops with an
    error before the marker is written, or it creates the directory,
    extracts, writes the marker (whatever the outcome [ok] of the write)
    and only then links. *)
Definition unpack_post (tmpFile : string) (w : World) (_ : unit) (w' : World)
    (ms : list ProgressMsg) (cs : list call) : Prop :=
  (exists e,
     ms = [progress p StateExtracting version None;
           progress p StateError "" (Some e)] /\
     (cs = [FsMkdirAll (installDir env p) false] \/
      cs = [FsMkdirAll (installDir env p) true;
            FsExtract tmpFile (installDir env p) false])) \/
  (exists m ok links,
     ms = [progress p StateExtracting version None;
           progress p StateLinking version None; m] /\
     is_terminal (msg_State m) = true /\
     cs = FsMkdirAll (installDir env p) true
          :: FsExtract tmpFile (installDir env p) true
          :: FsWriteFile (versionFile env p) version ok :: links /\
     Forall is_link links /\
     (Bins p = [] -> m = progress p StateDone version None /\ links = []) /\
     (ok = true -> no_link_at (fs w) (versionFile env p) ->
      exists mode, fs w' !! versionFile env p = Some (File version mode))).

Lemma install_unpack_spec (tmpFile : string) (w : World) :
  wp (install_unpack env p version tmpFile) w (unpack_post tmpFile w).
Proof.
  unfold install_unpack.
  do 5 (wp_step; cbn beta iota). wsimpl. unfold of_result.
  destruct (OS.MkdirAll (fs w) (installDir env p) OS.perm_0755)
    as [fs1|e1] eqn:Emk; cbn [fst snd is_nil].
  2:{ wp_run. left. eexists. split; [reflexivity|]. left. reflexivity. }
  assert (Hmk : no_new_links (fs w) fs1) by (eapply MkdirAll_ok_links; exact Emk).
  do 3 (wp_step; cbn beta iota). wsimpl.
  pose proof (Extract_links (codec env) fs1 tmpFile (installDir env p)) as Hex.
  destruct (extractor.Extract (codec env) fs1 tmpFile (installDir env p))
    as [fs2 [e2|]]; cbn [fst snd is_nil] in *.
  { wp_run. left. eexists. split; [reflexivity|]. right. reflexivity. }
  do 5 (wp_step; cbn beta iota). wsimpl.
  pose proof (WriteFile_file fs2 (fst (of_result fs2
                (OS.WriteFile fs2 (versionFile env p) version OS.perm_0644)))
                (versionFile env p) version OS.perm_0644) as Hwr.
  unfold of_result in *.
  destruct (OS.WriteFile fs2 (versionFile env p) version OS.perm_0644)
    as [fs3|e3] eqn:Ew; cbn [fst snd is_nil] in *.
  - eapply wp_mono; [apply link_all_spec|].
    intros [] w' ms cs ((m & Hm & Ht) & Hcs & Hkeep & Hnil). wsimpl.
    right. exists m, true, cs. subst ms. splits; auto.
    + intros Hb. destruct (Hnil Hb) as (Hm & Hc & _). inversion Hm. auto.
    + intros _ Hno.
      destruct Hwr as [mode Hmode]; [|reflexivity|].
      { eapply no_new_links_at; [|exact Hno].
        eapply no_new_links_trans; [exact Hmk | exact Hex]. }
      exists mode. apply Hkeep; [exact Hmode | reflexivity].
  - eapply wp_mono; [apply link_all_spec|].
    intros [] w' ms cs ((m & Hm & Ht) & Hcs & Hkeep & Hnil). wsimpl.
    right. exists m, false, cs. subst ms. splits; auto.
    + intros Hb. destruct (Hnil Hb) as (Hm & Hc & _). inversion Hm. auto.
    + discriminate.
Qed.

End Unpack.

(** ** internal/installer: the whole pipeline *)

Section Pipeline.

Import installer catalog.

Context {um : OS.Umask}.

Variable env : Env.
Variable p : Program.
Variable version : string.

(** [assetName] and [downloadURL] of [install]. *)
Definition assetName_of : string :=
  GoStrings.ReplaceAll (AssetPattern p) "{version}" version.

Definition downloadURL_of : string := download_url p version assetName_of.

(** The calls made before the extraction starts. *)
Definition download_call (c : call) : Prop :=
  match c with
  | NetGet u => u = downloadURL_of
  | Download u => u = downloadURL_of
  | Sleep _ _ => True
  | Stderr _ => True
  | FsCreateTemp _ => True
  | FsRemove _ _ => True
  | _ => False
  end.

Lemma retry_call_download (c : call) : retry_call downloadURL_of c -> download_call c.
Proof. destruct c; simpl; tauto. Qed.

(** The three ways [install] can go once it has decided to download:
    the download fails; the extraction (or the creation of the install
    directory) fails; or the marker is written and the links are made.
    In the last case the marker, if its write succeeded at a name that was
    no symbolic link, is still there at the end, however the links went. *)
Definition download_post (w : World) (_ : unit) (w' : World)
    (ms : list ProgressMsg) (cs : list call) : Prop :=
  exists pre,
    Forall download_call pre /\
    In (Download downloadURL_of) pre /\
    ((exists e,
        ms = [progress p StateDownloading version None;
              progress p StateError "" (Some (Wrap "download" e))] /\
        cs = pre) \/
     (exists e okr tmp,
        ms = [progress p StateDownloading version None;
              progress p StateExtracting version None;
              progress p StateError "" (Some e)] /\
        (cs = pre ++ [FsMkdirAll (installDir env p) false; FsRemove tmp okr] \/
         cs = pre ++ [FsMkdirAll (installDir env p) true;
                      FsExtract tmp (installDir env p) false;
                      FsRemove tmp okr])) \/
     (exists m ok links okr tmp n,
        ms = [progress p StateDownloading version None;
              progress p StateExtracting version None;
              progress p StateLinking version None; m] /\
        is_terminal (msg_State m) = true /\
        tmp = temp_path (TempDir env) ("installer-*-" +:+ assetName_of)
                (temp_rand env n) /\
        cs = pre ++ [FsMkdirAll (installDir env p) true;
                     FsExtract tmp (installDir env p) true;
                     FsWriteFile (versionFile env p) version ok]
                 ++ links ++ [FsRemove tmp okr] /\
        Forall is_link links /\
        (Bins p = [] -> m = progress p StateDone version None /\ links = []) /\
        (ok = true -> no_link_at (fs w) (versionFile env p) ->
         tmp <> versionFile env p ->
         exists mode, fs w' !! versionFile env p = Some (File version mode)))).

Lemma Remove_other (f : gmap string node) (tmp path : string) (n : node) :
  tmp <> path -> f !! path = Some n ->
  fst (of_result f (OS.Remove f tmp)) !! path = Some n.
Proof.
  intros Hne H. unfold OS.Remove, of_result.
  destruct (f !! tmp) as [[d m|t|m]|]; cbn [fst]; try exact H.
  - rewrite lookup_delete_ne by exact Hne. exact H.
  - rewrite lookup_delete_ne by exact Hne. exact H.
  - destruct (OS.has_children f tmp); cbn [fst]; [exact H|].
    rewrite lookup_delete_ne by exact Hne. exact H.
Qed.

Lemma install_download_spec (verbose : bool) (w : World) :
  wp (install_download env p verbose version) w (download_post w).
Proof.
  unfold install_download. fold assetName_of. fold downloadURL_of.
  wp_step.
  assert (Hv : wp (if verbose
                   then note (Stderr ("[verbose] " +:+ Name p +:+ ": version="
                                        +:+ version +:+ " url=" +:+ downloadURL_of))
                   else ret tt) w
                 (fun _ w1 ms1 cs1 =>
                    ms1 = [] /\ fs w1 = fs w /\ Forall download_call cs1)).
  { destruct verbose; wp_run; splits; auto. repeat constructor. }
  eapply wp_mono; [exact Hv|]. clear Hv.
  intros [] w1 ms1 cs1 (-> & Hfs1 & Hcs1). cbn beta.
  do 3 (wp_step; cbn beta iota). wsimpl.
  eapply wp_mono; [apply downloadWithRetry_spec|].
  intros [tmp [e|]] w2 ms2 cs2 (-> & Hcs2 & _ & Hfirst & Hfs2); cbn beta iota.
  - wp_run. exists (cs1 ++ cs2). split; [|split].
    + apply Forall_app. split; [exact Hcs1|].
      eapply Forall_impl; [exact Hcs2|]. apply retry_call_download.
    + destruct Hfirst as (rest & ->); [reflexivity | discriminate |].
      apply in_or_app. right. left. reflexivity.
    + left. exists e. rewrite !app_nil_r. split; reflexivity.
  - destruct Hfs2 as (n & body & Htmp & Hfree & Hfs2). wsimpl.
    wp_step. eapply wp_mono; [apply install_unpack_spec|].
    intros [] w3 ms3 cs3 Hu. cbn beta.
    do 4 (wp_step; cbn beta iota). wsimpl.
    exists (cs1 ++ cs2). split; [|split].
    { apply Forall_app. split; [exact Hcs1|].
      eapply Forall_impl; [exact Hcs2|]. apply retry_call_download. }
    { destruct Hfirst as (rest & ->); [reflexivity | discriminate |].
      apply in_or_app. right. left. reflexivity. }
    right.
    destruct Hu as [(e & -> & Hc)|(m & ok & links & -> & Ht & -> & Hl & Hb & Hm)].
    + left. exists e, (is_nil (of_result (fs w3) (OS.Remove (fs w3) tmp)).2), tmp.
      split; [reflexivity|].
      destruct Hc as [-> | ->]; [left | right];
        rewrite !app_nil_r, <- !app_assoc; reflexivity.
    + right. exists m, ok, links,
        (is_nil (of_result (fs w3) (OS.Remove (fs w3) tmp)).2), tmp, n.
      splits; auto.
      * rewrite !app_nil_r, <- !app_assoc. reflexivity.
      * intros Hok Hno Hne.
        destruct Hm as [mode Hmode]; [exact Hok| |].
        { rewrite Hfs2, Hfs1. intros t E.
          destruct (decide (tmp = versionFile env p)) as [->|Hd];
            [rewrite lookup_insert_eq in E; discriminate|].
          rewrite lookup_insert_ne in E by exact Hd. eapply Hno. exact E. }
        exists mode. apply Remove_other; assumption.
Qed.

End Pipeline.

(** ** internal/installer: [install] *)

Section Install.

Import installer catalog.

Context {um : OS.Umask}.

Variable env : Env.
Variable client : github.Client.
Variable p : Program.
Variable verbose : bool.

(** The calls and messages [install] adds when the release lookup gives
    [v] and the marker is not up to date. *)
Lemma install_stale (w : World) (v : string) :
  resolves env client p v ->
  up_to_date (OS.ReadFile (fs w) (versionFile env p)) v = false ->
  install env client p verbose w
  = install_download env p verbose v (checked env client p w) /\
  exists ms cs,
    chan (snd (install env client p verbose w))
    = chan w ++ progress p StateFetchingVersion "" None :: ms /\
    calls (snd (install env client p verbose w))
    = calls w ++ NetGet (github.releases_url client (Repo p))
              :: FsReadFile (versionFile env p) :: cs /\
    download_post env p v (checked env client p w) tt
      (snd (install env client p verbose w)) ms cs.
Proof.
  intros Hv Hs. rewrite (install_resolved _ _ _ _ _ _ Hv), Hs.
  split; [reflexivity|].
  destruct (install_download_spec env p v verbose (checked env client p w))
    as (ms & cs & Hch & Hca & Hpost).
  exists ms, cs. splits.
  - rewrite Hch. unfold checked. cbn [chan]. rewrite <- app_assoc. reflexivity.
  - rewrite Hca. unfold checked. cbn [calls]. rewrite <- app_assoc. reflexivity.
  - destruct (install_download env p verbose v (checked env client p w)) as [[] w'].
    exact Hpost.
Qed.

Lemma download_post_pipeline (v : string) (w w' : World)
    (ms : list ProgressMsg) (cs : list call) :
  download_post env p v w tt w' ms cs ->
  pipeline (progress p StateFetchingVersion "" None :: ms).
Proof.
  intros (pre & _ & _ & [(e & -> & _) | [(e & okr & tmp & -> & _)
                                    | (m & ok & links & okr & tmp & n & -> & Ht & _)]]).
  - exists (progress p StateFetchingVersion "" None),
      [progress p StateDownloading v None],
      (progress p StateError "" (Some (Wrap "download" e))).
    splits; try reflexivity. repeat constructor.
  - exists (progress p StateFetchingVersion "" None),
      [progress p StateDownloading v None; progress p StateExtracting v None],
      (progress p StateError "" (Some e)).
    splits; try reflexivity. repeat constructor.
  - exists (progress p StateFetchingVersion "" None),
      [progress p StateDownloading v None; progress p StateExtracting v None;
       progress p StateLinking v None], m.
    splits; try reflexivity; [repeat constructor | exact Ht].
Qed.

(** Every run of [install] sends the messages of one pipeline. *)
Lemma install_pipeline (w : World) :
  exists ms,
    chan (snd (install env client p verbose w)) = chan w ++ ms /\ pipeline ms.
Proof.
  destruct (github.LatestVersion
              (url_error env (github.releases_url client (Repo p)))
              (api env (github.releases_url client (Repo p))) (Repo p))
    as [v|e] eqn:E.
  - destruct (up_to_date (OS.ReadFile (fs w) (versionFile env p)) v) eqn:Hu.
    + rewrite (install_resolved _ _ _ _ _ _ E), Hu. cbn [send snd chan checked].
      eexists. rewrite <- app_assoc. split; [reflexivity|].
      exists (progress p StateFetchingVersion "" None), [],
        (progress p StateSkipped v None).
      splits; try reflexivity. constructor.
    + destruct (install_stale w v E Hu) as (_ & ms & cs & Hch & _ & Hpost).
      eexists. split; [exact Hch|].
      eapply download_post_pipeline. exact Hpost.
  - exists [progress p StateFetchingVersion "" None;
            progress p StateError "" (Some e)].
    split.
    + unfold install, bind, client_LatestVersion, send at 1.
      destruct (url_error env (github.releases_url client (Repo p))) as [e0|];
        unfold bind, note, ret; rewrite E; cbn [send snd chan];
        rewrite <- app_assoc; reflexivity.
    + exists (progress p StateFetchingVersion "" None), [],
        (progress p StateError "" (Some e)).
      splits; try reflexivity. constructor.
Qed.

(** No run of [install] sends more than five messages, fewer than the
    eight places per program of the channel: a send never has to wait. *)
Lemma install_at_most_five (w : World) :
  exists ms,
    chan (snd (install env client p verbose w)) = chan w ++ ms /\
    (length ms <= 5)%nat.
Proof.
  destruct (github.LatestVersion
              (url_error env (github.releases_url client (Repo p)))
              (api env (github.releases_url client (Repo p))) (Repo p))
    as [v|e] eqn:E.
  - destruct (up_to_date (OS.ReadFile (fs w) (versionFile env p)) v) eqn:Hu.
    + rewrite (install_resolved _ _ _ _ _ _ E), Hu. cbn [send snd chan checked].
      eexists. rewrite <- app_assoc. split; [reflexivity|]. simpl. lia.
    + destruct (install_stale w v E Hu) as (_ & ms & cs & Hch & _ & Hpost).
      eexists. split; [exact Hch|].
      destruct Hpost as (pre & _ & _ & [(e & -> & _) | [(e & okr & tmp & -> & _)
                                    | (m & ok & links & okr & tmp & n & -> & _)]]);
        simpl; lia.
  - exists [progress p StateFetchingVersion "" None;
            progress p StateError "" (Some e)].
    split; [|simpl; lia].
    unfold install, bind, client_LatestVersion, send at 1.
    destruct (url_error env (github.releases_url client (Repo p))) as [e0|];
      unfold bind, note, ret; rewrite E; cbn [send snd chan];
      rewrite <- app_assoc; reflexivity.
Qed.

(** C8. When the release lookup gives [version] and the marker cannot be
    read (it is missing, for one) or its trimmed contents differ from
    [version], [install] goes on with the download exactly as it does for
    a program without a marker: what it does next is [install_download]
    from the world in which only the lookup and the read have happened,
    whatever the read returned; the message after fetching-version is the
    downloading message, never an error for the failed read. *)
Theorem stale_marker_downloads (w : World) (version : string) :
  resolves env client p version ->
  (exists e, OS.ReadFile (fs w) (versionFile env p) = Err e) \/
  (exists c, OS.ReadFile (fs w) (versionFile env p) = Ok c /\
             GoStrings.TrimSpace c <> version) ->
  install env client p verbose w
  = install_download env p verbose version (checked env client p w) /\
  exists rest,
    chan (snd (install env client p verbose w))
    = chan w ++ progress p StateFetchingVersion "" None
             :: progress p StateDownloading version None :: rest.
Proof.
  intros Hv Hm.
  assert (Hs : up_to_date (OS.ReadFile (fs w) (versionFile env p)) version = false).
  { destruct Hm as [(e & ->) | (c & -> & Hc)]; [reflexivity|].
    unfold up_to_date. apply String.eqb_neq. exact Hc. }
  destruct (install_stale w version Hv Hs) as (Heq & ms & cs & Hch & _ & Hpost).
  split; [exact Heq|].
  destruct Hpost as (pre & _ & _ & [(e & -> & _) | [(e & okr & tmp & -> & _)
                                    | (m & ok & links & okr & tmp & n & -> & _)]]);
    eexists; exact Hch.
Qed.

End Install.

(** ** internal/installer: the download URL and the marker *)

Section Claims.

Import installer catalog.

Context {um : OS.Umask}.

Variable env : Env.
Variable client : github.Client.
Variable p : Program.
Variable verbose : bool.

(** The calls from the extraction on. *)
Definition unpack_call (c : call) : Prop :=
  match c with
  | FsMkdirAll _ _ => True
  | FsExtract _ _ _ => True
  | FsWriteFile _ _ _ => True
  | FsLink _ _ _ _ => True
  | FsRemove _ _ => True
  | _ => False
  end.

Lemma is_link_unpack (c : call) : is_link c -> unpack_call c.
Proof. destruct c; simpl; tauto. Qed.

Lemma download_post_calls (v : string) (w w' : World)
    (ms : list ProgressMsg) (cs : list call) (c : call) :
  download_post env p v w tt w' ms cs -> In c cs ->
  download_call p v c \/ unpack_call c.
Proof.
  intros (pre & Hpre & _ & H) Hin.
  rewrite Forall_forall in Hpre.
  assert (Hp : In c pre -> download_call p v c \/ unpack_call c).
  { intros Hc. left. apply Hpre. apply list_elem_of_In. exact Hc. }
  destruct H as [(e & _ & ->) | [(e & okr & tmp & _ & [-> | ->])
                                | (m & ok & links & okr & tmp & n & _ & _ & _ & -> & Hl & _)]].
  - auto.
  - apply in_app_or in Hin as [Hin | Hin]; [auto|].
    right. simpl in Hin. destruct Hin as [<- | [<- | []]]; exact I.
  - apply in_app_or in Hin as [Hin | Hin]; [auto|].
    right. simpl in Hin. destruct Hin as [<- | [<- | [<- | []]]]; exact I.
  - apply in_app_or in Hin as [Hin | Hin]; [auto|].
    apply in_app_or in Hin as [Hin | Hin];
      [right; simpl in Hin; destruct Hin as [<- | [<- | [<- | []]]]; exact I|].
    apply in_app_or in Hin as [Hin | Hin].
    + right. apply is_link_unpack. rewrite Forall_forall in Hl.
      apply Hl. apply list_elem_of_In. exact Hin.
    + right. simpl in Hin. destruct Hin as [<- | []]. exact I.
Qed.

(** C10. Whenever [install] has resolved [version], every download it
    attempts and every GET it makes besides the release lookup goes to
    exactly https://github.com/{repo}/releases/download/v{version}/{asset}
    with {asset} the asset pattern after [ReplaceAll] of the placeholder
    by [version]; the download is attempted with that URL as soon as the
    marker is not up to date. The v in the tag component is a literal: for
    a release whose raw tag carries no v prefix the resolved version is the
    tag itself, and the URL still asks for v followed by the tag. *)
Theorem download_url_hard_v (w : World) (version : string) (cs : list call) :
  resolves env client p version ->
  calls (snd (install env client p verbose w)) = calls w ++ cs ->
  let asset := GoStrings.ReplaceAll (AssetPattern p) "{version}" version in
  let url := "https://github.com/" +:+ Repo p +:+ "/releases/download/v"
               +:+ version +:+ "/" +:+ asset in
  (forall u, In (Download u) cs -> u = url) /\
  (forall u, In (NetGet u) cs ->
             u = github.releases_url client (Repo p) \/ u = url) /\
  (up_to_date (OS.ReadFile (fs w) (versionFile env p)) version = false ->
   In (Download url) cs) /\
  (forall tag,
     api env (github.releases_url client (Repo p)) = github.ApiResp 200 (Ok tag) ->
     GoStrings.HasPrefix tag "v" = false ->
     version = tag /\
     url = "https://github.com/" +:+ Repo p +:+ "/releases/download/v"
             +:+ tag +:+ "/" +:+ asset).
Proof.
  intros Hv Hcs asset url.
  assert (Htag : forall tag,
             api env (github.releases_url client (Repo p)) = github.ApiResp 200 (Ok tag) ->
             GoStrings.HasPrefix tag "v" = false -> version = tag).
  { intros tag Ha Hp. pose proof (resolves_url_ok _ _ _ _ Hv) as U.
    unfold resolves in Hv. rewrite U, Ha in Hv.
    unfold github.LatestVersion in Hv. cbn [Z.eqb Pos.eqb] in Hv.
    unfold GoStrings.TrimPrefix in Hv. rewrite Hp in Hv.
    destruct (String.eqb tag ""); congruence. }
  destruct (up_to_date (OS.ReadFile (fs w) (versionFile env p)) version) eqn:Hu.
  - rewrite (install_resolved _ _ _ _ _ _ Hv), Hu in Hcs.
    cbn [send snd calls checked] in Hcs. apply app_inv_head in Hcs. subst cs.
    splits.
    + intros u [H | [H | []]]; discriminate.
    + intros u [H | [H | []]]; inversion H. left. reflexivity.
    + discriminate.
    + intros tag Ha Hp. rewrite <- (Htag tag Ha Hp). split; reflexivity.
  - destruct (install_stale env client p verbose w version Hv Hu)
      as (_ & ms & cs' & _ & Hca & Hpost).
    rewrite Hca in Hcs. apply app_inv_head in Hcs. subst cs.
    splits.
    + intros u [H | [H | H]]; try discriminate.
      destruct (download_post_calls _ _ _ _ _ _ Hpost H) as [Hd | Hd];
        [exact Hd | destruct Hd].
    + intros u [H | [H | H]]; try discriminate.
      * inversion H. left. reflexivity.
      * right. destruct (download_post_calls _ _ _ _ _ _ Hpost H) as [Hd | Hd];
          [exact Hd | destruct Hd].
    + intros _. right. right.
      destruct Hpost as (pre & _ & Hin & H).
      destruct H as [(e & _ & ->) | [(e & okr & tmp & _ & [-> | ->])
                                    | (m & ok & links & okr & tmp & n & _ & _ & _ & -> & _)]];
        try exact Hin; apply in_or_app; left; exact Hin.
    + intros tag Ha Hp. rewrite <- (Htag tag Ha Hp). split; reflexivity.
Qed.

(** Every call of [cs] that writes a file or links comes after one
    successful extraction that is followed at once by the write of the
    marker, and all links come after that write. *)
Definition marker_before_links (v : string) (cs : list call) : Prop :=
  exists pre tmp ok links okr,
    cs = pre ++ [FsExtract tmp (installDir env p) true;
                 FsWriteFile (versionFile env p) v ok]
             ++ links ++ [FsRemove tmp okr] /\
    Forall (fun c => match c with
                     | FsExtract _ _ _ | FsWriteFile _ _ _ | FsLink _ _ _ _ => False
                     | _ => True
                     end) pre /\
    Forall is_link links.

End Claims.

(** ** The retry policy *)

Section RetryPolicy.

Import installer catalog.

Context {um : OS.Umask}.

Variable env : Env.

Lemma install_download_eq (p : Program) (verbose : bool) (version : string)
    (w : World) :
  let at_download :=
    snd (((if verbose
           then note (Stderr ("[verbose] " +:+ Name p +:+ ": version=" +:+ version
                                +:+ " url=" +:+ downloadURL_of p version))
           else ret tt) ;;;
          send (progress p StateDownloading version None)) w) in
  let d := downloadWithRetry env (downloadURL_of p version) (assetName_of p version)
             at_download in
  install_download env p verbose version w =
  match fst d with
  | (_, Some err) =>
      send (progress p StateError "" (Some (Wrap "download" err))) (snd d)
  | (tmpFile, None) =>
      (tt, snd (os_Remove tmpFile
                  (snd (install_unpack env p version tmpFile (snd d)))))
  end.
Proof.
  cbv zeta. unfold install_download. fold (assetName_of p version).
  fold (downloadURL_of p version). unfold bind.
  destruct verbose; cbn [note ret send fst snd];
    match goal with
    | |- context [downloadWithRetry ?e ?u ?a ?x] =>
        destruct (downloadWithRetry e u a x) as [[tmp [err|]] w2]
    end; cbn [fst snd]; try reflexivity;
    destruct (install_unpack env p version tmp w2) as [[] w3]; cbn [snd];
    destruct (os_Remove tmp w3) as [o w4]; reflexivity.
Qed.

Lemma os_Remove_chan (path : string) (w : World) :
  chan (snd (os_Remove path w)) = chan w.
Proof. unfold os_Remove. rewrite fs_call_eq. reflexivity. Qed.

Lemma install_unpack_first (p : Program) (version tmpFile : string) (w : World) :
  exists rest,
    chan (snd (install_unpack env p version tmpFile w))
    = chan w ++ progress p StateExtracting version None :: rest.
Proof.
  destruct (install_unpack_spec env p version tmpFile w) as (ms & cs & Hch & _ & H).
  destruct H as [(e & -> & _) | (m & ok & links & -> & _)]; eexists; exact Hch.
Qed.

(** C2, as the code has it. [downloadWithRetry] sends nothing and goes
    through a prefix of: attempt, wait 1 s, attempt, wait 2 s, attempt. So
    there are at most three attempts, a wait only before the second and
    the third, of 1 and of 2 seconds, and no wait of 4 seconds. When the
    first two attempts fail and both waits run to their end, the result is
    that of the third attempt: its file and a nil error, after which
    [install] announces the extraction, or its error, which [install]
    reports as the download error. *)
Theorem retry_schedule (url assetName : string) (w : World) :
  (exists cs,
     calls (snd (downloadWithRetry env url assetName w)) = calls w ++ cs /\
     chan (snd (downloadWithRetry env url assetName w)) = chan w /\
     retry_events cs `prefix_of` [Try; Wait Second; Try; Wait (2 * Second); Try] /\
     (length (List.filter (fun e => match e with Try => true | _ => false end)
                          (retry_events cs)) <= 3)%nat /\
     ~ In (Wait (4 * Second)) (retry_events cs)) /\
  (is_nil (snd (fst (attempt1 env url assetName w))) = false ->
   fst (pause1 env url assetName w) = None ->
   is_nil (snd (fst (attempt2 env url assetName w))) = false ->
   fst (pause2 env url assetName w) = None ->
   (snd (fst (attempt3 env url assetName w)) = None ->
    downloadWithRetry env url assetName w
    = ((fst (fst (attempt3 env url assetName w)), None),
       snd (attempt3 env url assetName w))) /\
   (forall e3, snd (fst (attempt3 env url assetName w)) = Some e3 ->
    downloadWithRetry env url assetName w
    = (("", Some e3), snd (attempt3 env url assetName w)))) /\
  (forall (p : Program) (verbose : bool) (version : string) (w0 : World),
     let at_download :=
       snd (((if verbose
              then note (Stderr ("[verbose] " +:+ Name p +:+ ": version=" +:+ version
                                   +:+ " url=" +:+ downloadURL_of p version))
              else ret tt) ;;;
             send (progress p StateDownloading version None)) w0) in
     let d := downloadWithRetry env (downloadURL_of p version)
                (assetName_of p version) at_download in
     (forall tmp, fst d = (tmp, None) ->
        exists rest,
          chan (snd (install_download env p verbose version w0))
          = chan w0 ++ progress p StateDownloading version None
                    :: progress p StateExtracting version None :: rest) /\
     (forall tmp e, fst d = (tmp, Some e) ->
        chan (snd (install_download env p verbose version w0))
        = chan w0 ++ [progress p StateDownloading version None;
                      progress p StateError "" (Some (Wrap "download" e))])).
Proof.
  splits.
  - destruct (downloadWithRetry_spec env url assetName w)
      as (ms & cs & Hch & Hca & -> & _ & Hev & _).
    exists cs. rewrite app_nil_r in Hch.
    assert (Hs : schedule 3 0 = [Try; Wait Second; Try; Wait (2 * Second); Try])
      by reflexivity.
    rewrite Hs in Hev. splits; auto.
    + destruct Hev as [k Hk].
      apply (f_equal (fun l => length (List.filter
               (fun e => match e with Try => true | _ => false end) l))) in Hk.
      rewrite List.filter_app, length_app in Hk. cbn in Hk. lia.
    + intros Hin. destruct Hev as [k Hk].
      assert (Hin' : In (Wait (4 * Second))
                       [Try; Wait Second; Try; Wait (2 * Second); Try])
        by (rewrite Hk; apply in_or_app; left; exact Hin).
      simpl in Hin'.
      destruct Hin' as [H | [H | [H | [H | [H | []]]]]]; discriminate.
  - intros H1 Hp1 H2 Hp2. rewrite downloadWithRetry_eq.
    destruct (snd (fst (attempt1 env url assetName w))); [|discriminate].
    rewrite Hp1.
    destruct (snd (fst (attempt2 env url assetName w))); [|discriminate].
    rewrite Hp2.
    split; [intros H3 | intros e3 H3]; rewrite H3; reflexivity.
  - intros p verbose version w0 at_download d.
    pose proof (install_download_eq p verbose version w0) as Heq.
    cbv zeta in Heq. fold at_download in Heq. fold d in Heq.
    destruct (downloadWithRetry_spec env (downloadURL_of p version)
                (assetName_of p version) at_download)
      as (ms & cs & Hch & _ & -> & _).
    fold d in Hch. rewrite app_nil_r in Hch.
    assert (Hat : chan at_download
                  = chan w0 ++ [progress p StateDownloading version None]).
    { subst at_download. destruct verbose; reflexivity. }
    split.
    + intros tmp Hd. rewrite Heq, Hd. cbn [snd]. rewrite os_Remove_chan.
      destruct (install_unpack_first p version tmp (snd d)) as (rest & ->).
      rewrite Hch, Hat. exists rest. rewrite <- app_assoc. reflexivity.
    + intros tmp e Hd. rewrite Heq, Hd. cbn [send snd chan].
      rewrite Hch, Hat. rewrite <- app_assoc. reflexivity.
Qed.

End RetryPolicy.

(** ** internal/installer: [Run] *)

Section Pool.

Import installer catalog.

Context {um : OS.Umask}.

Lemma pipeline_not_active (w : Worker) :
  pipeline (w_sent w) -> active w = false.
Proof.
  intros (first & mid & last & E & _ & _ & Ht). unfold active. rewrite E.
  apply andb_false_iff. right. apply negb_false_iff.
  apply existsb_exists. exists last. split; [|exact Ht].
  right. apply in_or_app. right. left. reflexivity.
Qed.

Lemma filter_inactive (ws : list Worker) :
  Forall (fun w => active w = false) ws -> List.filter active ws = [].
Proof.
  induction 1 as [|w ws Hw _ IH]; [reflexivity|].
  simpl. rewrite Hw. exact IH.
Qed.

(** What holds in every state [Run] can be in. *)
Definition pool_inv (s : Pool) : Prop :=
  (length (sem s) <= workerCount)%nat /\
  Forall (fun w => pipeline (w_sent w ++ w_pending w)) (sem s) /\
  Forall (fun w => active w = false) (returned s) /\
  Forall (fun m => exists w, In w (sem s ++ returned s) /\ In m (w_sent w)) (ch s).

Lemma pool_inv_start (programs : list Program) : pool_inv (start programs).
Proof.
  unfold pool_inv, start. cbn [sem returned ch length].
  splits; try constructor. unfold workerCount. lia.
Qed.

Lemma pool_inv_step (s s' : Pool) : pool_inv s -> step s s' -> pool_inv s'.
Proof.
  intros (Hlen & Hpipe & Hret & Hch) Hstep.
  destruct Hstep as [s q rest ms Htodo Hfree Hms
                    | s before after q sent rest m Hsem
                    | s before after w Hsem Hpend
                    | s Htodo Hsem Hclosed];
    unfold pool_inv; cbn [sem returned ch todo closed].
  - splits.
    + rewrite length_app. cbn [length]. lia.
    + apply Forall_app. split; [exact Hpipe|]. constructor; [exact Hms | constructor].
    + exact Hret.
    + eapply Forall_impl; [exact Hch|]. intros m (w & Hw & Hm).
      exists w. split; [|exact Hm].
      apply in_app_or in Hw as [Hw | Hw]; apply in_or_app; [left | right; exact Hw].
      apply in_or_app. left. exact Hw.
  - rewrite Hsem in *. splits.
    + rewrite length_app in *. cbn [length] in *. exact Hlen.
    + apply Forall_app in Hpipe as [Hb Ha]. apply Forall_app. split; [exact Hb|].
      apply Forall_cons in Ha as [Hw Ha]. constructor; [|exact Ha].
      cbn [w_sent w_pending] in *. rewrite <- app_assoc. exact Hw.
    + exact Hret.
    + apply Forall_app. split.
      * eapply Forall_impl; [exact Hch|]. intros m0 (w & Hw & Hm).
        rewrite <- app_assoc in Hw.
        apply in_app_or in Hw as [Hw | Hw].
        { exists w. split; [|exact Hm]. apply in_or_app. left.
          apply in_or_app. left. exact Hw. }
        destruct Hw as [<- | Hw].
        { eexists. split.
          - apply in_or_app. left. apply in_or_app. right. left. reflexivity.
          - cbn [w_sent] in *. apply in_or_app. left. exact Hm. }
        exists w. split; [|exact Hm]. rewrite <- app_assoc.
        apply in_or_app. right. right. exact Hw.
      * constructor; [|constructor]. eexists. split.
        -- apply in_or_app. left. apply in_or_app. right. left. reflexivity.
        -- cbn [w_sent]. apply in_or_app. right. left. reflexivity.
  - rewrite Hsem in *. splits.
    + rewrite length_app in *. cbn [length] in *. lia.
    + apply Forall_app in Hpipe as [Hb Ha]. apply Forall_cons in Ha as [_ Ha].
      apply Forall_app. split; assumption.
    + constructor; [|exact Hret].
      apply Forall_app in Hpipe as [_ Ha]. apply Forall_cons in Ha as [Hw _].
      rewrite Hpend, app_nil_r in Hw. apply pipeline_not_active. exact Hw.
    + eapply Forall_impl; [exact Hch|]. intros m (w0 & Hw & Hm).
      exists w0. split; [|exact Hm].
      rewrite <- !app_assoc in Hw.
      apply in_app_or in Hw as [Hw | Hw].
      { apply in_or_app. left. apply in_or_app. left. exact Hw. }
      destruct Hw as [<- | Hw].
      { apply in_or_app. right. left. reflexivity. }
      apply in_app_or in Hw as [Hw | Hw].
      { apply in_or_app. left. apply in_or_app. right. exact Hw. }
      apply in_or_app. right. right. exact Hw.
  - rewrite Hsem in *. splits; auto.
Qed.

Lemma reachable_inv (programs : list Program) (s : Pool) :
  reachable programs s -> pool_inv s.
Proof.
  induction 1 as [|s s' _ IH Hstep]; [apply pool_inv_start|].
  eapply pool_inv_step; eassumption.
Qed.

(** C4. In every state [Run] can reach, at most [workerCount] = 3
    pipelines are between their fetching-version and their terminal
    message; each of them holds a place of the semaphore, of which at most
    3 are taken; every message on the channel was sent by a goroutine that
    had been given a place; and a program leaves the waiting list only in
    a state where a place is free. The messages a goroutine sends are
    those of a pipeline, as every run of [install] sends them. *)
Theorem pool_bound (programs : list Program) (s : Pool) :
  reachable programs s ->
  (active_count s <= 3)%nat /\
  (length (sem s) <= 3)%nat /\
  (forall w, In w (sem s ++ returned s) -> active w = true -> In w (sem s)) /\
  Forall (fun m => exists w, In w (sem s ++ returned s) /\ In m (w_sent w)) (ch s) /\
  (forall s', step s s' -> todo s' <> todo s -> (length (sem s) < 3)%nat) /\
  (forall env client p verbose w,
     exists ms, chan (snd (install env client p verbose w)) = chan w ++ ms /\
                pipeline ms).
Proof.
  intros Hr. destruct (reachable_inv _ _ Hr) as (Hlen & Hpipe & Hret & Hch).
  splits.
  - unfold active_count. rewrite List.filter_app, length_app.
    rewrite (filter_inactive _ Hret). cbn [length].
    pose proof (List.filter_length_le active (sem s)). unfold workerCount in Hlen. lia.
  - exact Hlen.
  - intros w Hw Ha. apply in_app_or in Hw as [Hw | Hw]; [exact Hw|].
    rewrite Forall_forall in Hret.
    rewrite (Hret w (proj2 (list_elem_of_In _ _) Hw)) in Ha. discriminate.
  - exact Hch.
  - intros s' Hstep Hne.
    destruct Hstep as [s q rest ms Htodo Hfree Hms
                      | s before after q sent rest m Hsem
                      | s before after w Hsem Hpend
                      | s Htodo Hsem Hclosed];
      cbn [todo] in Hne; try (exfalso; apply Hne; reflexivity).
    + exact Hfree.
    + exfalso. apply Hne. symmetry. exact Htodo.
  - intros env client p verbose w. apply install_pipeline.
Qed.

End Pool.

(** * Further properties *)

(** ** internal/linker: every case of [Link] *)

(** [os.Symlink] as [Link] calls it, with the error wrapped. *)
Definition create_link (f : gmap string node) (src target : string)
    : gmap string node * option error :=
  match OS.Symlink_ f src target with
  | Err e => (f, Some (Wrap ("create symlink " +:+ target +:+ " -> " +:+ src) e))
  | Ok f2 => (f2, None)
  end.

Lemma Link_free (fs : gmap string node) (src binDir dst : string) :
  fs !! GoPath.Join [binDir; dst] = None ->
  linker.Link fs src binDir dst = create_link fs src (GoPath.Join [binDir; dst]).
Proof.
  intros H. unfold linker.Link, OS.Lstat, create_link. rewrite H. reflexivity.
Qed.

Lemma Link_over_link (fs : gmap string node) (src binDir dst old : string) :
  fs !! GoPath.Join [binDir; dst] = Some (Symlink old) ->
  linker.Link fs src binDir dst
  = create_link (delete (GoPath.Join [binDir; dst]) fs) src (GoPath.Join [binDir; dst]).
Proof.
  intros H. unfold linker.Link, OS.Lstat, create_link. rewrite H. simpl.
  unfold OS.Remove. rewrite H. reflexivity.
Qed.

Lemma Link_refused (fs : gmap string node) (src binDir dst : string) (n : node) :
  fs !! GoPath.Join [binDir; dst] = Some n -> linker.is_symlink n = false ->
  linker.Link fs src binDir dst = (fs, Some (ErrRegularFile (GoPath.Join [binDir; dst]))).
Proof.
  intros H Hn. unfold linker.Link, OS.Lstat. rewrite H, Hn. reflexivity.
Qed.

(** The link is made exactly when the source is a name and the
    destination lies in a directory. *)
Lemma create_link_cases (f : gmap string node) (src target : string) :
  f !! target = None ->
  (snd (create_link f src target) = None <->
   src <> "" /\ OS.creatable f target = true) /\
  (snd (create_link f src target) = None ->
   fst (create_link f src target) = <[target := Symlink src]> f) /\
  (snd (create_link f src target) <> None -> fst (create_link f src target) = f).
Proof.
  intros Hf. unfold create_link, OS.Symlink_. rewrite Hf.
  destruct (String.eqb src "") eqn:Es; simpl.
  - apply String.eqb_eq in Es. split; [|split]; [split | | ]; try discriminate; auto.
    intros [Hs _]. contradiction.
  - apply String.eqb_neq in Es. destruct (OS.creatable f target); simpl.
    + split; [|split]; [split | | ]; auto. congruence.
    + split; [|split]; [split | | ]; try discriminate; auto.
      intros [_ Hc]. discriminate.
Qed.


(** X2. Linking the same destination again: the second call alone decides
    the outcome. The file system and the error after [Link src1] followed
    by [Link src2] are those of [Link src2] alone; with [src1 = src2],
    repeating a call changes nothing. *)
Theorem Link_again (fs : gmap string node) (src1 src2 binDir dst : string) :
  linker.Link (fst (linker.Link fs src1 binDir dst)) src2 binDir dst
  = linker.Link fs src2 binDir dst.
Proof.
  set (target := GoPath.Join [binDir; dst]).
  assert (Hnew : forall f : gmap string node,
             f !! target = None ->
             linker.Link (fst (create_link f src1 target)) src2 binDir dst
             = create_link f src2 target).
  { intros f Hf.
    destruct (create_link_cases f src1 target Hf) as (_ & H2 & H3).
    destruct (snd (create_link f src1 target)) as [e|] eqn:Es.
    - rewrite H3 by discriminate. apply Link_free. exact Hf.
    - rewrite (H2 eq_refl).
      rewrite (Link_over_link _ _ _ _ src1) by apply lookup_insert_eq.
      fold target. rewrite delete_insert_id by exact Hf. reflexivity. }
  destruct (fs !! target) as [n|] eqn:E.
  - destruct (linker.is_symlink n) eqn:Hn.
    + destruct n as [| old |]; try discriminate.
      rewrite !(Link_over_link _ _ _ _ _ E). fold target.
      apply Hnew. apply lookup_delete_eq.
    + rewrite (Link_refused _ src1 _ _ _ E Hn). reflexivity.
  - rewrite !(Link_free _ _ _ _ E). fold target. apply Hnew. exact E.
Qed.

(** ** internal/github: [LatestRelease] and [LatestVersion] *)

Lemma TrimPrefix_v (tag : string) :
  tag = "v" +:+ GoStrings.TrimPrefix tag "v" \/
  (GoStrings.TrimPrefix tag "v" = tag /\ GoStrings.HasPrefix tag "v" = false).
Proof.
  unfold GoStrings.TrimPrefix, GoStrings.HasPrefix.
  destruct tag as [|c t]; [right; split; reflexivity|].
  change (String.prefix "v" (String c t))
    with (if ascii_dec "v"%char c then String.prefix "" t else false).
  destruct (ascii_dec "v"%char c) as [<-|Hc].
  - left. destruct t; reflexivity.
  - right. split; reflexivity.
Qed.

(** X3. [LatestRelease] and the older [LatestVersion] decide alike: they
    fail with the same error, and the version of the one is the result of
    the other. A release is returned only for a 200 reply whose decoded
    tag is the returned [Tag]; the [Version] is never empty, and the tag is
    the version itself or the version with one [v] before it. *)
Theorem LatestRelease_version (build_err : option error) (reply : github.api_reply)
    (repo : string) :
  github.LatestVersion build_err reply repo
  = match github.LatestRelease build_err reply repo with
    | Ok r => Ok (github.Version r)
    | Err e => Err e
    end /\
  forall r, github.LatestRelease build_err reply repo = Ok r ->
    build_err = None /\
    reply = github.ApiResp 200 (Ok (github.Tag r)) /\
    github.Version r <> "" /\
    (github.Tag r = "v" +:+ github.Version r \/
     github.Tag r = github.Version r /\
     GoStrings.HasPrefix (github.Tag r) "v" = false).
Proof.
  unfold github.LatestVersion, github.LatestRelease. split.
  - destruct build_err; [reflexivity|].
    destruct reply as [e | status [tag | e]]; try reflexivity;
      destruct (status =? 200)%Z; try reflexivity;
      try (destruct (status =? 404)%Z; [reflexivity|];
           destruct ((status =? 403)%Z || (status =? 429)%Z); reflexivity).
    destruct (String.eqb (GoStrings.TrimPrefix tag "v") ""); reflexivity.
  - intros r. destruct build_err; [discriminate|].
    destruct reply as [e | status [tag | e]]; try discriminate;
      destruct (status =? 200)%Z eqn:Hs;
      try (destruct (status =? 404)%Z; [discriminate|];
           destruct ((status =? 403)%Z || (status =? 429)%Z); discriminate);
      try discriminate.
    destruct (String.eqb (GoStrings.TrimPrefix tag "v") "") eqn:Hv; [discriminate|].
    intros H; inversion H; subst; clear H. simpl.
    apply Z.eqb_eq in Hs. subst status.
    split; [reflexivity|]. split; [reflexivity|].
    split; [apply String.eqb_neq; exact Hv|].
    destruct (TrimPrefix_v tag) as [H | [H1 H2]]; [left; exact H|].
    right. split; [symmetry; exact H1 | exact H2].
Qed.

(** ** What an extraction can do to the file system *)

Section Grows.

Context {um : OS.Umask}.

(** From [fs] to [fs']: a regular file is still a regular file of the same
    mode (its bytes may differ), a directory and a symbolic link are as
    they were, and a name that was free holds no symbolic link. *)
Definition grows (fs fs' : gmap string node) : Prop :=
  forall p,
    match fs !! p with
    | Some (File _ m) => exists d, fs' !! p = Some (File d m)
    | Some n => fs' !! p = Some n
    | None => forall t, fs' !! p <> Some (Symlink t)
    end.

Lemma grows_refl (fs : gmap string node) : grows fs fs.
Proof.
  intros p. destruct (fs !! p) as [[d m|t|m]|] eqn:E; eauto; discriminate.
Qed.

Lemma grows_trans (fs1 fs2 fs3 : gmap string node) :
  grows fs1 fs2 -> grows fs2 fs3 -> grows fs1 fs3.
Proof.
  intros H12 H23 p. specialize (H12 p). specialize (H23 p).
  destruct (fs1 !! p) as [[d m|t|m]|].
  - destruct H12 as [d2 H12]. rewrite H12 in H23. exact H23.
  - rewrite H12 in H23. exact H23.
  - rewrite H12 in H23. exact H23.
  - destruct (fs2 !! p) as [[d m|t|m]|].
    + destruct H23 as [d3 H23]. intros t. congruence.
    + exfalso. eapply H12. reflexivity.
    + intros t. congruence.
    + exact H23.
Qed.

Lemma grows_insert_file (fs : gmap string node) (q d : string) (m : N) :
  (fs !! q = None \/ exists d0, fs !! q = Some (File d0 m)) ->
  grows fs (<[q := File d m]> fs).
Proof.
  intros Hq p. destruct (decide (q = p)) as [->|Hne].
  - rewrite lookup_insert_eq. destruct Hq as [-> | [d0 ->]]; [discriminate | eauto].
  - rewrite lookup_insert_ne by exact Hne.
    destruct (fs !! p) as [[d1 m1|t|m1]|]; eauto; discriminate.
Qed.

Lemma grows_insert_dir (fs : gmap string node) (q : string) (m : N) :
  fs !! q = None -> grows fs (<[q := Directory m]> fs).
Proof.
  intros Hq p. destruct (decide (q = p)) as [->|Hne].
  - rewrite lookup_insert_eq, Hq. discriminate.
  - rewrite lookup_insert_ne by exact Hne.
    destruct (fs !! p) as [[d1 m1|t|m1]|]; eauto; discriminate.
Qed.

Lemma OpenFile_trunc_grows (fs fs1 : gmap string node) (p q : string) (perm : N) :
  OS.OpenFile_trunc fs p perm = Ok (q, fs1) -> grows fs fs1.
Proof.
  unfold OS.OpenFile_trunc. destruct (OS.resolve fs p) as [r|e]; [|discriminate].
  destruct (fs !! r) as [[d m| |]|] eqn:E; try destruct (OS.creatable fs r);
    intros H; inversion H; subst; apply grows_insert_file; eauto.
Qed.

Lemma write_grows (fs : gmap string node) (q d : string) :
  grows fs (OS.write fs q d).
Proof.
  unfold OS.write. destruct (fs !! q) as [[d0 m| |]|] eqn:E;
    try apply grows_refl.
  apply grows_insert_file. eauto.
Qed.

Lemma WriteFile_grows (fs fs1 : gmap string node) (p d : string) (perm : N) :
  OS.WriteFile fs p d perm = Ok fs1 -> grows fs fs1.
Proof.
  unfold OS.WriteFile.
  destruct (OS.OpenFile_trunc fs p perm) as [[q fs0]|e] eqn:E; [|discriminate].
  intros H; inversion H; subst.
  eapply grows_trans; [eapply OpenFile_trunc_grows; exact E | apply write_grows].
Qed.

Lemma mkdirs_grows (ps : list string) (fs fs1 : gmap string node) (perm : N) :
  OS.mkdirs fs ps perm = Ok fs1 -> grows fs fs1.
Proof.
  revert fs. induction ps as [|p rest IH]; intros fs; simpl.
  - intros H; inversion H; subst. apply grows_refl.
  - destruct (OS.Stat fs p) as [[d m| |m]|e]; try discriminate.
    + apply IH.
    + unfold OS.Mkdir. destruct (fs !! p) eqn:E; [discriminate|].
      destruct (OS.creatable fs p); [|discriminate].
      intros H. eapply grows_trans; [|apply IH; exact H].
      apply grows_insert_dir. exact E.
Qed.

Lemma MkdirAll_ok_grows (fs fs1 : gmap string node) (p : string) (perm : N) :
  OS.MkdirAll fs p perm = Ok fs1 -> grows fs fs1.
Proof.
  unfold OS.MkdirAll. destruct (String.eqb p ""); [discriminate|].
  apply mkdirs_grows.
Qed.

Lemma MkdirAll_grows (fs : gmap string node) (p : string) :
  grows fs (extractor.MkdirAll_ fs p).
Proof.
  unfold extractor.MkdirAll_.
  destruct (OS.MkdirAll fs p OS.perm_0755) as [fs1|e] eqn:E.
  - eapply MkdirAll_ok_grows. exact E.
  - apply grows_refl.
Qed.

Lemma write_member_grows (fs : gmap string node) (target : string) (perm : N)
    (data : string) (copy_err : option error) :
  grows fs (fst (extractor.write_member fs target perm data copy_err)).
Proof.
  unfold extractor.write_member.
  destruct (OS.OpenFile_trunc fs target perm) as [[q fs1]|e] eqn:E; simpl.
  - eapply grows_trans; [eapply OpenFile_trunc_grows; exact E | apply write_grows].
  - apply grows_refl.
Qed.

Lemma tar_loop_grows (es : list extractor.TarEntry) (fs : gmap string node)
    (dstDir : string) (final : option error) :
  grows fs (fst (extractor.tar_loop fs dstDir es final)).
Proof.
  revert fs. induction es as [|hdr rest IH]; intros fs; simpl.
  - destruct final; apply grows_refl.
  - destruct (extractor.tar_Typeflag hdr).
    + pose proof (write_member_grows
                    (extractor.MkdirAll_ fs
                       (GoPath.Dir (extractor.sanitize dstDir (extractor.tar_Name hdr))))
                    (extractor.sanitize dstDir (extractor.tar_Name hdr))
                    (extractor.tar_Mode hdr) (extractor.tar_data hdr)
                    (extractor.tar_copy_err hdr)) as Hw.
      destruct (extractor.write_member _ _ _ _ _) as [fs2 [e|]]; simpl in *.
      * eapply grows_trans; [apply MkdirAll_grows | exact Hw].
      * eapply grows_trans; [|apply IH].
        eapply grows_trans; [apply MkdirAll_grows | exact Hw].
    + eapply grows_trans; [apply MkdirAll_grows | apply IH].
    + apply IH.
Qed.

Lemma zip_loop_grows (files : list extractor.ZipFile) (fs : gmap string node)
    (dstDir : string) :
  grows fs (fst (extractor.zip_loop fs dstDir files)).
Proof.
  revert fs. induction files as [|f rest IH]; intros fs; simpl.
  - apply grows_refl.
  - destruct (extractor.zip_IsDir f).
    + eapply grows_trans; [apply MkdirAll_grows | apply IH].
    + destruct (extractor.zip_open_err f) as [e|]; simpl.
      * apply MkdirAll_grows.
      * pose proof (write_member_grows
                      (extractor.MkdirAll_ fs
                         (GoPath.Dir (extractor.sanitize dstDir (extractor.zip_Name f))))
                      (extractor.sanitize dstDir (extractor.zip_Name f))
                      (extractor.zip_Mode f) (extractor.zip_data f)
                      (extractor.zip_copy_err f)) as Hw.
        destruct (extractor.write_member _ _ _ _ _) as [fs2 [e|]]; simpl in *.
        -- eapply grows_trans; [apply MkdirAll_grows | exact Hw].
        -- eapply grows_trans; [|apply IH].
           eapply grows_trans; [apply MkdirAll_grows | exact Hw].
Qed.

Lemma Extract_grows (cd : extractor.Codec) (fs : gmap string node)
    (srcPath dstDir : string) :
  grows fs (fst (extractor.Extract cd fs srcPath dstDir)).
Proof.
  unfold extractor.Extract.
  destruct (extractor.dispatch (GoPath.Base srcPath)) as [c| |].
  - unfold extractor.extractTar.
    destruct (OS.Open fs srcPath) as [q|e]; [|apply grows_refl].
    destruct (OS.read_all fs q) as [data|e], c; simpl;
      try apply grows_refl;
      try (destruct (extractor.gzip_NewReader cd data); simpl;
           [apply grows_refl | apply tar_loop_grows]);
      try (destruct (extractor.xz_NewReader cd data); simpl;
           [apply grows_refl | apply tar_loop_grows]).
    apply tar_loop_grows.
  - unfold extractor.extractZip.
    destruct (OS.ReadFile fs srcPath) as [data|e]; [|apply grows_refl].
    destruct (extractor.zip_OpenReader cd data) as [files|e];
      [apply zip_loop_grows | apply grows_refl].
  - unfold extractor.copyBinary.
    destruct (OS.Open fs srcPath) as [inq|e]; [|apply grows_refl].
    destruct (OS.OpenFile_trunc fs _ OS.perm_0755) as [[outq fs1]|e] eqn:E;
      [|apply grows_refl].
    destruct (OS.read_all fs1 inq) as [data|e]; simpl.
    + eapply grows_trans; [eapply OpenFile_trunc_grows; exact E | apply write_grows].
    + eapply OpenFile_trunc_grows; exact E.
Qed.

End Grows.

(** X4. [Extract] never removes or replaces an entry, whatever the archive
    holds and whether or not it fails: afterwards a regular file is still
    a regular file of the same mode (only its bytes may have changed), a
    directory and a symbolic link are exactly as before, and what is new
    is a regular file or a directory, never a symbolic link: members of
    an archive that are links, devices or pipes are passed over. *)
Theorem Extract_only_adds {um : OS.Umask} (cd : extractor.Codec)
    (fs : gmap string node) (srcPath dstDir : string) :
  let fs' := fst (extractor.Extract cd fs srcPath dstDir) in
  (forall p d m, fs !! p = Some (File d m) -> exists d', fs' !! p = Some (File d' m)) /\
  (forall p m, fs !! p = Some (Directory m) -> fs' !! p = Some (Directory m)) /\
  (forall p t, fs !! p = Some (Symlink t) -> fs' !! p = Some (Symlink t)) /\
  (forall p t, fs' !! p = Some (Symlink t) -> fs !! p = Some (Symlink t)) /\
  (forall p, fs !! p = None ->
     fs' !! p = None \/ (exists d m, fs' !! p = Some (File d m)) \/
     exists m, fs' !! p = Some (Directory m)).
Proof.
  intros fs'. pose proof (Extract_grows cd fs srcPath dstDir) as H. fold fs' in H.
  split; [|split; [|split; [|split]]].
  - intros p d m E. specialize (H p). rewrite E in H. exact H.
  - intros p m E. specialize (H p). rewrite E in H. exact H.
  - intros p t E. specialize (H p). rewrite E in H. exact H.
  - intros p t E. specialize (H p).
    destruct (fs !! p) as [[d m|t0|m]|].
    + destruct H as [d' H]. congruence.
    + congruence.
    + congruence.
    + exfalso. eapply H. exact E.
  - intros p E. specialize (H p). rewrite E in H.
    destruct (fs' !! p) as [[d m|t|m]|]; eauto.
    exfalso. eapply H. reflexivity.
Qed.

(** ** internal/installer: the temporary file *)

Section TempFile.

Import installer catalog.

Context {um : OS.Umask}.

Variable env : Env.

Lemma downloadWithRetry_stored (url assetName tmp : string) (w : World) :
  fst (downloadWithRetry env url assetName w) = (tmp, None) ->
  exists body,
    fs (snd (downloadWithRetry env url assetName w)) = <[tmp := File body (OS.create_mode OS.perm_0600)]> (fs w).
Proof.
  intros H.
  destruct (downloadWithRetry_spec env url assetName w)
    as (ms & cs & _ & _ & _ & _ & _ & _ & Hfs).
  destruct (downloadWithRetry env url assetName w) as [[tmp' [e|]] w']; simpl in *.
  - discriminate.
  - inversion H; subst. destruct Hfs as (n & body & _ & _ & Hfs). exists body. exact Hfs.
Qed.

(** X5. What [downloadWithRetry] leaves behind. It sends nothing. When it
    returns an error, after one, two or three attempts, the file system is
    exactly as before: a partly written temporary file has been removed.
    When it returns a path, that path was free before, is in the
    temporary directory under a name made from the asset name, and is
    the one entry that is new: a regular file of mode 0600 less the
    umask. *)
Theorem downloadWithRetry_files (url assetName : string) (w : World) :
  let r := downloadWithRetry env url assetName w in
  chan (snd r) = chan w /\
  (snd (fst r) <> None -> fs (snd r) = fs w) /\
  (snd (fst r) = None ->
   exists n body,
     fst (fst r) = temp_path (TempDir env) ("installer-*-" +:+ assetName)
                     (temp_rand env n) /\
     fs w !! fst (fst r) = None /\
     fs (snd r) = <[fst (fst r) := File body (OS.create_mode OS.perm_0600)]> (fs w)).
Proof.
  intros r. subst r.
  destruct (downloadWithRetry_spec env url assetName w)
    as (ms & cs & Hch & _ & -> & _ & _ & _ & Hfs).
  rewrite app_nil_r in Hch.
  destruct (downloadWithRetry env url assetName w) as [[tmp [e|]] w']; simpl in *.
  - split; [exact Hch|]. split; [intros _; exact Hfs | discriminate].
  - split; [exact Hch|]. split; [congruence|]. intros _.
    destruct Hfs as (n & body & H1 & H2 & H3). exists n, body. auto.
Qed.

(** One attempt that is answered with status 200, a content length other
    than 0 and a body that is read to its end. *)
Definition answered (url : string) (w : World) (body : string) : Prop :=
  url_error env url = None /\
  exists len, asset env (gets w) url = Resp 200 len body None /\ len <> 0%Z.

(** X6. A download that is answered stores exactly the bytes of the body:
    the returned path is the next temporary name, and the file there holds
    the body and nothing else. Besides the GET and the creation of that
    file nothing is done. The temporary name must be free and the
    directory for temporary files be there. *)
Theorem download_stores_body (url assetName body : string) (w : World) :
  let tmp := temp_path (TempDir env) ("installer-*-" +:+ assetName)
               (temp_rand env (temps w)) in
  answered url w body ->
  has_separator assetName = false ->
  fs w !! tmp = None ->
  OS.creatable (fs w) tmp = true ->
  download env url assetName w
  = ((tmp, None),
     {| fs := <[tmp := File body (OS.create_mode OS.perm_0600)]> (fs w);
        chan := chan w;
        calls := calls w ++ [Download url; NetGet url; FsCreateTemp tmp];
        gets := S (gets w); selects := selects w; temps := S (temps w) |}) /\
  OS.ReadFile (fs (snd (download env url assetName w))) tmp = Ok body.
Proof.
  intros tmp (Hu & len & Ha & Hlen) Hsep Hfree Hdir.
  assert (E : download env url assetName w
              = ((tmp, None),
                 {| fs := <[tmp := File body (OS.create_mode OS.perm_0600)]> (fs w);
                    chan := chan w;
                    calls := calls w ++ [Download url; NetGet url; FsCreateTemp tmp];
                    gets := S (gets w); selects := selects w; temps := S (temps w) |})).
  { unfold download, bind, note, next_get, ret. rewrite Hu. cbn [fst snd gets].
    rewrite Ha. cbn [negb Z.eqb Pos.eqb].
    apply Z.eqb_neq in Hlen. rewrite Hlen.
    unfold os_CreateTemp.
    assert (Hs : has_separator ("installer-*-" +:+ assetName) = false) by exact Hsep.
    rewrite Hs. unfold bind, next_temp, note, get_fs, put_fs, set_fs, ret.
    cbn [fst snd temps fs]. fold tmp. rewrite Hfree, Hdir.
    cbn [fst snd temps fs chan calls gets selects].
    unfold OS.write. rewrite lookup_insert_eq, insert_insert_eq.
    rewrite <- !app_assoc. reflexivity. }
  split; [exact E|]. rewrite E. cbn [snd fs].
  eapply ReadFile_of_file. apply lookup_insert_eq.
Qed.

Variable p : Program.
Variable version : string.

Definition is_file (f : gmap string node) (path : string) : Prop :=
  exists d m, f !! path = Some (File d m).

Lemma grows_is_file (f f' : gmap string node) (path : string) :
  grows f f' -> is_file f path -> is_file f' path.
Proof.
  intros H (d & m & E). specialize (H path). rewrite E in H.
  destruct H as [d' H]. exists d', m. exact H.
Qed.

Lemma install_unpack_is_file (tmpFile path : string) (w : World) :
  is_file (fs w) path ->
  is_file (fs (snd (install_unpack env p version tmpFile w))) path.
Proof.
  intros Hf.
  assert (H : wp (install_unpack env p version tmpFile) w
                 (fun _ w' _ _ => is_file (fs w') path)).
  { unfold install_unpack.
    do 5 (wp_step; cbn beta iota). wsimpl. unfold of_result.
    destruct (OS.MkdirAll (fs w) (installDir env p) OS.perm_0755)
      as [fs1|e1] eqn:Emk; cbn [fst snd is_nil].
    { assert (H1 : is_file fs1 path)
        by (eapply grows_is_file; [eapply MkdirAll_ok_grows; exact Emk | exact Hf]).
      do 3 (wp_step; cbn beta iota). wsimpl.
      pose proof (Extract_grows (codec env) fs1 tmpFile (installDir env p)) as Hex.
      destruct (extractor.Extract (codec env) fs1 tmpFile (installDir env p))
        as [fs2 [e2|]]; cbn [fst snd is_nil] in *.
      { wp_run. eapply grows_is_file; eassumption. }
      assert (H2 : is_file fs2 path) by (eapply grows_is_file; eassumption).
      do 5 (wp_step; cbn beta iota). wsimpl.
      assert (H3 : is_file (fst (of_result fs2
                     (OS.WriteFile fs2 (versionFile env p) version OS.perm_0644))) path).
      { unfold of_result.
        destruct (OS.WriteFile fs2 (versionFile env p) version OS.perm_0644)
          as [fs3|e3] eqn:Ew; cbn [fst].
        - eapply grows_is_file; [eapply WriteFile_grows; exact Ew | exact H2].
        - exact H2. }
      eapply wp_mono; [apply link_all_spec|].
      intros [] w' ms cs (_ & _ & Hkeep & _). wsimpl.
      destruct H3 as (d & m & H3). exists d, m. apply Hkeep; [exact H3 | reflexivity]. }
    wp_run. exact Hf. }
  destruct H as (ms & cs & _ & _ & H). exact H.
Qed.

(** X7. The temporary file does not outlive [install]. Once the download
    has succeeded, whatever the archive holds and wherever the extraction
    or the linking stops, the deferred [os.Remove] finds the temporary
    file still a regular file, removes it without error as the last call
    of the pipeline, and the name is free again at the end. *)
Theorem temp_file_removed (verbose : bool) (w : World) (tmp : string) :
  let at_download :=
    snd (((if verbose
           then note (Stderr ("[verbose] " +:+ Name p +:+ ": version=" +:+ version
                                +:+ " url=" +:+ downloadURL_of p version))
           else ret tt) ;;;
          send (progress p StateDownloading version None)) w) in
  let d := downloadWithRetry env (downloadURL_of p version) (assetName_of p version)
             at_download in
  fst d = (tmp, None) ->
  let w' := snd (install_download env p verbose version w) in
  fs w' !! tmp = None /\
  exists cs, calls w' = calls w ++ cs ++ [FsRemove tmp true].
Proof.
  intros at_download d Hd w'.
  pose proof (install_download_eq env p verbose version w) as E.
  cbv zeta in E. fold at_download in E. fold d in E. rewrite Hd in E.
  subst w'. rewrite E. cbn [snd].
  destruct (downloadWithRetry_stored _ _ _ _ Hd) as (body & Hfs). fold d in Hfs.
  assert (Hf : is_file (fs (snd d)) tmp).
  { exists body, (OS.create_mode OS.perm_0600). rewrite Hfs. apply lookup_insert_eq. }
  apply (install_unpack_is_file tmp tmp) in Hf.
  destruct Hf as (d1 & m1 & Hf).
  set (w3 := snd (install_unpack env p version tmp (snd d))) in *.
  unfold os_Remove. rewrite fs_call_eq. cbn [snd fs calls].
  unfold of_result, OS.Remove. rewrite Hf. cbn [fst snd is_nil].
  split; [apply lookup_delete_eq|].
  assert (Hc : exists cs, calls w3 = calls w ++ cs).
  { destruct (install_unpack_spec env p version tmp (snd d)) as (ms3 & cs3 & _ & Hc3 & _).
    fold w3 in Hc3.
    destruct (downloadWithRetry_spec env (downloadURL_of p version)
                (assetName_of p version) at_download) as (ms2 & cs2 & _ & Hc2 & _).
    fold d in Hc2.
    assert (Hc1 : exists cs1, calls at_download = calls w ++ cs1).
    { subst at_download. destruct verbose.
      - eexists. cbn. reflexivity.
      - exists []. cbn. rewrite app_nil_r. reflexivity. }
    destruct Hc1 as (cs1 & Hc1).
    exists (cs1 ++ cs2 ++ cs3). rewrite Hc3, Hc2, Hc1, <- !app_assoc. reflexivity. }
  destruct Hc as (cs & Hc). exists cs. rewrite Hc, <- app_assoc. reflexivity.
Qed.

End TempFile.

(** ** internal/installer: a directory at the name of the marker *)

Section Blocked.

Import installer catalog.

Context {um : OS.Umask}.

Variable env : Env.
Variable p : Program.
Variable version : string.

(** No call of [cs] is a write of the marker that returned nil. *)
Definition no_marker_written (cs : list call) : Prop :=
  forall data, ~ In (FsWriteFile (versionFile env p) data true) cs.

(** The marker's name holds the directory of mode [m]. *)
Definition blocked (m : N) (f : gmap string node) : Prop :=
  f !! versionFile env p = Some (Directory m).

Lemma grows_blocked (m : N) (f f' : gmap string node) :
  grows f f' -> blocked m f -> blocked m f'.
Proof.
  unfold blocked. intros Hg Hb. specialize (Hg (versionFile env p)).
  rewrite Hb in Hg. exact Hg.
Qed.

Lemma WriteFile_blocked (m : N) (f : gmap string node) (data : string) (perm : N) :
  blocked m f -> exists e, OS.WriteFile f (versionFile env p) data perm = Err e.
Proof.
  unfold blocked. intros Hb. unfold OS.WriteFile, OS.OpenFile_trunc.
  rewrite resolve_free by (intros t; congruence). rewrite Hb. eauto.
Qed.

Lemma ReadFile_blocked (m : N) (f : gmap string node) :
  blocked m f -> exists e, OS.ReadFile f (versionFile env p) = Err e.
Proof.
  unfold blocked. intros Hb. unfold OS.ReadFile, OS.Open.
  rewrite resolve_free by (intros t; congruence). rewrite Hb.
  unfold OS.read_all. rewrite Hb. eauto.
Qed.

Lemma links_not_written (cs : list call) :
  Forall is_link cs -> no_marker_written cs.
Proof.
  intros Hl data Hin. rewrite Forall_forall in Hl.
  exact (Hl _ (proj2 (list_elem_of_In _ _) Hin)).
Qed.

Ltac none_written :=
  let data := fresh "data" in
  let Hin := fresh "Hin" in
  intros data Hin; simpl in Hin;
  repeat (destruct Hin as [Hin | Hin]; [discriminate Hin|]);
  try contradiction.

Lemma install_unpack_blocked (tmpFile : string) (m : N) (w : World) :
  blocked m (fs w) ->
  wp (install_unpack env p version tmpFile) w
     (fun _ w' _ cs => blocked m (fs w') /\ no_marker_written cs).
Proof.
  intros Hb. unfold install_unpack.
  do 5 (wp_step; cbn beta iota). wsimpl. unfold of_result.
  destruct (OS.MkdirAll (fs w) (installDir env p) OS.perm_0755)
    as [fs1|e1] eqn:Emk; cbn [fst snd is_nil].
  2:{ wp_run. split; [exact Hb | none_written]. }
  assert (H1 : blocked m fs1)
    by (eapply grows_blocked; [eapply MkdirAll_ok_grows; exact Emk | exact Hb]).
  do 3 (wp_step; cbn beta iota). wsimpl.
  pose proof (Extract_grows (codec env) fs1 tmpFile (installDir env p)) as Hex.
  destruct (extractor.Extract (codec env) fs1 tmpFile (installDir env p))
    as [fs2 [e2|]]; cbn [fst snd is_nil] in *.
  { wp_run. split; [eapply grows_blocked; eassumption | none_written]. }
  assert (H2 : blocked m fs2) by (eapply grows_blocked; eassumption).
  do 5 (wp_step; cbn beta iota). wsimpl.
  destruct (WriteFile_blocked m fs2 version OS.perm_0644 H2) as (e3 & Ew).
  unfold of_result. rewrite Ew. cbn [fst snd is_nil].
  eapply wp_mono; [apply link_all_spec|].
  intros [] w' ms cs (_ & Hcs & Hkeep & _). wsimpl.
  split; [apply Hkeep; [exact H2 | reflexivity]|].
  intros data Hin. simpl in Hin.
  repeat (destruct Hin as [Hin | Hin]; [discriminate Hin|]).
  exact (links_not_written _ Hcs data Hin).
Qed.

Lemma download_calls_not_written (cs : list call) :
  Forall (retry_call (downloadURL_of p version)) cs -> no_marker_written cs.
Proof.
  intros Hl data Hin. rewrite Forall_forall in Hl.
  exact (Hl _ (proj2 (list_elem_of_In _ _) Hin)).
Qed.

(** With a directory at the name of the marker, [install] never writes
    the marker and leaves the directory where it is. *)
Lemma install_download_blocked (verbose : bool) (m : N) (w : World) :
  blocked m (fs w) ->
  wp (install_download env p verbose version) w
     (fun _ w' _ cs => blocked m (fs w') /\ no_marker_written cs).
Proof.
  intros Hb. unfold install_download.
  fold (assetName_of p version). fold (downloadURL_of p version).
  wp_step.
  assert (Hv : wp (if verbose
                   then note (Stderr ("[verbose] " +:+ Name p +:+ ": version="
                                        +:+ version +:+ " url="
                                        +:+ downloadURL_of p version))
                   else ret tt) w
                 (fun _ w1 ms1 cs1 => fs w1 = fs w /\ no_marker_written cs1)).
  { destruct verbose; wp_run; (split; [reflexivity | none_written]). }
  eapply wp_mono; [exact Hv|]. clear Hv.
  intros [] w1 ms1 cs1 (Hfs1 & Hcs1). cbn beta.
  do 3 (wp_step; cbn beta iota). wsimpl.
  eapply wp_mono; [apply downloadWithRetry_spec|].
  intros [tmp [e|]] w2 ms2 cs2 (-> & Hcs2 & _ & _ & Hfs2); cbn beta iota.
  - wp_run. rewrite Hfs2, Hfs1. split; [exact Hb|].
    intros data Hin.
    repeat match type of Hin with
           | In _ (_ ++ _) => apply in_app_or in Hin as [Hin | Hin]
           end;
      first [ exact (Hcs1 data Hin)
            | exact (download_calls_not_written _ Hcs2 data Hin)
            | destruct Hin ].
  - destruct Hfs2 as (n & body & Htmp & Hfree & Hfs2). wsimpl.
    rewrite Hfs1 in Hfree, Hfs2.
    assert (Hne : tmp <> versionFile env p).
    { intros ->. unfold blocked in Hb. congruence. }
    assert (Hb2 : blocked m (fs w2)).
    { unfold blocked. rewrite Hfs2, lookup_insert_ne by exact Hne. exact Hb. }
    wp_step. eapply wp_mono; [apply (install_unpack_blocked tmp m); exact Hb2|].
    intros [] w3 ms3 cs3 (Hb3 & Hcs3). cbn beta.
    do 4 (wp_step; cbn beta iota). wsimpl.
    split; [apply Remove_other; [exact Hne | exact Hb3]|].
    intros data Hin.
    repeat match type of Hin with
           | In _ (_ ++ _) => apply in_app_or in Hin as [Hin | Hin]
           end;
      first [ exact (Hcs1 data Hin)
            | exact (download_calls_not_written _ Hcs2 data Hin)
            | exact (Hcs3 data Hin)
            | simpl in Hin;
              repeat (destruct Hin as [Hin | Hin]; [discriminate Hin|]);
              contradiction ].
Qed.

End Blocked.

(** ** internal/installer: the marker and the links *)

Section Marker.

Import installer catalog.

Context {um : OS.Umask}.

Variable env : Env.
Variable client : github.Client.
Variable p : Program.
Variable verbose : bool.

Definition writes_or_links (c : call) : Prop :=
  match c with
  | FsWriteFile _ _ _ => True
  | FsLink _ _ _ _ => True
  | _ => False
  end.

Lemma download_call_early (v : string) (c : call) :
  download_call p v c ->
  match c with
  | FsExtract _ _ _ | FsWriteFile _ _ _ | FsLink _ _ _ _ => False
  | _ => True
  end.
Proof. destruct c; simpl; tauto. Qed.

(** C9. In every run of [install] that has resolved [version]: a write or
    a link happens only after one successful extraction, the marker is
    written right after it and all links follow the write; the pipeline
    announces the linking whether the write returned an error or not.
    When the write succeeded (at a name that was no symbolic link, the
    temporary file being another name), the marker is a regular file
    holding [version] at the end of the run whatever became of the links,
    so that a later run that resolves the same version sends
    fetching-version and skipped and makes no call but the lookup and the
    read: the links that failed are not tried again. When a directory
    stands at the name of the marker, the write does not succeed, the
    directory is still there at the end of the run, and a later run that
    resolves the same version is not skipped: it announces the download
    again. *)
Theorem marker_outlives_links (w : World) (version : string) (cs : list call) :
  resolves env client p version ->
  calls (snd (install env client p verbose w)) = calls w ++ cs ->
  ((exists c, In c cs /\ writes_or_links c) ->
   marker_before_links env p version cs /\
   exists m,
     chan (snd (install env client p verbose w))
     = chan w ++ [progress p StateFetchingVersion "" None;
                  progress p StateDownloading version None;
                  progress p StateExtracting version None;
                  progress p StateLinking version None; m]) /\
  (In (FsWriteFile (versionFile env p) version true) cs ->
   no_link_at (fs w) (versionFile env p) ->
   (forall n, temp_path (TempDir env)
                ("installer-*-" +:+ GoStrings.ReplaceAll (AssetPattern p) "{version}" version)
                (temp_rand env n) <> versionFile env p) ->
   (exists mode,
      fs (snd (install env client p verbose w)) !! versionFile env p
      = Some (File version mode)) /\
   (GoStrings.TrimSpace version = version ->
    forall (env2 : Env) (client2 : github.Client) (verbose2 : bool),
     HOME env2 = HOME env ->
     resolves env2 client2 p version ->
     install env2 client2 p verbose2 (snd (install env client p verbose w))
     = (tt, {| fs := fs (snd (install env client p verbose w));
               chan := chan (snd (install env client p verbose w))
                       ++ [progress p StateFetchingVersion "" None;
                           progress p StateSkipped version None];
               calls := calls (snd (install env client p verbose w))
                        ++ [NetGet (github.releases_url client2 (Repo p));
                            FsReadFile (versionFile env p)];
               gets := gets (snd (install env client p verbose w));
               selects := selects (snd (install env client p verbose w));
               temps := temps (snd (install env client p verbose w)) |}))) /\
  (forall m,
     fs w !! versionFile env p = Some (Directory m) ->
     ~ In (FsWriteFile (versionFile env p) version true) cs /\
     fs (snd (install env client p verbose w)) !! versionFile env p
     = Some (Directory m) /\
     forall (env2 : Env) (client2 : github.Client) (verbose2 : bool),
       HOME env2 = HOME env ->
       resolves env2 client2 p version ->
       exists rest,
         chan (snd (install env2 client2 p verbose2
                      (snd (install env client p verbose w))))
         = chan (snd (install env client p verbose w))
           ++ progress p StateFetchingVersion "" None
           :: progress p StateDownloading version None :: rest).
Proof.
  intros Hv Hcs.
  assert (Hblocked : forall m,
             fs w !! versionFile env p = Some (Directory m) ->
             ~ In (FsWriteFile (versionFile env p) version true) cs /\
             fs (snd (install env client p verbose w)) !! versionFile env p
             = Some (Directory m) /\
             forall (env2 : Env) (client2 : github.Client) (verbose2 : bool),
               HOME env2 = HOME env ->
               resolves env2 client2 p version ->
               exists rest,
                 chan (snd (install env2 client2 p verbose2
                              (snd (install env client p verbose w))))
                 = chan (snd (install env client p verbose w))
                   ++ progress p StateFetchingVersion "" None
                   :: progress p StateDownloading version None :: rest).
  { intros m Hd.
    assert (Hstale : forall (e0 : Env) (f : gmap string node),
               blocked e0 p m f ->
               up_to_date (OS.ReadFile f (versionFile e0 p)) version = false).
    { intros e0 f Hb. destruct (ReadFile_blocked e0 p m f Hb) as (e & ->). reflexivity. }
    pose proof (Hstale env (fs w) Hd) as Hs.
    pose proof (install_resolved env client p verbose w version Hv) as Hi.
    rewrite Hs in Hi.
    destruct (install_download_blocked env p version verbose m
                (checked env client p w) Hd) as (ms & cs' & _ & Hca & Hb' & Hnw).
    rewrite <- Hi in Hca, Hb'. rewrite Hcs in Hca.
    unfold checked in Hca. cbn [calls] in Hca. rewrite <- app_assoc in Hca.
    apply app_inv_head in Hca. subst cs.
    split; [|split].
    - intros [Hx | [Hx | Hin]]; try discriminate. exact (Hnw version Hin).
    - exact Hb'.
    - intros env2 client2 verbose2 Hhome Hv2.
      assert (Hvf : versionFile env2 p = versionFile env p).
      { unfold versionFile, installDir. rewrite Hhome. reflexivity. }
      assert (Hb2 : blocked env2 p m (fs (snd (install env client p verbose w)))).
      { unfold blocked. rewrite Hvf. exact Hb'. }
      destruct (install_stale env2 client2 p verbose2 _ version Hv2 (Hstale _ _ Hb2))
        as (_ & ms2 & cs2 & Hch2 & _ & Hpost).
      destruct Hpost as (pre & _ & _ & [(e & -> & _) | [(e & okr & tmp & -> & _)
                                    | (m0 & ok & links & okr & tmp & n & -> & _)]]);
        eexists; exact Hch2. }
  match goal with
  | |- ?A /\ ?B /\ _ =>
      cut (A /\ B); [intros [Ha Hb]; exact (conj Ha (conj Hb Hblocked))|]
  end.
  clear Hblocked.
  destruct (up_to_date (OS.ReadFile (fs w) (versionFile env p)) version) eqn:Hu.
  { rewrite (install_resolved _ _ _ _ _ _ Hv), Hu in Hcs.
    cbn [send snd calls checked] in Hcs. apply app_inv_head in Hcs. subst cs.
    split.
    - intros (c & [<- | [<- | []]] & Hc); destruct Hc.
    - intros [H | [H | []]]; discriminate. }
  destruct (install_stale env client p verbose w version Hv Hu)
    as (_ & ms & cs' & Hch & Hca & Hpost).
  rewrite Hca in Hcs. apply app_inv_head in Hcs. subst cs.
  destruct Hpost as (pre & Hpre & _ & H).
  assert (Hearly : forall c, In c pre -> writes_or_links c -> False).
  { intros c Hc Hw. rewrite Forall_forall in Hpre.
    specialize (Hpre c (proj2 (list_elem_of_In _ _) Hc)).
    destruct c; simpl in *; tauto. }
  destruct H as [(e & _ & ->) | [(e & okr & tmp & _ & Hc)
                                | (m & ok & links & okr & tmp & n & -> & _ & Htmp & -> & Hl & _ & Hm)]].
  - split.
    + intros (c & [<- | [<- | Hin]] & Hc); try destruct Hc.
      exfalso. eapply Hearly; eassumption.
    + intros [H | [H | H]]; try discriminate.
      exfalso. eapply Hearly; [exact H | exact I].
  - assert (Hno : forall c, In c cs' -> writes_or_links c -> False).
    { intros c Hin Hw. destruct Hc as [-> | ->];
        apply in_app_or in Hin as [Hin | Hin];
        try (eapply Hearly; eassumption);
        simpl in Hin; repeat (destruct Hin as [<- | Hin]; [destruct Hw|]);
        destruct Hin. }
    split.
    + intros (c & [<- | [<- | Hin]] & Hw); try destruct Hw.
      exfalso. eapply Hno; eassumption.
    + intros [H | [H | H]]; try discriminate.
      exfalso. eapply Hno; [exact H | exact I].
  - split.
    + intros _. split.
      * exists (NetGet (github.releases_url client (Repo p))
                :: FsReadFile (versionFile env p)
                :: pre ++ [FsMkdirAll (installDir env p) true]),
          tmp, ok, links, okr.
        splits.
        -- cbn [app]. rewrite <- !app_assoc. reflexivity.
        -- constructor; [exact I|]. constructor; [exact I|].
           apply Forall_app. split; [|repeat constructor].
           eapply Forall_impl; [exact Hpre|]. apply download_call_early.
        -- exact Hl.
      * exists m. exact Hch.
    + intros Hin Hno Hfresh.
      assert (Hok : ok = true).
      { destruct Hin as [H | [H | Hin]]; try discriminate.
        apply in_app_or in Hin as [Hin | Hin];
          [exfalso; eapply Hearly; [exact Hin | exact I]|].
        apply in_app_or in Hin as [Hin | Hin].
        - simpl in Hin. destruct Hin as [H | [H | [H | []]]]; try discriminate.
          inversion H. reflexivity.
        - apply in_app_or in Hin as [Hin | Hin].
          + rewrite Forall_forall in Hl.
            destruct (Hl _ (proj2 (list_elem_of_In _ _) Hin)).
          + simpl in Hin. destruct Hin as [H | []]. discriminate. }
      destruct (Hm Hok Hno) as [mode Hmode].
      { rewrite Htmp. apply Hfresh. }
      split; [exists mode; exact Hmode|].
      intros Htrim env2 client2 verbose2 Hhome Hv2.
      assert (Hvf : versionFile env2 p = versionFile env p).
      { unfold versionFile, installDir. rewrite Hhome. reflexivity. }
      rewrite <- Hvf.
      apply install_up_to_date with (current := version);
        [exact Hv2 | | exact Htrim].
      rewrite Hvf. eapply ReadFile_of_file. exact Hmode.
Qed.

End Marker.

(** ** Paths: what [Clean] and [Join] keep *)

Section Paths.

Lemma append_cons (c : ascii) (a b : string) :
  String c a +:+ b = String c (a +:+ b).
Proof. reflexivity. Qed.

Lemma append_empty_r (s : string) : s +:+ "" = s.
Proof.
  induction s as [|c s IH]; [reflexivity|]. rewrite append_cons, IH. reflexivity.
Qed.

Lemma append_assoc (a b c : string) : (a +:+ b) +:+ c = a +:+ (b +:+ c).
Proof.
  induction a as [|x a IH]; [reflexivity|]. rewrite !append_cons, IH. reflexivity.
Qed.

Lemma rev_app_append (s acc t : string) :
  String.rev_app s acc +:+ t = String.rev_app s (acc +:+ t).
Proof.
  revert acc. induction s as [|c s IH]; intros acc; simpl; [reflexivity|].
  rewrite IH. reflexivity.
Qed.

(** No separator among the bytes of [s]. *)
Fixpoint slashless (s : string) : bool :=
  match s with
  | EmptyString => true
  | String c t => negb (Ascii.eqb c GoPath.slash) && slashless t
  end.

Lemma slashless_rev_app (s acc : string) :
  slashless (String.rev_app s acc) = slashless s && slashless acc.
Proof.
  revert acc. induction s as [|c s IH]; intros acc; simpl; [reflexivity|].
  rewrite IH. simpl. destruct (Ascii.eqb c GoPath.slash); simpl;
    [rewrite andb_false_r|]; reflexivity.
Qed.

Lemma slashless_rev (s : string) : slashless (String.rev s) = slashless s.
Proof. unfold String.rev. rewrite slashless_rev_app. apply andb_true_r. Qed.

(** The elements of a path have no separator in them. *)
Lemma split_go_slashless (s cur : string) :
  slashless cur = true ->
  Forall (fun e => slashless e = true) (GoPath.split_go cur s).
Proof.
  revert cur. induction s as [|c s IH]; intros cur Hc; simpl.
  - constructor; [|constructor]. rewrite slashless_rev. exact Hc.
  - destruct (Ascii.eqb c GoPath.slash) eqn:E.
    + constructor; [rewrite slashless_rev; exact Hc|]. apply IH. reflexivity.
    + apply IH. simpl. rewrite E, Hc. reflexivity.
Qed.

Lemma split_go_app (a b cur : string) :
  GoPath.split_go cur (a +:+ String GoPath.slash b)
  = GoPath.split_go cur a ++ GoPath.split b.
Proof.
  revert cur. induction a as [|c a IH]; intros cur.
  - reflexivity.
  - rewrite append_cons. simpl.
    destruct (Ascii.eqb c GoPath.slash); rewrite IH; reflexivity.
Qed.

Lemma split_go_one (x cur : string) :
  slashless x = true -> GoPath.split_go cur x = [String.rev cur +:+ x].
Proof.
  revert cur. induction x as [|c x IH]; intros cur; simpl.
  - intros _. rewrite append_empty_r. reflexivity.
  - destruct (Ascii.eqb c GoPath.slash); [discriminate|]. simpl. intros Hx.
    rewrite (IH _ Hx). unfold String.rev. simpl.
    rewrite !rev_app_append. reflexivity.
Qed.

Lemma split_concat (l : list string) :
  l <> [] -> Forall (fun e => slashless e = true) l ->
  GoPath.split (String.concat "/" l) = l.
Proof.
  induction l as [|x l IH]; [congruence|]. intros _ Hl.
  inversion Hl as [|? ? Hx Hrest]; subst.
  destruct l as [|y l].
  - simpl. unfold GoPath.split. rewrite (split_go_one _ _ Hx). reflexivity.
  - change (String.concat "/" (x :: y :: l))
      with (x +:+ String GoPath.slash (String.concat "/" (y :: l))).
    unfold GoPath.split. rewrite split_go_app, (split_go_one _ _ Hx).
    fold (GoPath.split (String.concat "/" (y :: l))).
    rewrite IH by (congruence || exact Hrest). reflexivity.
Qed.

(** An element that [Clean] keeps wherever it stands: a name. *)
Definition ordinary (e : string) : Prop :=
  slashless e = true /\ e <> "" /\ e <> "." /\ e <> "..".

Lemma clean_step_ordinary (root : bool) (stack : list string) (e : string) :
  ordinary e -> GoPath.clean_step root stack e = e :: stack.
Proof.
  intros (_ & H1 & H2 & H3). unfold GoPath.clean_step.
  apply String.eqb_neq in H1, H2, H3. rewrite H1, H2, H3. reflexivity.
Qed.

Lemma fold_ordinary (root : bool) (l stack : list string) :
  Forall ordinary l ->
  fold_left (GoPath.clean_step root) l stack = rev l ++ stack.
Proof.
  revert stack. induction l as [|e l IH]; intros stack Hl; [reflexivity|].
  inversion Hl as [|? ? He Hrest]; subst. simpl.
  rewrite (clean_step_ordinary _ _ _ He), (IH _ Hrest), <- app_assoc. reflexivity.
Qed.

(** Below a root no [..] survives. *)
Lemma clean_step_rooted (stack : list string) (e : string) :
  Forall ordinary stack -> slashless e = true ->
  Forall ordinary (GoPath.clean_step true stack e).
Proof.
  intros Hs He. unfold GoPath.clean_step.
  destruct (String.eqb e "") eqn:E1; [exact Hs|].
  destruct (String.eqb e ".") eqn:E2; [exact Hs|].
  destruct (String.eqb e "..") eqn:E3.
  - destruct stack as [|top rest]; [constructor|].
    inversion Hs as [|? ? Ht Hr]; subst.
    destruct (String.eqb top "..") eqn:E4; [|exact Hr].
    apply String.eqb_eq in E4. destruct Ht as (_ & _ & _ & Ht). contradiction.
  - constructor; [|exact Hs].
    apply String.eqb_neq in E1, E2, E3. repeat split; assumption.
Qed.

Lemma fold_rooted (l stack : list string) :
  Forall ordinary stack -> Forall (fun e => slashless e = true) l ->
  Forall ordinary (fold_left (GoPath.clean_step true) l stack).
Proof.
  revert stack. induction l as [|e l IH]; intros stack Hs Hl; [exact Hs|].
  inversion Hl; subst. simpl. apply IH; [|assumption].
  apply clean_step_rooted; assumption.
Qed.

(** The elements [Clean] keeps, first one first, and the path it makes of
    them. *)
Definition kept (path : string) : list string :=
  rev (fold_left (GoPath.clean_step (GoPath.rooted path)) (GoPath.split path) []).

Definition render (root : bool) (elems : list string) : string :=
  let body := String.concat "/" elems in
  if root then "/" +:+ body
  else if String.eqb body "" then "." else body.

Lemma Clean_render (path : string) :
  GoPath.Clean path = render (GoPath.rooted path) (kept path).
Proof. reflexivity. Qed.

Lemma kept_rooted (name : string) : Forall ordinary (kept ("/" +:+ name)).
Proof.
  unfold kept. apply Forall_rev. apply fold_rooted; [constructor|].
  apply split_go_slashless. reflexivity.
Qed.

Lemma ordinary_slashless (l : list string) :
  Forall ordinary l -> Forall (fun e => slashless e = true) l.
Proof. intros H. eapply Forall_impl; [exact H|]. intros e (He & _). exact He. Qed.

Lemma concat_nonempty (x : string) (l : list string) :
  x <> "" -> String.concat "/" (x :: l) <> "".
Proof.
  intros Hx. destruct l as [|y l]; [exact Hx|].
  change (String.concat "/" (x :: y :: l))
    with (x +:+ String GoPath.slash (String.concat "/" (y :: l))).
  destruct x; [congruence | discriminate].
Qed.

Lemma rooted_append (a b : string) :
  a <> "" -> GoPath.rooted (a +:+ b) = GoPath.rooted a.
Proof. destruct a; [congruence | reflexivity]. Qed.

(** X8. The target of an archive member never leaves the destination
    directory. For a destination [dstDir] other than the empty string and
    any member name, [sanitize dstDir name] (the [target] of [extractTar]
    and [extractZip]) is the cleaned [dstDir] followed by the elements
    that [Clean] keeps of the name below a root, and none of these is
    [..], [.] or empty, nor holds a separator: leading separators and
    every [..] of the name are used up inside. *)
Theorem sanitize_stays_inside (dstDir name : string) :
  dstDir <> "" ->
  let inner := kept ("/" +:+ name) in
  Forall ordinary inner /\
  GoPath.Clean dstDir = render (GoPath.rooted dstDir) (kept dstDir) /\
  extractor.sanitize dstDir name
  = render (GoPath.rooted dstDir) (kept dstDir ++ inner).
Proof.
  intros Hd inner. pose proof (kept_rooted name) as Hin. fold inner in Hin.
  split; [exact Hin|]. split; [apply Clean_render|].
  unfold extractor.sanitize. rewrite Clean_render. fold inner.
  change (GoPath.rooted ("/" +:+ name)) with true.
  change (render true inner) with (String GoPath.slash (String.concat "/" inner)).
  change (GoStrings.drop 1 (String GoPath.slash (String.concat "/" inner)))
    with (String.concat "/" inner).
  unfold GoPath.Join.
  rewrite filter_cons_True by exact Hd.
  destruct inner as [|x rest] eqn:Ei.
  - change (String.concat "/" []) with "".
    rewrite filter_cons_False by (intros H; apply H; reflexivity).
    rewrite filter_nil, app_nil_r. cbn [String.concat]. apply Clean_render.
  - assert (Hx : x <> "").
    { inversion Hin as [|? ? (_ & Hx & _) _]. exact Hx. }
    rewrite filter_cons_True by (apply concat_nonempty; exact Hx).
    rewrite filter_nil.
    change (String.concat "/" [dstDir; String.concat "/" (x :: rest)])
      with (dstDir +:+ String GoPath.slash (String.concat "/" (x :: rest))).
    rewrite Clean_render. rewrite rooted_append by exact Hd. f_equal.
    unfold kept. rewrite rooted_append by exact Hd.
    unfold GoPath.split at 1. rewrite split_go_app.
    rewrite split_concat by (congruence || (apply ordinary_slashless; exact Hin)).
    rewrite fold_left_app.
    rewrite fold_ordinary by exact Hin.
    rewrite rev_app_distr, rev_involutive. reflexivity.
Qed.

End Paths.

(** ** internal/extractor: the members of an archive, one after the other *)

Section Members.

Import extractor.

Context {um : OS.Umask}.

Lemma tar_loop_app (es1 es2 : list TarEntry) (fs : gmap string node)
    (dstDir : string) (final : option error) :
  tar_loop fs dstDir (es1 ++ es2) final
  = match tar_loop fs dstDir es1 None with
    | (fs1, None) => tar_loop fs1 dstDir es2 final
    | (fs1, Some e) => (fs1, Some e)
    end.
Proof.
  revert fs. induction es1 as [|hdr rest IH]; intros fs; simpl; [reflexivity|].
  destruct (tar_Typeflag hdr).
  - destruct (write_member _ _ _ _ _) as [fs2 [e|]]; [reflexivity | apply IH].
  - apply IH.
  - apply IH.
Qed.

Lemma zip_loop_app (fs1 fs2 : list ZipFile) (fs : gmap string node) (dstDir : string) :
  zip_loop fs dstDir (fs1 ++ fs2)
  = match zip_loop fs dstDir fs1 with
    | (f1, None) => zip_loop f1 dstDir fs2
    | (f1, Some e) => (f1, Some e)
    end.
Proof.
  revert fs. induction fs1 as [|f rest IH]; intros fs; simpl; [reflexivity|].
  destruct (zip_IsDir f); [apply IH|].
  destruct (zip_open_err f); [reflexivity|].
  destruct (write_member _ _ _ _ _) as [f2 [e|]]; [reflexivity | apply IH].
Qed.

(** Putting something that is no link where the links from [p] end does
    not change where they end. *)
Lemma follow_insert (fuel : nat) (fs : gmap string node) (p q : string) (n : node) :
  OS.follow fuel fs p = Ok q -> linker.is_symlink n = false ->
  OS.follow fuel (<[q := n]> fs) p = Ok q.
Proof.
  intros H Hn. revert p H. induction fuel as [|k IH]; intros p H; simpl in *.
  - destruct (decide (q = p)) as [->|Hne].
    + rewrite lookup_insert_eq. destruct n; try discriminate; reflexivity.
    + rewrite lookup_insert_ne by exact Hne.
      destruct (fs !! p) as [[| |]|]; inversion H; subst; congruence.
  - destruct (decide (q = p)) as [->|Hne].
    + rewrite lookup_insert_eq. destruct n; try discriminate; reflexivity.
    + rewrite lookup_insert_ne by exact Hne.
      destruct (fs !! p) as [[|t|]|] eqn:E; try (inversion H; subst; congruence).
      apply IH. exact H.
Qed.

Lemma write_member_read (fs fs' : gmap string node) (target data : string) (perm : N)
    (copy_err : option error) :
  write_member fs target perm data copy_err = (fs', None) ->
  OS.ReadFile fs' target = Ok data.
Proof.
  unfold write_member, OS.OpenFile_trunc, OS.resolve.
  destruct (OS.follow 40 fs target) as [q|e] eqn:Ef; [|discriminate].
  assert (Hres : forall d m, OS.resolve (<[q := File d m]> fs) target = Ok q).
  { intros d m. apply follow_insert; [exact Ef | reflexivity]. }
  assert (Hread : forall m, OS.ReadFile (<[q := File data m]> fs) target = Ok data).
  { intros m. unfold OS.ReadFile, OS.Open. rewrite Hres, lookup_insert_eq.
    unfold OS.read_all. rewrite lookup_insert_eq. reflexivity. }
  destruct (fs !! q) as [[d m| |]|] eqn:Eq; try destruct (OS.creatable fs q);
    try discriminate;
    intros H; inversion H; subst; unfold OS.write;
    rewrite lookup_insert_eq, insert_insert_eq; apply Hread.
Qed.

(** X10. What is extracted can be read back. When the loop of [extractTar]
    ends without error, the last member of the archive, if it is a regular
    file, is read from its target with exactly its bytes; the same holds of
    the last file of a zip archive. Links on the way to the target are
    followed by the write and by the read alike. *)
Theorem extracted_member_read_back (dstDir : string) (fs fs' : gmap string node) :
  (forall (es : list TarEntry) (hdr : TarEntry),
     tar_Typeflag hdr = TypeReg ->
     tar_loop fs dstDir (es ++ [hdr]) None = (fs', None) ->
     OS.ReadFile fs' (sanitize dstDir (tar_Name hdr)) = Ok (tar_data hdr)) /\
  (forall (files : list ZipFile) (f : ZipFile),
     zip_IsDir f = false ->
     zip_loop fs dstDir (files ++ [f]) = (fs', None) ->
     OS.ReadFile fs' (sanitize dstDir (zip_Name f)) = Ok (zip_data f)).
Proof.
  split.
  - intros es hdr Ht. rewrite tar_loop_app.
    destruct (tar_loop fs dstDir es None) as [fs1 [e|]]; [discriminate|].
    simpl. rewrite Ht.
    destruct (write_member _ _ _ _ _) as [fs2 [e|]] eqn:Ew; [discriminate|].
    intros H; inversion H; subst. eapply write_member_read. exact Ew.
  - intros files f Hd. rewrite zip_loop_app.
    destruct (zip_loop fs dstDir files) as [fs1 [e|]]; [discriminate|].
    simpl. rewrite Hd. destruct (zip_open_err f); [discriminate|].
    destruct (write_member _ _ _ _ _) as [fs2 [e|]] eqn:Ew; [discriminate|].
    intros H; inversion H; subst. eapply write_member_read. exact Ew.
Qed.

(** X11. [copyBinary] onto a regular file that is already there. The
    destination is opened, and so emptied, before the source is read, and
    an existing file keeps the mode it has: the copy gives the bytes of the
    source with the old mode, not 0755; and when source and destination
    are one file, the file is left empty and nil is returned. *)
Theorem copyBinary_existing (fs : gmap string node) (srcPath dstDir q : string)
    (data old : string) (mq m : N) :
  let dst := GoPath.Join [dstDir; GoPath.Base srcPath] in
  OS.Open fs srcPath = Ok q ->
  fs !! q = Some (File data mq) ->
  fs !! dst = Some (File old m) ->
  copyBinary fs srcPath dstDir
  = (<[dst := File (if decide (q = dst) then "" else data) m]> fs, None).
Proof.
  intros dst Ho Hq Hd. unfold copyBinary. fold dst. rewrite Ho.
  unfold OS.OpenFile_trunc. rewrite resolve_free by (intros t; congruence).
  rewrite Hd. unfold OS.read_all, OS.write.
  destruct (decide (q = dst)) as [->|Hne].
  - rewrite !lookup_insert_eq, insert_insert_eq. reflexivity.
  - rewrite lookup_insert_ne by congruence. rewrite Hq.
    rewrite lookup_insert_eq, insert_insert_eq. reflexivity.
Qed.

End Members.

(** ** internal/extractor: what each strategy of [Extract] does *)

Section Dispatch.

Import extractor.

Context {um : OS.Umask}.











End Dispatch.

(** ** internal/installer: how [Run] ends *)

Section RunEnds.

Import installer catalog.

Context {um : OS.Umask}.

(** The messages the goroutines [ws] have sent, counted. *)
Definition sent_total (ws : list Worker) : nat :=
  list_sum (map (fun w => length (w_sent w)) ws).

Lemma sent_total_app (a b : list Worker) :
  sent_total (a ++ b) = (sent_total a + sent_total b)%nat.
Proof. unfold sent_total. rewrite map_app, list_sum_app. reflexivity. Qed.

Lemma sent_total_cons (w : Worker) (a : list Worker) :
  sent_total (w :: a) = (length (w_sent w) + sent_total a)%nat.
Proof. reflexivity. Qed.

(** Every program is waiting, running or finished; a finished goroutine
    has sent a whole pipeline; the channel has carried what was sent; and
    it is closed only when nothing waits or runs. *)
Definition run_inv (programs : list Program) (s : Pool) : Prop :=
  Permutation programs (map w_prog (returned s) ++ map w_prog (sem s) ++ todo s) /\
  (closed s = true -> todo s = [] /\ sem s = []) /\
  Forall (fun w => pipeline (w_sent w) /\ w_pending w = []) (returned s) /\
  length (ch s) = sent_total (sem s ++ returned s).

Lemma run_inv_start (programs : list Program) : run_inv programs (start programs).
Proof.
  unfold run_inv, start. cbn [todo sem returned ch closed map app length].
  splits; try reflexivity; try discriminate. constructor.
Qed.

Lemma run_inv_step (programs : list Program) (s s' : Pool) :
  pool_inv s -> run_inv programs s -> step s s' -> run_inv programs s'.
Proof.
  intros (_ & Hpipe & _ & _) (Hperm & Hclosed & Hret & Hch) Hstep.
  destruct Hstep as [s q rest ms Htodo Hfree Hms
                    | s before after q sent rest m Hsem
                    | s before after w Hsem Hpend
                    | s Htodo Hsem Hcl];
    unfold run_inv; cbn [sem returned ch todo closed].
  - splits.
    + rewrite Hperm, Htodo, map_app, <- !app_assoc. reflexivity.
    + intros Hc. destruct (Hclosed Hc) as [Ht _]. congruence.
    + exact Hret.
    + rewrite Hch, !sent_total_app, sent_total_cons. cbn [w_sent length].
      change (sent_total []) with 0%nat. lia.
  - splits.
    + rewrite Hperm, Hsem, !map_app. reflexivity.
    + intros Hc. destruct (Hclosed Hc) as [_ Hs]. rewrite Hsem in Hs.
      destruct before; discriminate.
    + exact Hret.
    + rewrite length_app, Hch, Hsem, !sent_total_app, !sent_total_cons.
      cbn [w_sent length]. rewrite length_app. cbn [length]. lia.
  - splits.
    + rewrite Hperm, Hsem, !map_app. cbn [map].
      rewrite <- !app_assoc. cbn [app].
      rewrite !app_assoc. rewrite <- (app_assoc _ (map w_prog after) (todo s)).
      symmetry. apply Permutation_middle.
    + intros Hc. destruct (Hclosed Hc) as [_ Hs]. rewrite Hsem in Hs.
      destruct before; discriminate.
    + constructor; [|exact Hret]. split; [|exact Hpend].
      rewrite Hsem in Hpipe.
      apply Forall_app in Hpipe as [_ Ha]. apply Forall_cons in Ha as [Hw _].
      rewrite Hpend, app_nil_r in Hw. exact Hw.
    + rewrite Hch, Hsem, !sent_total_app, !sent_total_cons. lia.
  - splits.
    + rewrite Hperm, Hsem, Htodo. reflexivity.
    + intros _. split; reflexivity.
    + exact Hret.
    + rewrite Hch, Hsem. reflexivity.
Qed.

Lemma reachable_run_inv (programs : list Program) (s : Pool) :
  reachable programs s -> run_inv programs s.
Proof.
  induction 1 as [|s s' Hr IH Hstep]; [apply run_inv_start|].
  eapply run_inv_step; [eapply reachable_inv; exact Hr | exact IH | exact Hstep].
Qed.

(** X12. The channel is closed when all installs are complete, and only
    then. In a state of [Run] in which the channel is closed no program
    waits and no goroutine holds a place; the goroutines that have
    returned are those of the programs given to [Run], one for each; each
    has sent a whole pipeline, from its fetching-version message to one
    terminal message, and has nothing left to send; and the channel has
    carried exactly as many messages as they have sent. *)
Theorem closed_after_all (programs : list Program) (s : Pool) :
  reachable programs s -> closed s = true ->
  todo s = [] /\ sem s = [] /\
  Permutation (map w_prog (returned s)) programs /\
  Forall (fun w => pipeline (w_sent w) /\ w_pending w = []) (returned s) /\
  length (ch s) = sent_total (returned s).
Proof.
  intros Hr Hc. destruct (reachable_run_inv _ _ Hr) as (Hperm & Hclosed & Hret & Hch).
  destruct (Hclosed Hc) as [Ht Hs]. rewrite Ht, Hs in *.
  cbn [map app] in *. rewrite !app_nil_r in Hperm.
  splits; auto. symmetry. exact Hperm.
Qed.

(** X15. The buffer of the channel is never full. [install] sends at
    least two and at most five messages; and as long as no goroutine sends
    more than five, the channel of [Run] has carried at most five messages
    for each program started, which is less than the [len(programs)*8]
    places it is made with: a send never waits for the reader. *)
Theorem buffer_suffices :
  (forall (env : Env) (client : github.Client) (p : Program) (verbose : bool) (w : World),
     exists ms,
       chan (snd (install env client p verbose w)) = chan w ++ ms /\
       (2 <= length ms <= 5)%nat) /\
  (forall (programs : list Program) (s : Pool),
     reachable programs s ->
     Forall (fun w => (length (w_sent w ++ w_pending w) <= 5)%nat)
            (sem s ++ returned s) ->
     (length (ch s) <= 5 * (length programs - length (todo s)))%nat /\
     (length (ch s) <= buffer programs)%nat).
Proof.
  split.
  - intros env client p verbose w.
    destruct (install_pipeline env client p verbose w) as (ms & Hms & Hp).
    destruct (install_at_most_five env client p verbose w) as (ms' & Hms' & Hl).
    rewrite Hms in Hms'. apply app_inv_head in Hms'. subst ms'.
    exists ms. split; [exact Hms|]. split; [|exact Hl].
    destruct Hp as (first & mid & last & -> & _). cbn [length].
    rewrite length_app. cbn [length]. lia.
  - intros programs s Hr Hall.
    destruct (reachable_run_inv _ _ Hr) as (Hperm & _ & _ & Hch).
    apply Permutation_length in Hperm.
    rewrite !length_app, !length_map in Hperm.
    assert (Hsum : forall ws : list Worker,
               Forall (fun w => (length (w_sent w ++ w_pending w) <= 5)%nat) ws ->
               (sent_total ws <= 5 * length ws)%nat).
    { induction 1 as [|w ws Hw _ IH]; [unfold sent_total; simpl; lia|].
      rewrite sent_total_cons. cbn [length]. rewrite length_app in Hw. lia. }
    apply Hsum in Hall.
    rewrite length_app in Hall. unfold buffer. split; lia.
Qed.

End RunEnds.

(** ** The order of strings and [sort.Slice] *)

Section Sorting.

Lemma less_lt (a b : string) :
  GoStrings.less a b = true <-> OrdersEx.String_as_OT.lt a b.
Proof.
  unfold GoStrings.less, OrdersEx.String_as_OT.lt.
  destruct (OrdersEx.String_as_OT.compare a b); split; congruence.
Qed.

Lemma less_irrefl (a : string) : GoStrings.less a a = false.
Proof.
  destruct (GoStrings.less a a) eqn:E; [|reflexivity].
  apply less_lt in E. exfalso.
  exact (StrictOrder_Irreflexive (R := OrdersEx.String_as_OT.lt) a E).
Qed.

Lemma less_trans (a b c : string) :
  GoStrings.less a b = true -> GoStrings.less b c = true -> GoStrings.less a c = true.
Proof.
  rewrite !less_lt. apply (StrictOrder_Transitive (R := OrdersEx.String_as_OT.lt)).
Qed.

Lemma less_total (a b : string) :
  a <> b -> GoStrings.less a b = false -> GoStrings.less b a = true.
Proof.
  intros Hne Hab. apply less_lt.
  destruct (OrdersEx.String_as_OT.compare_spec a b) as [E | E | E].
  - contradiction.
  - apply less_lt in E. congruence.
  - exact E.
Qed.

Context {A : Type} (key : A -> string).

Definition by_key (a b : A) : bool := GoStrings.less (key a) (key b).

(** Ascending keys, each less than all that follow. *)
Definition ascending (l : list A) : Prop :=
  StronglySorted (fun a b => by_key a b = true) l.

Lemma insert_Permutation (x : A) (l : list A) :
  Permutation (GoSort.insert by_key x l) (x :: l).
Proof.
  induction l as [|y l IH]; simpl; [reflexivity|].
  destruct (by_key y x); [|reflexivity].
  rewrite IH. apply perm_swap.
Qed.

Lemma Slice_Permutation (l : list A) : Permutation (GoSort.Slice by_key l) l.
Proof.
  induction l as [|x l IH]; simpl; [reflexivity|].
  rewrite insert_Permutation, IH. reflexivity.
Qed.

Lemma insert_ascending (x : A) (l : list A) :
  ascending l -> ~ In (key x) (map key l) -> ascending (GoSort.insert by_key x l).
Proof.
  unfold ascending. induction 1 as [|y l Hl IH Hy]; intros Hx; simpl.
  - constructor; constructor.
  - destruct (by_key y x) eqn:E.
    + constructor.
      * apply IH. intros Hin. apply Hx. right. exact Hin.
      * rewrite insert_Permutation. constructor; assumption.
    + assert (Hxy : by_key x y = true).
      { apply less_total; [|exact E]. intros Heq. apply Hx. left. exact Heq. }
      constructor; [constructor; assumption|].
      constructor; [exact Hxy|].
      eapply Forall_impl; [exact Hy|]. intros z Hz.
      eapply less_trans; eassumption.
Qed.

Lemma Slice_ascending (l : list A) :
  List.NoDup (map key l) -> ascending (GoSort.Slice by_key l).
Proof.
  induction l as [|x l IH]; simpl; intros Hn.
  - constructor.
  - inversion Hn as [|? ? Hx Hrest]; subst.
    apply insert_ascending; [apply IH; exact Hrest|].
    intros Hin. apply Hx.
    eapply Permutation_in; [|exact Hin].
    apply Permutation_map. apply Slice_Permutation.
Qed.

Lemma ascending_unique (l1 l2 : list A) :
  ascending l1 -> ascending l2 -> Permutation l1 l2 -> l1 = l2.
Proof.
  apply StronglySorted_unique_strong.
  intros a b _ _ Hab Hba. exfalso.
  pose proof (less_trans _ _ _ Hab Hba) as H.
  unfold by_key in H. rewrite less_irrefl in H. discriminate.
Qed.

End Sorting.

(** ** internal/catalog: [Load] *)

Section Catalog.

Import catalog.

(** An entry [Load] accepts: [repo] and [asset_pattern] are there. What
    [bin] and [packages] hold is not looked at. *)
Definition valid (p : Program) : Prop := Repo p <> "" /\ AssetPattern p <> "".

(** The program [Load] makes of an entry: its name is the key. *)
Definition named (e : string * Program) : Program := set_Name (fst e) (snd e).

#[local] Instance valid_dec (p : Program) : Decision (valid p).
Proof. unfold valid. apply _. Defined.

Lemma fieldErrs_none (p : Program) :
  valid p <-> (0 <? length (fieldErrs p))%nat = false.
Proof.
  unfold valid, fieldErrs.
  destruct (String.eqb (Repo p) "") eqn:E1; destruct (String.eqb (AssetPattern p) "") eqn:E2;
    simpl; split; try discriminate; try reflexivity;
    try (intros [H1 H2]; try apply String.eqb_eq in E1; try apply String.eqb_eq in E2;
         contradiction).
  intros _. split; apply String.eqb_neq; assumption.
Qed.

Lemma valid_named (e : string * Program) : valid (named e) <-> valid (snd e).
Proof. destruct e as [name p]. reflexivity. Qed.

Lemma validate_all (entries : list (string * Program)) (errs : list string)
    (ps : list Program) :
  Forall (fun e => valid (snd e)) entries ->
  validate entries errs ps = (errs, ps ++ map named entries).
Proof.
  revert ps. induction entries as [|[name p] rest IH]; intros ps Hall; simpl.
  - rewrite app_nil_r. reflexivity.
  - inversion Hall as [|? ? Hv Hrest]; subst.
    apply (valid_named (name, p)) in Hv. apply fieldErrs_none in Hv.
    unfold named in Hv. simpl in Hv. rewrite Hv.
    rewrite (IH _ Hrest), <- app_assoc. reflexivity.
Qed.

Lemma validate_errs (entries : list (string * Program)) (errs : list string)
    (ps : list Program) :
  (length errs <= length (fst (validate entries errs ps)))%nat /\
  (~ Forall (fun e => valid (snd e)) entries ->
   (length errs < length (fst (validate entries errs ps)))%nat).
Proof.
  revert errs ps. induction entries as [|[name p] rest IH]; intros errs ps; simpl.
  - split; [lia|]. intros H. exfalso. apply H. constructor.
  - destruct (0 <? length (fieldErrs (set_Name name p)))%nat eqn:E.
    + destruct (IH (errs ++ ["[" +:+ name +:+ "]: "
                               +:+ String.concat ", " (fieldErrs (set_Name name p))]) ps)
        as [H1 _].
      rewrite length_app in H1. simpl in H1. split; [lia | intros _; lia].
    + destruct (IH errs (ps ++ [set_Name name p])) as [H1 H2].
      split; [exact H1|]. intros Hn. apply H2. intros Hrest. apply Hn.
      constructor; [|exact Hrest].
      apply (valid_named (name, p)). apply fieldErrs_none. exact E.
Qed.

Lemma Load_valid (entries : list (string * Program)) :
  Forall (fun e => valid (snd e)) entries ->
  Load (Ok entries) = Programs (GoSort.Slice (by_key Name) (map named entries)).
Proof.
  intros H. unfold Load. rewrite (validate_all _ _ _ H). reflexivity.
Qed.

Lemma Load_invalid (entries : list (string * Program)) :
  ~ Forall (fun e => valid (snd e)) entries ->
  exists msg, Load (Ok entries) = LoadError (ValidationErrors msg).
Proof.
  intros H. unfold Load.
  destruct (validate_errs entries [] []) as [_ Hlt]. specialize (Hlt H).
  destruct (validate entries [] []) as [errs ps]. simpl in Hlt.
  destruct (0 <? length errs)%nat eqn:E; [eexists; reflexivity|].
  apply Nat.ltb_ge in E. lia.
Qed.

Lemma named_keys (entries : list (string * Program)) :
  map Name (map named entries) = map fst entries.
Proof.
  induction entries as [|[name p] rest IH]; [reflexivity|].
  simpl. rewrite IH. reflexivity.
Qed.

(** X16. What [Load] returns. When every entry of the catalog has a
    [repo] and an [asset_pattern], [Load] returns the programs: one for
    each entry and no other, each with its table key as name, in
    ascending order of the names. An entry without [bin] or [packages] is
    accepted as it is. When some entry lacks [repo] or [asset_pattern],
    [Load] returns the validation error and no program. *)
Theorem Load_validated_sorted (entries : list (string * Program)) :
  List.NoDup (map fst entries) ->
  (Forall (fun e => valid (snd e)) entries ->
   exists ps,
     Load (Ok entries) = Programs ps /\
     Permutation ps (map named entries) /\
     ascending Name ps /\
     Forall valid ps) /\
  (~ Forall (fun e => valid (snd e)) entries ->
   exists msg, Load (Ok entries) = LoadError (ValidationErrors msg)).
Proof.
  intros Hn. split; [|apply Load_invalid].
  intros Hv. eexists. split; [apply Load_valid; exact Hv|].
  split; [apply Slice_Permutation|].
  split.
  - apply Slice_ascending. rewrite named_keys. exact Hn.
  - rewrite Forall_forall. intros p Hp.
    apply list_elem_of_In in Hp.
    eapply Permutation_in in Hp; [|apply Slice_Permutation].
    apply in_map_iff in Hp as (e & <- & He).
    apply valid_named. rewrite Forall_forall in Hv. apply Hv.
    apply list_elem_of_In. exact He.
Qed.

(** X17. The order in which Go walks over the map of the catalog does not
    show in the programs [Load] returns: two walks over the same entries
    give the same slice, or both give a validation error. (The text of
    the error lists the entries in the order of the walk.) *)
Theorem Load_any_order (entries entries' : list (string * Program)) :
  List.NoDup (map fst entries) ->
  Permutation entries entries' ->
  match Load (Ok entries), Load (Ok entries') with
  | Programs ps, Programs ps' => ps = ps'
  | LoadError (ValidationErrors _), LoadError (ValidationErrors _) => True
  | _, _ => False
  end.
Proof.
  intros Hn Hp.
  assert (Hn' : List.NoDup (map fst entries')).
  { eapply Permutation_NoDup; [|exact Hn]. apply Permutation_map. exact Hp. }
  destruct (decide (Forall (fun e : string * Program => valid (snd e)) entries))
    as [Hv | Hv].
  - assert (Hv' : Forall (fun e => valid (snd e)) entries').
    { rewrite <- Hp. exact Hv. }
    rewrite (Load_valid _ Hv), (Load_valid _ Hv').
    apply (ascending_unique Name).
    + apply Slice_ascending. rewrite named_keys. exact Hn.
    + apply Slice_ascending. rewrite named_keys. exact Hn'.
    + rewrite !Slice_Permutation. apply Permutation_map. exact Hp.
  - assert (Hv' : ~ Forall (fun e => valid (snd e)) entries').
    { intros H. apply Hv. rewrite Hp. exact H. }
    destruct (Load_invalid _ Hv) as [msg ->].
    destruct (Load_invalid _ Hv') as [msg' ->]. exact I.
Qed.

End Catalog.

(** ** internal/system: the base directories *)

Section BaseDirs.

Context {um : OS.Umask}.

Lemma follow_mono (fuel : nat) (fs fs' : gmap string node) (p q : string) (n : node) :
  fs ⊆ fs' -> OS.follow fuel fs p = Ok q -> fs !! q = Some n ->
  OS.follow fuel fs' p = Ok q.
Proof.
  intros Hsub. revert p. induction fuel as [|k IH]; intros p H Hq; simpl in *.
  - destruct (fs !! p) as [[| |]|] eqn:E; inversion H; subst; try congruence;
      rewrite (lookup_weaken _ _ _ _ E Hsub); reflexivity.
  - destruct (fs !! p) as [[|t|]|] eqn:E.
    + inversion H; subst. rewrite (lookup_weaken _ _ _ _ E Hsub). reflexivity.
    + rewrite (lookup_weaken _ _ _ _ E Hsub). apply IH; assumption.
    + inversion H; subst. rewrite (lookup_weaken _ _ _ _ E Hsub). reflexivity.
    + inversion H; subst. congruence.
Qed.

(** What a name leads to stays what it is when entries are added. *)
Lemma Stat_mono (fs fs' : gmap string node) (p : string) (n : node) :
  fs ⊆ fs' -> OS.Stat fs p = Ok n -> OS.Stat fs' p = Ok n.
Proof.
  intros Hsub. unfold OS.Stat, OS.resolve.
  destruct (OS.follow 40 fs p) as [q|e] eqn:Ef; [|discriminate].
  destruct (fs !! q) as [n0|] eqn:Eq; [|discriminate].
  intros Hn; inversion Hn; subst.
  rewrite (follow_mono _ _ _ _ _ _ Hsub Ef Eq), (lookup_weaken _ _ _ _ Eq Hsub).
  reflexivity.
Qed.

Lemma is_dir_mono (fs fs' : gmap string node) (p : string) :
  fs ⊆ fs' -> OS.is_dir fs p = true -> OS.is_dir fs' p = true.
Proof.
  intros Hsub. unfold OS.is_dir.
  destruct (OS.Stat fs p) as [[| |m]|] eqn:E; try discriminate.
  rewrite (Stat_mono _ _ _ _ Hsub E). reflexivity.
Qed.

Lemma mkdirs_dirs (ps : list string) (fs fs' : gmap string node) (perm : N) :
  OS.mkdirs fs ps perm = Ok fs' ->
  fs ⊆ fs' /\
  Forall (fun p => OS.is_dir fs' p = true) ps /\
  (forall q, fs !! q = None ->
             fs' !! q = None \/ fs' !! q = Some (Directory (OS.create_mode perm))).
Proof.
  revert fs. induction ps as [|p rest IH]; intros fs; simpl.
  - intros H; inversion H; subst. split; [reflexivity|]. split; [constructor | auto].
  - destruct (OS.Stat fs p) as [[d m| |m]|e] eqn:Es; try discriminate; intros H.
    + destruct (IH _ H) as (Hsub & Hall & Hnew).
      split; [exact Hsub|]. split; [|exact Hnew].
      constructor; [|exact Hall].
      eapply is_dir_mono; [exact Hsub|]. unfold OS.is_dir. rewrite Es. reflexivity.
    + unfold OS.Mkdir in H. destruct (fs !! p) eqn:Ep; [discriminate|].
      destruct (OS.creatable fs p); [|discriminate].
      destruct (IH _ H) as (Hsub & Hall & Hnew).
      assert (Hsub1 : fs ⊆ <[p := Directory (OS.create_mode perm)]> fs)
        by (apply insert_subseteq; exact Ep).
      split; [etransitivity; eassumption|]. split.
      * constructor; [|exact Hall].
        eapply is_dir_mono; [exact Hsub|].
        eapply is_dir_here. apply lookup_insert_eq.
      * intros q0 H0. destruct (decide (p = q0)) as [->|Hne].
        -- right. eapply lookup_weaken; [apply lookup_insert_eq | exact Hsub].
        -- apply Hnew. rewrite lookup_insert_ne by exact Hne. exact H0.
Qed.

Lemma mkdirs_again (ps : list string) (fs : gmap string node) (perm : N) :
  Forall (fun p => OS.is_dir fs p = true) ps -> OS.mkdirs fs ps perm = Ok fs.
Proof.
  induction 1 as [|p rest Hp _ IH]; simpl; [reflexivity|].
  unfold OS.is_dir in Hp.
  destruct (OS.Stat fs p) as [[| |m]|]; try discriminate. exact IH.
Qed.

(** The elements [Clean] keeps are not empty and hold no separator. *)
Definition element (e : string) : Prop := slashless e = true /\ e <> "".

Lemma clean_step_element (root : bool) (stack : list string) (e : string) :
  Forall element stack -> slashless e = true ->
  Forall element (GoPath.clean_step root stack e).
Proof.
  intros Hs He. unfold GoPath.clean_step.
  destruct (String.eqb e "") eqn:E1; [exact Hs|].
  destruct (String.eqb e ".") eqn:E2; [exact Hs|].
  assert (Hel : element e) by (split; [exact He | apply String.eqb_neq; exact E1]).
  destruct (String.eqb e "..") eqn:E3.
  - destruct stack as [|top rest].
    + destruct root; constructor; [exact Hel | constructor].
    + destruct (String.eqb top ".."); [constructor; assumption|].
      inversion Hs; assumption.
  - constructor; assumption.
Qed.

Lemma fold_element (root : bool) (l stack : list string) :
  Forall element stack -> Forall (fun e => slashless e = true) l ->
  Forall element (fold_left (GoPath.clean_step root) l stack).
Proof.
  revert stack. induction l as [|e l IH]; intros stack Hs Hl; [exact Hs|].
  inversion Hl; subst. simpl. apply IH; [|assumption].
  apply clean_step_element; assumption.
Qed.

Lemma kept_element (path : string) : Forall element (kept path).
Proof.
  unfold kept. apply Forall_rev. apply fold_element; [constructor|].
  apply split_go_slashless. reflexivity.
Qed.

Lemma ancestors_go_last (l : list string) (pre : string) :
  l <> [] -> Forall element l ->
  In (pre +:+ String.concat "/" l) (OS.ancestors_go pre l).
Proof.
  revert pre. induction l as [|e l IH]; intros pre Hne Hl; [congruence|].
  inversion Hl as [|? ? [_ He] Hrest]; subst. simpl.
  apply String.eqb_neq in He. rewrite He.
  destruct l as [|e2 l].
  - left. reflexivity.
  - right.
    change (String.concat "/" (e :: e2 :: l))
      with (e +:+ String GoPath.slash (String.concat "/" (e2 :: l))).
    specialize (IH ((pre +:+ e) +:+ "/") ltac:(congruence) Hrest).
    rewrite !append_assoc in IH. rewrite !append_assoc. exact IH.
Qed.

Lemma slashless_not_rooted (e rest : string) :
  element e -> GoPath.rooted (e +:+ rest) = false.
Proof.
  intros [Hs He]. destruct e as [|c e]; [congruence|].
  simpl in *. destruct (Ascii.eqb c GoPath.slash); [discriminate | reflexivity].
Qed.

(** [MkdirAll] of a cleaned path ends with the path itself. *)
Lemma render_in_ancestors (root : bool) (l : list string) :
  l <> [] -> Forall element l ->
  In (render root l) (OS.ancestors (render root l)).
Proof.
  intros Hne Hl. unfold OS.ancestors.
  assert (Hsl : Forall (fun e => slashless e = true) l).
  { eapply Forall_impl; [exact Hl|]. intros e [He _]. exact He. }
  assert (Hbody : String.concat "/" l <> "").
  { destruct l as [|e l]; [congruence|].
    inversion Hl as [|? ? [_ He] _]; subst. apply concat_nonempty. exact He. }
  destruct root.
  - change (render true l) with (String GoPath.slash (String.concat "/" l)).
    change (GoPath.rooted (String GoPath.slash (String.concat "/" l))) with true.
    change (GoPath.split (String GoPath.slash (String.concat "/" l)))
      with ("" :: GoPath.split (String.concat "/" l)).
    rewrite split_concat by assumption.
    change (OS.ancestors_go "/" ("" :: l)) with (OS.ancestors_go "/" l).
    apply (ancestors_go_last l "/"); assumption.
  - unfold render. apply String.eqb_neq in Hbody. rewrite Hbody.
    assert (Hr : GoPath.rooted (String.concat "/" l) = false).
    { destruct l as [|e [|e2 l]]; [congruence| |].
      - inversion Hl; subst. rewrite <- (append_empty_r e).
        apply slashless_not_rooted. assumption.
      - inversion Hl; subst. apply slashless_not_rooted. assumption. }
    rewrite Hr, split_concat by assumption.
    apply (ancestors_go_last l ""); assumption.
Qed.

(** A directory below the home directory, as [SharePath] and [BinPath]
    build it. *)
Lemma Join_home (home : string) (names : list string) :
  names <> [] -> Forall ordinary names ->
  exists root l,
    GoPath.Join [home; String.concat "/" names] = render root l /\
    l <> [] /\ Forall element l.
Proof.
  intros Hne Hn.
  assert (Hsl : Forall (fun e => slashless e = true) names)
    by (apply ordinary_slashless; exact Hn).
  assert (Hel : Forall element names).
  { eapply Forall_impl; [exact Hn|]. intros e (H1 & H2 & _). split; assumption. }
  assert (Hbody : String.concat "/" names <> "").
  { destruct names as [|e l]; [congruence|].
    inversion Hel as [|? ? [_ He] _]; subst. apply concat_nonempty. exact He. }
  unfold GoPath.Join. destruct (decide (home = "")) as [->|Hh].
  - rewrite filter_cons_False by (intros H; apply H; reflexivity).
    rewrite filter_cons_True by exact Hbody. rewrite filter_nil.
    cbn [String.concat]. rewrite Clean_render.
    exists (GoPath.rooted (String.concat "/" names)), (kept (String.concat "/" names)).
    split; [reflexivity|]. split; [|apply kept_element].
    unfold kept. rewrite split_concat by assumption.
    rewrite fold_ordinary by exact Hn. rewrite app_nil_r, rev_involutive. exact Hne.
  - rewrite filter_cons_True by exact Hh.
    rewrite filter_cons_True by exact Hbody. rewrite filter_nil.
    change (String.concat "/" [home; String.concat "/" names])
      with (home +:+ String GoPath.slash (String.concat "/" names)).
    rewrite Clean_render.
    exists (GoPath.rooted (home +:+ String GoPath.slash (String.concat "/" names))),
           (kept (home +:+ String GoPath.slash (String.concat "/" names))).
    split; [reflexivity|]. split; [|apply kept_element].
    unfold kept. unfold GoPath.split at 1. rewrite split_go_app.
    rewrite split_concat by assumption.
    rewrite fold_left_app, fold_ordinary by exact Hn.
    rewrite rev_app_distr, rev_involutive.
    intros H. apply app_eq_nil in H as [_ H]. congruence.
Qed.

Lemma base_dir_in_ancestors (home : string) (names : list string) :
  names <> [] -> Forall ordinary names ->
  In (GoPath.Join [home; String.concat "/" names])
     (OS.ancestors (GoPath.Join [home; String.concat "/" names])).
Proof.
  intros Hne Hn. destruct (Join_home home names Hne Hn) as (root & l & -> & Hl & He).
  apply render_in_ancestors; assumption.
Qed.

Lemma MkdirAll_dirs (fs fs' : gmap string node) (p : string) (perm : N) :
  OS.MkdirAll fs p perm = Ok fs' ->
  p <> "" /\ OS.mkdirs fs (OS.ancestors p) perm = Ok fs'.
Proof.
  unfold OS.MkdirAll. destruct (String.eqb p "") eqn:E; [discriminate|].
  intros Hm. split; [apply String.eqb_neq; exact E | exact Hm].
Qed.

Lemma MkdirAll_dir (fs fs' : gmap string node) (p : string) (perm : N) :
  In p (OS.ancestors p) -> OS.MkdirAll fs p perm = Ok fs' -> OS.is_dir fs' p = true.
Proof.
  intros Hin Hm. apply MkdirAll_dirs in Hm as [_ Hm].
  destruct (mkdirs_dirs _ _ _ _ Hm) as (_ & Hall & _).
  rewrite Forall_forall in Hall. apply Hall. apply list_elem_of_In. exact Hin.
Qed.

Lemma ordinary_local_share : Forall ordinary [".local"; "share"].
Proof.
  repeat constructor; discriminate.
Qed.

Lemma ordinary_local_bin : Forall ordinary [".local"; "bin"].
Proof.
  repeat constructor; discriminate.
Qed.

(** X18. [EnsureBaseDirs], when it returns nil: [~/.local/share] and
    [~/.local/bin] lead to directories; every entry that was there before
    is unchanged; whatever is new is a directory of mode 0755 less the
    umask; and a second call returns nil and changes nothing. *)
Theorem EnsureBaseDirs_creates (home : string) (fs fs' : gmap string node) :
  system.EnsureBaseDirs home fs = (fs', None) ->
  OS.is_dir fs' (system.SharePath home) = true /\
  OS.is_dir fs' (system.BinPath home) = true /\
  fs ⊆ fs' /\
  (forall q, fs !! q = None ->
             fs' !! q = None \/
             fs' !! q = Some (Directory (OS.create_mode OS.perm_0755))) /\
  system.EnsureBaseDirs home fs' = (fs', None).
Proof.
  unfold system.EnsureBaseDirs. cbn [system.ensure_dirs].
  destruct (OS.MkdirAll fs (system.SharePath home) OS.perm_0755) as [fs1|e1] eqn:E1;
    [|discriminate].
  destruct (OS.MkdirAll fs1 (system.BinPath home) OS.perm_0755) as [fs2|e2] eqn:E2;
    [|discriminate].
  intros H; inversion H; subst fs2; clear H.
  destruct (MkdirAll_dirs _ _ _ _ E1) as (Hn1 & M1).
  destruct (MkdirAll_dirs _ _ _ _ E2) as (Hn2 & M2).
  destruct (mkdirs_dirs _ _ _ _ M1) as (Hsub1 & Hall1 & Hnew1).
  destruct (mkdirs_dirs _ _ _ _ M2) as (Hsub2 & Hall2 & Hnew2).
  assert (Hshare : OS.is_dir fs' (system.SharePath home) = true).
  { eapply is_dir_mono; [exact Hsub2|].
    eapply MkdirAll_dir; [|exact E1].
    apply (base_dir_in_ancestors home [".local"; "share"]);
      [discriminate | apply ordinary_local_share]. }
  assert (Hbin : OS.is_dir fs' (system.BinPath home) = true).
  { eapply MkdirAll_dir; [|exact E2].
    apply (base_dir_in_ancestors home [".local"; "bin"]);
      [discriminate | apply ordinary_local_bin]. }
  split; [exact Hshare|]. split; [exact Hbin|].
  split; [etransitivity; eassumption|]. split.
  - intros q Hq. destruct (Hnew1 q Hq) as [H1 | H1].
    + apply Hnew2. exact H1.
    + right. eapply lookup_weaken; eassumption.
  - unfold OS.MkdirAll.
    apply String.eqb_neq in Hn1. apply String.eqb_neq in Hn2. rewrite Hn1, Hn2.
    rewrite mkdirs_again.
    + rewrite mkdirs_again; [reflexivity|]. exact Hall2.
    + eapply Forall_impl; [exact Hall1|]. intros p. apply is_dir_mono. exact Hsub2.
Qed.

End BaseDirs.

(** ** tui: the pre-flight check *)

Section Preflight.

Import catalog.

Lemma CheckPackages_from (found : string -> bool) (l acc : list string) :
  fold_left (fun missing pkg => if found pkg then missing else missing ++ [pkg]) l acc
  = acc ++ List.filter (fun pkg => negb (found pkg)) l.
Proof.
  revert acc. induction l as [|x l IH]; intros acc; simpl.
  - rewrite app_nil_r. reflexivity.
  - rewrite IH. destruct (found x); simpl; [reflexivity|].
    rewrite <- app_assoc. reflexivity.
Qed.

Lemma CheckPackages_filter (found : string -> bool) (l : list string) :
  system.CheckPackages found l = List.filter (fun pkg => negb (found pkg)) l.
Proof. unfold system.CheckPackages. apply CheckPackages_from. Qed.

(** [seen] holds exactly the packages gathered so far, none of them
    twice. *)
Definition gathered (seen : gset string) (all : list string) : Prop :=
  List.NoDup all /\ forall x, x ∈ seen <-> In x all.

Lemma add_packages_gathered (pkgs : list string) (seen : gset string)
    (all : list string) :
  gathered seen all ->
  gathered (fst (tui.add_packages pkgs seen all)) (snd (tui.add_packages pkgs seen all)) /\
  forall x, In x (snd (tui.add_packages pkgs seen all)) <-> In x all \/ In x pkgs.
Proof.
  revert seen all. induction pkgs as [|pkg rest IH]; intros seen all Hg; simpl.
  - split; [exact Hg|]. intros x. tauto.
  - destruct (decide (pkg ∈ seen)) as [Hin | Hout].
    + destruct (IH _ _ Hg) as [H1 H2]. split; [exact H1|].
      intros x. rewrite H2. split; [tauto|].
      intros [H | [<- | H]]; auto. left. apply Hg. exact Hin.
    + assert (Hg' : gathered ({[pkg]} ∪ seen) (all ++ [pkg])).
      { destruct Hg as [Hnd Hs]. split.
        - apply NoDup_ListNoDup, NoDup_app.
          split; [apply NoDup_ListNoDup; exact Hnd|]. split; [|apply NoDup_singleton].
          intros x Hx Hx'. apply list_elem_of_singleton in Hx'. subst x.
          apply Hout. apply Hs. apply list_elem_of_In. exact Hx.
        - intros x. rewrite elem_of_union, elem_of_singleton, in_app_iff, (Hs x).
          simpl. intuition (subst; auto). }
      destruct (IH _ _ Hg') as [H1 H2]. split; [exact H1|].
      intros x. rewrite H2, in_app_iff. simpl. tauto.
Qed.

Lemma gather_gathered (selected : list Program) (seen : gset string)
    (all : list string) :
  gathered seen all ->
  List.NoDup (snd (tui.gather selected seen all)) /\
  forall x, In x (snd (tui.gather selected seen all))
            <-> In x all \/ exists p, In p selected /\ In x (Packages p).
Proof.
  revert seen all. induction selected as [|p rest IH]; intros seen all Hg; simpl.
  - split; [apply Hg|]. intros x. split; [tauto|].
    intros [H | (p & [] & _)]. exact H.
  - destruct (add_packages_gathered (Packages p) seen all Hg) as [Hg1 Hin1].
    destruct (tui.add_packages (Packages p) seen all) as [seen1 all1]. simpl in *.
    destruct (IH _ _ Hg1) as [Hnd Hin]. split; [exact Hnd|].
    intros x. rewrite Hin, Hin1. split.
    + intros [[H | H] | (q & Hq & Hx)]; eauto.
    + intros [H | (q & [<- | Hq] & Hx)]; eauto.
Qed.

Lemma allPackages_spec (selected : list Program) :
  List.NoDup (tui.allPackages selected) /\
  forall x, In x (tui.allPackages selected)
            <-> exists p, In p selected /\ In x (Packages p).
Proof.
  unfold tui.allPackages.
  destruct (gather_gathered selected ∅ []) as [Hnd Hin].
  { split; [constructor|]. intros x. rewrite elem_of_empty. simpl. tauto. }
  split; [exact Hnd|]. intros x. rewrite Hin. simpl. tauto.
Qed.

(** X19. Between the selection and the installer. With nothing selected
    the program quits. Otherwise [installer.Run] is started, with the
    selected programs, exactly when every package that a selected program
    names is found on the PATH; if not, the pre-flight screen lists the
    packages that are needed and not found, each of them once, and no
    installer is started. *)
Theorem preflight_decides (found : string -> bool) (selected : list Program) :
  let needed (pkg : string) := exists p, In p selected /\ In pkg (Packages p) in
  (selected = [] -> tui.confirm found selected = tui.Quit) /\
  (selected <> [] ->
   ((forall pkg, needed pkg -> found pkg = true) ->
    tui.confirm found selected = tui.Launch selected (map Name selected)) /\
   (~ (forall pkg, needed pkg -> found pkg = true) ->
    exists missing,
      tui.confirm found selected = tui.Preflight missing /\
      missing <> [] /\ List.NoDup missing /\
      forall pkg, In pkg missing <-> needed pkg /\ found pkg = false)).
Proof.
  intros needed. split; [intros ->; reflexivity|]. intros Hsel.
  destruct (allPackages_spec selected) as [Hnd Hin]. fold needed in Hin.
  unfold tui.confirm.
  assert (Hlen : (length selected =? 0)%nat = false)
    by (destruct selected; [congruence | reflexivity]).
  rewrite Hlen, CheckPackages_filter.
  set (missing := List.filter (fun pkg => negb (found pkg)) (tui.allPackages selected)).
  assert (Hm : forall pkg, In pkg missing <-> needed pkg /\ found pkg = false).
  { intros pkg. unfold missing. rewrite List.filter_In, Hin, negb_true_iff. reflexivity. }
  split.
  - intros Hall. destruct missing as [|x l] eqn:Em; [reflexivity|]. exfalso.
    destruct (proj1 (Hm x) (or_introl eq_refl)) as [Hx Hf].
    rewrite (Hall x Hx) in Hf. discriminate.
  - intros Hnot. exists missing. destruct missing as [|x l] eqn:Em.
    + exfalso. apply Hnot. intros pkg Hp.
      destruct (found pkg) eqn:Ef; [reflexivity|]. exfalso.
      apply (proj2 (Hm pkg)). split; assumption.
    + split; [reflexivity|]. split; [discriminate|]. split; [|exact Hm].
      rewrite <- Em. unfold missing. apply List.NoDup_filter. exact Hnd.
Qed.

End Preflight.

(** ** tui: the selector *)

Section Selector.

Import catalog tui.selector.

Variable ps : list Program.
Hypothesis names_differ : List.NoDup (map Name ps).

Definition item (v : bool) (p : Program) : programItem :=
  {| program := p; item_selected := v |}.

(** The check boxes show what the map says. *)
Definition boxes_agree (m : selectorModel) : Prop :=
  programs m = ps /\
  map program (items m) = ps /\
  forall i it, items m !! i = Some it ->
               item_selected it = is_selected m (program it).

Lemma boxes_agree_new : boxes_agree (newSelectorModel ps).
Proof.
  unfold boxes_agree, newSelectorModel. cbn [programs items].
  split; [reflexivity|]. split.
  - rewrite map_map. cbn [program]. apply map_id.
  - intros i it Hi. apply list_lookup_fmap_Some in Hi as (p & -> & _). reflexivity.
Qed.

Lemma names_at (m : selectorModel) (i j : nat) (a b : programItem) :
  map program (items m) = ps ->
  items m !! i = Some a -> items m !! j = Some b ->
  Name (program a) = Name (program b) -> i = j.
Proof.
  intros Hmap Ha Hb Hn.
  apply NoDup_ListNoDup in names_differ.
  eapply (NoDup_lookup _ i j (Name (program a)) names_differ).
  - rewrite <- Hmap, map_map. rewrite list_lookup_fmap, Ha. reflexivity.
  - rewrite <- Hmap, map_map. rewrite list_lookup_fmap, Hb, Hn. reflexivity.
Qed.

Lemma boxes_agree_toggle (index : nat) (m : selectorModel) :
  boxes_agree m -> boxes_agree (toggle index m).
Proof.
  intros (Hp & Hmap & Hflags). unfold toggle.
  destruct (items m !! index) as [a|] eqn:Ea; [|split; [|split]; assumption].
  unfold boxes_agree. cbn [programs items].
  split; [exact Hp|]. split.
  - change (map program (<[index := {| program := program a;
                                        item_selected := negb (item_selected a) |}]>
                           (items m)))
      with (program <$> (<[index := {| program := program a;
                                      item_selected := negb (item_selected a) |}]>
                           (items m))).
    rewrite list_fmap_insert. cbn [program].
    rewrite list_insert_id; [exact Hmap|].
    rewrite list_lookup_fmap, Ea. reflexivity.
  - intros j b Hb. unfold is_selected. cbn [selected item_selected program].
    destruct (decide (index = j)) as [->|Hne].
    + rewrite list_lookup_insert_eq in Hb by (eapply lookup_lt_Some; exact Ea).
      inversion Hb; subst. cbn [program item_selected].
      rewrite lookup_insert_eq. reflexivity.
    + rewrite list_lookup_insert_ne in Hb by exact Hne.
      rewrite lookup_insert_ne.
      * apply Hflags in Hb. exact Hb.
      * intros Hn. apply Hne. eapply names_at; eassumption.
Qed.

Lemma set_all_items (v : bool) (l : list Program) (idx : nat)
    (its : list programItem) (sel : gmap string bool) :
  (idx + length l <= length its)%nat ->
  fst (set_all idx l v its sel)
  = take idx its ++ map (item v) l ++ drop (idx + length l) its.
Proof.
  revert idx its sel. induction l as [|p rest IH]; intros idx its sel Hlen; simpl.
  - rewrite Nat.add_0_r, take_drop. reflexivity.
  - simpl in Hlen. rewrite IH by (rewrite length_insert; lia).
    rewrite (take_S_r _ idx (item v p))
      by (apply list_lookup_insert_eq; lia).
    rewrite take_insert_ge by lia.
    rewrite drop_insert_lt by lia.
    rewrite <- app_assoc. cbn [app].
    replace (S idx + length rest)%nat with (idx + S (length rest))%nat by lia.
    reflexivity.
Qed.

Lemma set_all_selected (v : bool) (l : list Program) (idx : nat)
    (its : list programItem) (sel : gmap string bool) (k : string) :
  snd (set_all idx l v its sel) !! k
  = if decide (k ∈ map Name l) then Some v else sel !! k.
Proof.
  revert idx its sel. induction l as [|p rest IH]; intros idx its sel; simpl.
  - destruct (decide (k ∈ [])) as [H | _]; [|reflexivity].
    apply elem_of_nil in H. contradiction.
  - rewrite IH. destruct (decide (k ∈ map Name rest)) as [Hin | Hout].
    + destruct (decide (k ∈ Name p :: map Name rest)) as [_ | H]; [reflexivity|].
      exfalso. apply H. right. exact Hin.
    + destruct (decide (Name p = k)) as [<- | Hne].
      * rewrite lookup_insert_eq.
        destruct (decide (Name p ∈ Name p :: map Name rest)) as [_ | H]; [reflexivity|].
        exfalso. apply H. left.
      * rewrite lookup_insert_ne by exact Hne.
        destruct (decide (k ∈ Name p :: map Name rest)) as [H | _]; [|reflexivity].
        apply elem_of_cons in H as [H | H]; [congruence | contradiction].
Qed.

Lemma boxes_agree_all (m : selectorModel) (v : bool) :
  boxes_agree m ->
  boxes_agree
    {| items := fst (set_all 0 (programs m) v (items m) (selected m));
       programs := programs m;
       selected := snd (set_all 0 (programs m) v (items m) (selected m));
       done := done m; quit := quit m |}.
Proof.
  intros (Hp & Hmap & Hflags).
  assert (Hlen : length (items m) = length ps).
  { rewrite <- (length_map program), Hmap. reflexivity. }
  assert (Hits : fst (set_all 0 (programs m) v (items m) (selected m)) = map (item v) ps).
  { rewrite set_all_items by (rewrite Hp; lia).
    rewrite Hp. cbn [take app Nat.add].
    rewrite drop_ge by lia. apply app_nil_r. }
  unfold boxes_agree. cbn [programs items]. rewrite Hits.
  split; [exact Hp|]. split.
  - rewrite map_map. cbn [program]. apply map_id.
  - intros i it Hi. apply list_lookup_fmap_Some in Hi as (p & -> & Hi).
    unfold is_selected. cbn [selected item program item_selected].
    rewrite set_all_selected, Hp.
    destruct (decide (Name p ∈ map Name ps)) as [_ | Hout]; [reflexivity|].
    exfalso. apply Hout. apply list_elem_of_In, in_map, list_elem_of_In.
    eapply list_elem_of_lookup_2. exact Hi.
Qed.

Lemma boxes_agree_Update (index : nat) (key : string) (m : selectorModel) :
  boxes_agree m -> boxes_agree (Update index key m).
Proof.
  intros H. unfold Update.
  destruct (String.eqb key "q" || String.eqb key "ctrl+c"); [exact H|].
  destruct (String.eqb key " "); [apply boxes_agree_toggle; exact H|].
  destruct (String.eqb key "a").
  { pose proof (boxes_agree_all m
                  (negb (size (selected m) =? length (programs m))%nat) H) as Ha.
    destruct (set_all 0 (programs m) _ (items m) (selected m)) as [its sel].
    exact Ha. }
  destruct (String.eqb key "enter"); exact H.
Qed.

Lemma boxes_agree_press (keys : list (nat * string)) (m : selectorModel) :
  boxes_agree m -> boxes_agree (press m keys).
Proof.
  revert m. induction keys as [|k keys IH]; intros m H; [exact H|].
  apply IH. apply boxes_agree_Update. exact H.
Qed.

Lemma filter_boxes (m : selectorModel) (its : list programItem) :
  (forall i it, its !! i = Some it -> item_selected it = is_selected m (program it)) ->
  map program (List.filter item_selected its)
  = List.filter (is_selected m) (map program its).
Proof.
  induction its as [|a its IH]; intros H; [reflexivity|]. simpl.
  rewrite <- (H 0%nat a eq_refl).
  rewrite <- IH by (intros i it Hi; apply (H (S i)); exact Hi).
  destruct (item_selected a); reflexivity.
Qed.

(** X20. What is installed is what is shown checked. After any keys (the
    space bar at any position of the cursor, [a], enter, [q]) the programs
    that [selectedPrograms] returns are exactly the programs of the items
    whose box is checked, in the order of the catalog; and the list still
    shows every program of the catalog once, in that order. *)
Theorem checked_are_selected (keys : list (nat * string)) :
  let m := press (newSelectorModel ps) keys in
  selectedPrograms m = map program (List.filter item_selected (items m)) /\
  map program (items m) = ps /\
  programs m = ps.
Proof.
  intros m.
  destruct (boxes_agree_press keys _ boxes_agree_new) as (Hp & Hmap & Hflags).
  fold m in Hp, Hmap, Hflags.
  split; [|split; assumption].
  unfold selectedPrograms. rewrite (filter_boxes m _ Hflags), Hmap, Hp. reflexivity.
Qed.

Lemma filter_const (v : bool) (m : selectorModel) (l : list Program) :
  (forall p, In p l -> is_selected m p = v) ->
  List.filter (is_selected m) l = if v then l else [].
Proof.
  induction l as [|p l IH]; intros H; simpl.
  - destruct v; reflexivity.
  - rewrite (H p (or_introl eq_refl)), IH by (intros q Hq; apply H; right; exact Hq).
    destruct v; reflexivity.
Qed.

(** X21. The key [a] counts the entries of the map, not the boxes that
    are checked. After any keys, [a] selects every program when the map
    [selected] has fewer entries than there are programs, and clears the
    selection when it has as many: that is, as soon as every program has
    been toggled at least once, whether or not any is selected now. *)
Theorem select_all_counts_entries (keys : list (nat * string)) (index : nat) :
  let m := press (newSelectorModel ps) keys in
  selectedPrograms (Update index "a" m)
  = if (size (selected m) =? length ps)%nat then [] else ps.
Proof.
  intros m.
  destruct (boxes_agree_press keys _ boxes_agree_new) as (Hp & _ & _).
  fold m in Hp.
  unfold Update. cbn [String.eqb Ascii.eqb Bool.eqb orb].
  rewrite Hp.
  pose proof (fun k => set_all_selected (negb (size (selected m) =? length ps)%nat)
                         ps 0 (items m) (selected m) k) as Hsel.
  destruct (set_all 0 ps _ (items m) (selected m)) as [its sel].
  cbn [snd] in Hsel.
  unfold selectedPrograms. cbn [programs].
  rewrite (filter_const (negb (size (selected m) =? length ps)%nat)).
  - destruct (size (selected m) =? length ps)%nat; reflexivity.
  - intros p Hp'. unfold is_selected. cbn [selected]. rewrite Hsel.
    destruct (decide (Name p ∈ map Name ps)) as [_ | Hout]; [reflexivity|].
    exfalso. apply Hout. apply list_elem_of_In, in_map. exact Hp'.
Qed.

End Selector.

(** ** tui: the picker *)

Section Picker.

Import catalog tui.picker.

Variable ReadDir : string -> list (string * bool).
Variable edit : string -> string -> string.

(** The cursor is on an entry, or at 0 in an empty directory. *)
Definition cursor_ok (m : pickerModel) : Prop :=
  (0 <= cursor m)%Z /\
  (cursor m < Z.of_nat (length (entries m)) \/ cursor m = 0)%Z.

Lemma cursor_ok_loadDir (m : pickerModel) : cursor_ok (loadDir ReadDir m).
Proof. unfold cursor_ok, loadDir. cbn [cursor]. split; [lia | right; reflexivity]. Qed.

Lemma updateBrowse_safe (key : string) (m : pickerModel) :
  cursor_ok m ->
  exists m', updateBrowse ReadDir key m = Some m' /\ cursor_ok m'.
Proof.
  intros [H0 Hc]. unfold updateBrowse.
  destruct (is_key key ["ctrl+c"; "q"]); [eexists; split; [reflexivity | split; assumption]|].
  destruct (is_key key ["up"; "k"]).
  { eexists. split; [reflexivity|].
    destruct (0 <? cursor m)%Z eqn:E; [|split; assumption].
    apply Z.ltb_lt in E. unfold cursor_ok, with_cursor. cbn [cursor entries].
    split; lia. }
  destruct (is_key key ["down"; "j"]).
  { eexists. split; [reflexivity|].
    destruct (cursor m <? Z.of_nat (length (entries m)) - 1)%Z eqn:E; [|split; assumption].
    apply Z.ltb_lt in E. unfold cursor_ok, with_cursor. cbn [cursor entries].
    split; lia. }
  destruct (is_key key ["enter"; "right"; "l"]).
  { destruct (length (entries m) =? 0)%nat eqn:El;
      [eexists; split; [reflexivity | split; assumption]|].
    apply Nat.eqb_neq in El. unfold at_cursor.
    assert (E : (cursor m <? 0)%Z = false) by (apply Z.ltb_ge; lia).
    rewrite E.
    destruct (lookup_lt_is_Some_2 (entries m) (Z.to_nat (cursor m))) as [e He]; [lia|].
    rewrite He. destruct (isDir e).
    - eexists. split; [reflexivity | apply cursor_ok_loadDir].
    - eexists. split; [reflexivity | split; assumption]. }
  destruct (is_key key ["left"; "h"]).
  { eexists. split; [reflexivity|].
    destruct (String.eqb (currentDir m) (installDir m));
      [split; assumption | apply cursor_ok_loadDir]. }
  destruct (is_key key ["d"; "D"]); eexists; (split; [reflexivity | split; assumption]).
Qed.

Lemma Update_safe (x : msg) (m : pickerModel) :
  cursor_ok m ->
  exists m', Update ReadDir edit x m = Some m' /\ cursor_ok m'.
Proof.
  intros H. unfold Update. destruct x as [key | w h];
    [|eexists; split; [reflexivity | exact H]].
  destruct (phase m).
  - apply updateBrowse_safe. exact H.
  - eexists. split; [reflexivity|]. unfold updateNaming.
    destruct (String.eqb key "ctrl+c"); [exact H|].
    destruct (String.eqb key "esc"); [exact H|].
    destruct (String.eqb key "enter"); exact H.
Qed.

(** X22. The picker never indexes outside its list. Whatever the
    directories hold and whatever keys are pressed and however the window is resized, from the model
    [newPickerModel] makes onwards, [m.entries[m.cursor]] is an entry
    whenever it is evaluated: the cursor is never negative, and it is on
    an entry unless the directory shown is empty. *)
Theorem picker_cursor_in_range (dir : string) (msgs : list msg) :
  exists m,
    feed ReadDir edit (newPickerModel ReadDir dir) msgs = Some m /\
    (0 <= cursor m)%Z /\
    (entries m <> [] -> (cursor m < Z.of_nat (length (entries m)))%Z).
Proof.
  assert (H : forall m0, cursor_ok m0 ->
            exists m, feed ReadDir edit m0 msgs = Some m /\ cursor_ok m).
  { induction msgs as [|key rest IH]; intros m0 H0; simpl.
    - eauto.
    - destruct (Update_safe key m0 H0) as (m1 & -> & H1). apply IH. exact H1. }
  destruct (H (newPickerModel ReadDir dir)) as (m & Hm & H0 & Hc);
    [unfold newPickerModel; apply cursor_ok_loadDir|].
  exists m. split; [exact Hm|]. split; [exact H0|].
  intros Hne. destruct Hc as [Hc | Hc]; [exact Hc|].
  destruct (entries m); [congruence|]. simpl. lia.
Qed.

(** X23. The cursor is always drawn. With the cursor on an entry, the
    lines that [viewBrowse] draws are entries of the list, the line of
    the cursor is among them, and there are at most [visibleLines] of
    them, of which there are never fewer than three, however small the
    window and however many binaries were added. *)
Theorem window_shows_cursor (m : pickerModel) :
  (0 <= cursor m < Z.of_nat (length (entries m)))%Z ->
  (0 <= fst (window m) <= cursor m)%Z /\
  (cursor m < snd (window m) <= Z.of_nat (length (entries m)))%Z /\
  (snd (window m) - fst (window m) <= visibleLines m)%Z /\
  (3 <= visibleLines m)%Z.
Proof.
  intros Hc.
  assert (Hv : (3 <= visibleLines m)%Z).
  { unfold visibleLines.
    destruct (_ <? 3)%Z eqn:E; [lia|]. apply Z.ltb_ge in E. exact E. }
  unfold window. cbn [fst snd].
  destruct (cursor m >=? visibleLines m)%Z eqn:E1;
    [apply Z.geb_le in E1 | rewrite Z.geb_leb in E1; apply Z.leb_gt in E1];
    destruct (_ >? Z.of_nat (length (entries m)))%Z eqn:E2;
    try (apply Z.gtb_lt in E2);
    try (rewrite Z.gtb_ltb in E2; apply Z.ltb_ge in E2);
    lia.
Qed.

Lemma strip_slashes_head (s : string) :
  GoPath.strip_slashes s = "" \/
  exists c t, GoPath.strip_slashes s = String c t /\ Ascii.eqb c GoPath.slash = false.
Proof.
  induction s as [|c s IH]; simpl; [left; reflexivity|].
  destruct (Ascii.eqb c GoPath.slash) eqn:E; [exact IH|].
  right. exists c, s. split; [reflexivity | exact E].
Qed.

Lemma rev_app_nonempty (s acc : string) : acc <> "" -> String.rev_app s acc <> "".
Proof.
  revert acc. induction s as [|c s IH]; intros acc H; simpl; [exact H|].
  apply IH. discriminate.
Qed.

Lemma Base_nonempty (p : string) : GoPath.Base p <> "".
Proof.
  unfold GoPath.Base. destruct (String.eqb p ""); [discriminate|].
  destruct (strip_slashes_head (String.rev p)) as [-> | (c & t & -> & Hc)];
    [discriminate|].
  cbn [String.eqb]. simpl GoPath.take_elem. rewrite Hc.
  unfold String.rev. simpl. apply rev_app_nonempty. discriminate.
Qed.

(** Every binary added so far has a link name. *)
Definition all_named (m : pickerModel) : Prop :=
  Forall (fun b => Dst b <> "") (added m).

Lemma all_named_loadDir (m : pickerModel) : all_named m -> all_named (loadDir ReadDir m).
Proof. intros H. exact H. Qed.

Lemma Update_named (x : msg) (m m' : pickerModel) :
  all_named m -> Update ReadDir edit x m = Some m' -> all_named m'.
Proof.
  intros H. unfold Update. destruct x as [key | w h];
    [|intros E; inversion E; exact H].
  destruct (phase m).
  - unfold updateBrowse.
    destruct (is_key key ["ctrl+c"; "q"]); [intros E; inversion E; exact H|].
    destruct (is_key key ["up"; "k"]).
    { intros E; inversion E. destruct (0 <? cursor m)%Z; exact H. }
    destruct (is_key key ["down"; "j"]).
    { intros E; inversion E. destruct (_ <? _)%Z; exact H. }
    destruct (is_key key ["enter"; "right"; "l"]).
    { destruct (length (entries m) =? 0)%nat; [intros E; inversion E; subst; exact H|].
      destruct (at_cursor m) as [e|]; [|discriminate].
      destruct (isDir e); intros E; inversion E; exact H. }
    destruct (is_key key ["left"; "h"]).
    { intros E; inversion E. destruct (String.eqb _ _); exact H. }
    destruct (is_key key ["d"; "D"]); intros E; inversion E; subst; exact H.
  - intros E; inversion E; clear E. unfold updateNaming.
    destruct (String.eqb key "ctrl+c"); [exact H|].
    destruct (String.eqb key "esc"); [exact H|].
    destruct (String.eqb key "enter"); [|exact H].
    unfold all_named. cbn [added]. apply Forall_app. split; [exact H|].
    constructor; [|constructor]. cbn [Dst].
    destruct (String.eqb (GoStrings.TrimSpace (input m)) "") eqn:Et.
    + apply Base_nonempty.
    + apply String.eqb_neq. exact Et.
Qed.

(** X24. Every binary the picker hands back has a name for its link.
    Whatever is typed into the name field, also nothing or blanks only,
    and whatever keys are pressed, no pair in [added] has an empty [Dst]:
    a blank name is replaced by the base name of the chosen file, which
    is never empty. *)
Theorem picked_bins_are_named (dir : string) (msgs : list msg) (m : pickerModel) :
  feed ReadDir edit (newPickerModel ReadDir dir) msgs = Some m ->
  Forall (fun b => Dst b <> "") (added m).
Proof.
  assert (H : forall m0, all_named m0 ->
            feed ReadDir edit m0 msgs = Some m -> all_named m).
  { induction msgs as [|key rest IH]; intros m0 H0; simpl.
    - intros E; inversion E; subst. exact H0.
    - destruct (Update ReadDir edit key m0) as [m1|] eqn:E1; [|discriminate].
      apply IH. eapply Update_named; eassumption. }
  apply H. constructor.
Qed.

End Picker.

(** ** Paths below a cleaned, rooted directory *)

Section Below.

Lemma rev_app_rev (s acc : string) : String.rev_app s acc = String.rev s +:+ acc.
Proof. unfold String.rev. rewrite rev_app_append. reflexivity. Qed.

Lemma rev_append (a b : string) :
  String.rev (a +:+ b) = String.rev b +:+ String.rev a.
Proof.
  induction a as [|c a IH].
  - simpl. rewrite append_empty_r. reflexivity.
  - rewrite append_cons. unfold String.rev at 1 3. simpl.
    rewrite !rev_app_rev, IH, append_assoc. reflexivity.
Qed.

Lemma rev_rev (s : string) : String.rev (String.rev s) = s.
Proof.
  induction s as [|c s IH]; [reflexivity|].
  unfold String.rev at 2. simpl. rewrite rev_app_rev, rev_append, IH. reflexivity.
Qed.

Lemma drop_elem_slashless (x y : string) :
  slashless x = true ->
  GoPath.drop_elem (x +:+ String GoPath.slash y) = String GoPath.slash y.
Proof.
  induction x as [|c x IH]; intros Hx.
  - reflexivity.
  - rewrite append_cons. simpl in *.
    destruct (Ascii.eqb c GoPath.slash); [discriminate|]. apply IH. exact Hx.
Qed.

(** The directory of a path whose last element is a name. *)
Lemma Dir_append (a n : string) :
  slashless n = true ->
  GoPath.Dir (a +:+ String GoPath.slash n) = GoPath.Clean (a +:+ "/").
Proof.
  intros Hn. unfold GoPath.Dir. f_equal.
  rewrite rev_append.
  change (String GoPath.slash n) with ("/" +:+ n).
  rewrite rev_append, append_assoc.
  change (String.rev "/") with "/".
  change ("/" +:+ String.rev a) with (String GoPath.slash (String.rev a)).
  rewrite drop_elem_slashless by (rewrite slashless_rev; exact Hn).
  change (String GoPath.slash (String.rev a)) with ("/" +:+ String.rev a).
  rewrite rev_append, rev_rev. reflexivity.
Qed.

Lemma concat_snoc (l : list string) (n : string) :
  l <> [] ->
  String.concat "/" (l ++ [n]) = String.concat "/" l +:+ String GoPath.slash n.
Proof.
  induction l as [|x l IH]; [congruence|]. intros _.
  destruct l as [|y l].
  - reflexivity.
  - change (String.concat "/" ((x :: y :: l) ++ [n]))
      with (x +:+ String GoPath.slash (String.concat "/" ((y :: l) ++ [n]))).
    rewrite IH by congruence.
    change (String.concat "/" (x :: y :: l))
      with (x +:+ String GoPath.slash (String.concat "/" (y :: l))).
    rewrite append_assoc. reflexivity.
Qed.

Lemma split_render (l : list string) :
  Forall ordinary l ->
  fold_left (GoPath.clean_step true) (GoPath.split (render true l)) [] = rev l.
Proof.
  intros Hl. destruct (decide (l = [])) as [-> | Hne]; [reflexivity|].
  change (render true l) with (String GoPath.slash (String.concat "/" l)).
  change (GoPath.split (String GoPath.slash (String.concat "/" l)))
    with ("" :: GoPath.split (String.concat "/" l)).
  rewrite split_concat by (exact Hne || (apply ordinary_slashless; exact Hl)).
  change (fold_left (GoPath.clean_step true) ("" :: l) [])
    with (fold_left (GoPath.clean_step true) l []).
  rewrite fold_ordinary by exact Hl. apply app_nil_r.
Qed.

Lemma render_append (l : list string) (rest : string) :
  GoPath.rooted (render true l +:+ rest) = true.
Proof. reflexivity. Qed.

Lemma Join_below (l : list string) (n : string) :
  Forall ordinary l -> ordinary n ->
  GoPath.Join [render true l; n] = render true (l ++ [n]).
Proof.
  intros Hl Hn. unfold GoPath.Join.
  rewrite filter_cons_True by discriminate.
  rewrite filter_cons_True by (destruct Hn as (_ & H & _); exact H).
  rewrite filter_nil.
  change (String.concat "/" [render true l; n])
    with (render true l +:+ String GoPath.slash n).
  rewrite Clean_render, render_append. f_equal.
  unfold kept. rewrite render_append.
  unfold GoPath.split at 1. rewrite split_go_app.
  fold (GoPath.split (render true l)).
  rewrite fold_left_app, split_render by exact Hl.
  unfold GoPath.split. rewrite split_go_one by (destruct Hn as [H _]; exact H).
  change (String.rev "" +:+ n) with n.
  cbn [fold_left]. rewrite clean_step_ordinary by exact Hn.
  cbn [rev]. rewrite rev_involutive. reflexivity.
Qed.

Lemma Dir_below (l : list string) (n : string) :
  Forall ordinary l -> ordinary n ->
  GoPath.Dir (render true (l ++ [n])) = render true l.
Proof.
  intros Hl Hn. destruct l as [|x l].
  - change (render true ([] ++ [n])) with ("" +:+ String GoPath.slash n).
    rewrite Dir_append by (destruct Hn as [H _]; exact H). reflexivity.
  - change (render true ((x :: l) ++ [n]))
      with (String GoPath.slash (String.concat "/" ((x :: l) ++ [n]))).
    rewrite concat_snoc by congruence.
    change (String GoPath.slash (String.concat "/" (x :: l) +:+ String GoPath.slash n))
      with (render true (x :: l) +:+ String GoPath.slash n).
    rewrite Dir_append by (destruct Hn as [H _]; exact H).
    rewrite Clean_render, render_append. f_equal.
    unfold kept. rewrite render_append.
    change (render true (x :: l) +:+ "/")
      with (render true (x :: l) +:+ String GoPath.slash "").
    unfold GoPath.split at 1. rewrite split_go_app.
    fold (GoPath.split (render true (x :: l))).
    rewrite fold_left_app, split_render by exact Hl.
    change (GoPath.split "") with [""]. cbn [fold_left].
    change (GoPath.clean_step true (rev (x :: l)) "") with (rev (x :: l)).
    apply rev_involutive.
Qed.

End Below.

(** ** tui: the picker stays in the install directory *)

Section Confined.

Import catalog tui.picker.

(** The install directory is a cleaned, rooted path, as [filepath.Join]
    makes it from a rooted home directory. *)
Variable ks : list string.
Hypothesis ks_ordinary : Forall ordinary ks.

(** [os.ReadDir] yields file names: not empty, without separator. *)
Variable ReadDir : string -> list (string * bool).
Hypothesis ReadDir_names : forall d, Forall (fun e => element (fst e)) (ReadDir d).

Variable edit : string -> string -> string.

(** At or below the install directory. *)
Definition inside (p : string) : Prop :=
  exists names, Forall ordinary names /\ p = render true (ks ++ names).

Definition confined (m : pickerModel) : Prop :=
  installDir m = render true ks /\
  inside (currentDir m) /\
  Forall (fun e => inside (path e)) (entries m) /\
  (phase m = phaseNaming -> inside (selectedSrc m)) /\
  Forall (fun b => inside (Src b)) (added m).

Ltac confined_now :=
  unfold confined, with_cursor, with_dir;
  cbn [installDir currentDir entries phase selectedSrc added];
  splits; auto; try (intros; congruence).

Lemma dotless_ordinary (n : string) :
  element n -> GoStrings.HasPrefix n "." = false -> ordinary n.
Proof.
  intros [Hs Hn] Hp. repeat split; try assumption.
  - intros ->. discriminate.
  - intros ->. discriminate.
Qed.

Lemma inside_child (p n : string) : inside p -> ordinary n -> inside (GoPath.Join [p; n]).
Proof.
  intros (names & Hn & ->) Ho. exists (names ++ [n]). split.
  - apply Forall_app. split; [exact Hn | constructor; [exact Ho | constructor]].
  - rewrite app_assoc. apply Join_below; [|exact Ho].
    apply Forall_app. split; assumption.
Qed.

Lemma inside_parent (p : string) :
  inside p -> p <> render true ks -> inside (GoPath.Dir p).
Proof.
  intros (names & Hn & ->) Hne.
  destruct (exists_last (l := names)) as (names' & n & ->).
  { intros ->. apply Hne. rewrite app_nil_r. reflexivity. }
  apply Forall_app in Hn as [Hn' Hn]. inversion Hn as [|? ? Ho _]; subst.
  exists names'. split; [exact Hn'|].
  rewrite app_assoc. apply Dir_below; [|exact Ho].
  apply Forall_app. split; assumption.
Qed.

Lemma insert_Forall {A : Type} (P : A -> Prop) (less : A -> A -> bool)
    (x : A) (s : list A) :
  P x -> Forall P s -> Forall P (GoSort.insert less x s).
Proof.
  intros Hx. induction 1 as [|y s Hy Hs IH]; simpl.
  - constructor; [exact Hx | constructor].
  - destruct (less y x).
    + constructor; [exact Hy | exact IH].
    + constructor; [exact Hx|]. constructor; [exact Hy | exact Hs].
Qed.

Lemma Slice_Forall {A : Type} (P : A -> Prop) (less : A -> A -> bool) (l : list A) :
  Forall P l -> Forall P (GoSort.Slice less l).
Proof.
  induction 1 as [|x l Hx _ IH]; simpl; [constructor|].
  apply insert_Forall; assumption.
Qed.

Lemma confined_loadDir (m : pickerModel) :
  installDir m = render true ks -> inside (currentDir m) ->
  (phase m = phaseNaming -> inside (selectedSrc m)) ->
  Forall (fun b => inside (Src b)) (added m) ->
  confined (loadDir ReadDir m).
Proof.
  intros Hi Hc Hs Ha. unfold confined, loadDir.
  cbn [installDir currentDir entries phase selectedSrc added].
  split; [exact Hi|]. split; [exact Hc|]. split; [|split; assumption].
  assert (Hshown : forall keep : string * bool -> bool,
             Forall (fun e => inside (path e))
               (map (fun e : string * bool =>
                       {| name := fst e; path := GoPath.Join [currentDir m; fst e];
                          isDir := snd e |})
                    (List.filter keep
                       (List.filter (fun e => negb (GoStrings.HasPrefix (fst e) "."))
                          (ReadDir (currentDir m)))))).
  { intros keep. rewrite Forall_forall. intros e He.
    apply list_elem_of_In, in_map_iff in He as (x & <- & Hx).
    apply List.filter_In in Hx as [Hx _].
    apply List.filter_In in Hx as [Hx Hdot].
    cbn [path]. apply inside_child; [exact Hc|].
    apply dotless_ordinary.
    - specialize (ReadDir_names (currentDir m)).
      rewrite Forall_forall in ReadDir_names. apply ReadDir_names.
      apply list_elem_of_In. exact Hx.
    - apply negb_true_iff. exact Hdot. }
  apply Forall_app. split.
  - destruct (String.eqb (currentDir m) (installDir m)) eqn:E; [constructor|].
    constructor; [|constructor]. cbn [path].
    apply inside_parent; [exact Hc|].
    apply String.eqb_neq in E. rewrite <- Hi. exact E.
  - apply Forall_app. split; apply Slice_Forall; apply Hshown.
Qed.

Lemma confined_Update (x : msg) (m m' : pickerModel) :
  confined m -> Update ReadDir edit x m = Some m' -> confined m'.
Proof.
  intros (Hi & Hc & He & Hs & Ha). unfold Update.
  assert (Hm : confined m) by (unfold confined; splits; assumption).
  destruct x as [key | w h]; [|intros E; inversion E; subst; exact Hm].
  destruct (phase m) eqn:Hph.
  - unfold updateBrowse.
    destruct (is_key key ["ctrl+c"; "q"]).
    { intros E; inversion E; subst. confined_now. }
    destruct (is_key key ["up"; "k"]).
    { intros E; inversion E; subst.
      destruct (0 <? cursor m)%Z; [confined_now | exact Hm]. }
    destruct (is_key key ["down"; "j"]).
    { intros E; inversion E; subst.
      destruct (_ <? _)%Z; [confined_now | exact Hm]. }
    destruct (is_key key ["enter"; "right"; "l"]).
    { destruct (length (entries m) =? 0)%nat.
      { intros E; inversion E; subst. exact Hm. }
      unfold at_cursor. destruct (cursor m <? 0)%Z; [discriminate|].
      destruct (entries m !! Z.to_nat (cursor m)) as [e|] eqn:El; [|discriminate].
      assert (Hpe : inside (path e)).
      { rewrite Forall_forall in He. apply He.
        eapply list_elem_of_lookup_2. exact El. }
      destruct (isDir e); intros E; inversion E; subst.
      - apply confined_loadDir;
          unfold with_dir; cbn [installDir currentDir phase selectedSrc added]; auto;
          intros; congruence.
      - confined_now. }
    destruct (is_key key ["left"; "h"]).
    { intros E; inversion E; subst.
      destruct (String.eqb (currentDir m) (installDir m)) eqn:Eq; [exact Hm|].
      apply confined_loadDir;
        unfold with_dir; cbn [installDir currentDir phase selectedSrc added]; auto;
        try (intros; congruence).
      apply inside_parent; [exact Hc|].
      apply String.eqb_neq in Eq. rewrite <- Hi. exact Eq. }
    destruct (is_key key ["d"; "D"]); intros E; inversion E; subst;
      [confined_now | exact Hm].
  - specialize (Hs eq_refl). intros E; inversion E; subst. unfold updateNaming.
    destruct (String.eqb key "ctrl+c"); [confined_now|].
    destruct (String.eqb key "esc"); [confined_now|].
    destruct (String.eqb key "enter"); [|confined_now].
    confined_now.
    apply Forall_app. split; [exact Ha|]. constructor; [exact Hs | constructor].
Qed.

(** X25. The picker does not leave the install directory. For an install
    directory that is a cleaned, rooted path, and whatever the
    directories hold and whatever keys are pressed: the directory shown,
    the path of every entry listed (the entry [..] is not offered in the
    install directory itself, and the key for the parent does nothing
    there) and the source of every binary handed back are the install
    directory followed by names, none of which is [..]: hidden names and
    symbolic names are not among them. *)
Theorem picker_stays_inside (msgs : list msg) (m : pickerModel) :
  feed ReadDir edit (newPickerModel ReadDir (render true ks)) msgs = Some m ->
  inside (currentDir m) /\
  Forall (fun e => inside (path e)) (entries m) /\
  Forall (fun b => inside (Src b)) (added m).
Proof.
  assert (H : forall m0, confined m0 ->
            feed ReadDir edit m0 msgs = Some m -> confined m).
  { induction msgs as [|key rest IH]; intros m0 H0; simpl.
    - intros E; inversion E; subst. exact H0.
    - destruct (Update ReadDir edit key m0) as [m1|] eqn:E1; [|discriminate].
      apply IH. eapply confined_Update; eassumption. }
  intros Hp.
  assert (H0 : confined (newPickerModel ReadDir (render true ks))).
  { unfold newPickerModel.
    apply confined_loadDir; cbn [installDir currentDir phase selectedSrc added].
    - reflexivity.
    - exists []. split; [constructor|]. rewrite app_nil_r. reflexivity.
    - discriminate.
    - constructor. }
  destruct (H _ H0 Hp) as (_ & Hc & He & _ & Ha). auto.
Qed.

End Confined.

(** * Worked runs *)

Module Runs.

Import installer catalog.

(** The usual umask, 022. *)
#[export] Instance umask_022 : OS.Umask := 18%N.

Definition newline : string := String "010"%char "".

(** A codec that finds one executable, [fzf], in every tar archive. *)
Definition one_file : extractor.Codec :=
  {| extractor.gzip_NewReader := fun _ => None;
     extractor.xz_NewReader := fun _ => None;
     extractor.tar_Reader := fun _ data =>
       {| extractor.tar_entries :=
            [{| extractor.tar_Name := "fzf";
                extractor.tar_Typeflag := extractor.TypeReg;
                extractor.tar_Mode := 493%N;
                extractor.tar_data := data;
                extractor.tar_copy_err := None |}];
          extractor.tar_end := None |};
     extractor.zip_OpenReader := fun _ => Ok [] |}.

(** GitHub answers the lookup with tag v1.2.3; the asset requests get the
    replies [replies]; [done] says which selects the context wins. *)
Definition machine (replies : nat -> asset_reply) (done : nat -> option ctx_error)
    : Env :=
  {| HOME := "/home/u";
     TempDir := "/tmp";
     url_error := fun _ => None;
     api := fun _ => github.ApiResp 200 (Ok "v1.2.3");
     asset := fun n _ => replies n;
     temp_rand := fun _ => "12345";
     ctx_done := done;
     codec := one_file |}.

Definition good : asset_reply := Resp 200 5 "ELF.." None.
Definition broken : asset_reply := DoErr (ErrTransport "connection reset").

Definition online : Env := machine (fun _ => good) (fun _ => None).
Definition flaky : Env :=
  machine (fun n => if (n <? 2)%nat then broken else good) (fun _ => None).
Definition offline : Env := machine (fun _ => broken) (fun _ => None).
Definition interrupted : Env := machine (fun _ => broken) (fun _ => Some Canceled).
Definition interrupted_late : Env :=
  machine (fun _ => broken)
          (fun n => if (n <? 1)%nat then None else Some Canceled).

Definition client : github.Client := github.NewClient "".

Definition fzf : Program :=
  {| Name := "fzf"; Repo := "junegunn/fzf";
     AssetPattern := "fzf-{version}-linux_amd64.tar.gz";
     Packages := []; Bins := [{| Src := "fzf"; Dst := "fzf" |}] |}.

(** A descriptor without links: its binary is to be picked by hand. *)
Definition tool : Program :=
  {| Name := "tool"; Repo := "acme/tool"; AssetPattern := "tool-{version}";
     Packages := []; Bins := [] |}.

Definition world (f : gmap string node) : World :=
  {| fs := f; chan := []; calls := []; gets := 0; selects := 0; temps := 0 |}.

(** The directories of the machine once [EnsureBaseDirs] has run. *)
Definition home_dirs : gmap string node :=
  <["/home/u/.local/bin" := Directory 493%N]>
    (<["/home/u/.local/share" := Directory 493%N]>
       (<["/home/u/.local" := Directory 493%N]>
          (<["/home/u" := Directory 493%N]>
             (<["/home" := Directory 493%N]>
                (<["/tmp" := Directory 1023%N]>
                   {[ "/" := Directory 493%N ]}))))).

Definition fresh : World := world home_dirs.

(** fzf is installed, with a marker. *)
Definition with_marker (version : string) : World :=
  world (<["/home/u/.local/share/fzf/.version" := File version 420%N]>
           (<["/home/u/.local/share/fzf" := Directory 493%N]> home_dirs)).

Definition marked : World := with_marker ("1.2.3" +:+ newline).

Definition outdated : World := with_marker "1.2.2".

(** A regular file sits where the link of fzf is to go. *)
Definition occupied : World :=
  world (<["/home/u/.local/bin/fzf" := File "#!/bin/sh" 493%N]> home_dirs).

(** A directory sits where the marker of fzf is to go, and a regular file
    where its link is to go. *)
Definition marker_blocked : World :=
  world (<["/home/u/.local/share/fzf/.version" := Directory 493%N]>
           (<["/home/u/.local/share/fzf" := Directory 493%N]>
              (<["/home/u/.local/bin/fzf" := File "#!/bin/sh" 493%N]> home_dirs))).

Definition fzf_url : string :=
  "https://github.com/junegunn/fzf/releases/download/v1.2.3/fzf-1.2.3-linux_amd64.tar.gz".

Definition fzf_asset : string := "fzf-1.2.3-linux_amd64.tar.gz".

Definition waits (cs : list call) : list Z :=
  flat_map (fun c => match c with Sleep d _ => [d] | _ => [] end) cs.

End Runs.

Import Runs.

Lemma skip_when_up_to_date_witness :
  installer.install online client fzf false marked =
  (tt, {| installer.fs := installer.fs marked;
          installer.chan :=
            [installer.progress fzf installer.StateFetchingVersion "" None;
             installer.progress fzf installer.StateSkipped "1.2.3" None];
          installer.calls :=
            [installer.NetGet "https://api.github.com/repos/junegunn/fzf/releases/latest";
             installer.FsReadFile "/home/u/.local/share/fzf/.version"];
          installer.gets := 0; installer.selects := 0; installer.temps := 0 |}).
Proof.
  apply (skip_when_up_to_date online client fzf false marked "1.2.3"
           ("1.2.3" +:+ newline)); reflexivity.
Defined.

Lemma stale_marker_downloads_witness :
  installer.install online client fzf false outdated
  = installer.install_download online fzf false "1.2.3"
      (checked online client fzf outdated) /\
  exists rest,
    installer.chan (snd (installer.install online client fzf false outdated))
    = installer.chan outdated
      ++ installer.progress fzf installer.StateFetchingVersion "" None
      :: installer.progress fzf installer.StateDownloading "1.2.3" None :: rest.
Proof.
  apply (stale_marker_downloads online client fzf false outdated "1.2.3").
  - reflexivity.
  - right. exists "1.2.2". split; [reflexivity | discriminate].
Defined.

(** C2, as stated, fails: when all three attempts fail the waits are of
    1 and 2 seconds, and there is no third wait of 4 seconds. *)
Lemma no_wait_of_four_seconds :
  retry_events
    (installer.calls (snd (installer.downloadWithRetry offline fzf_url fzf_asset fresh)))
  = [Try; Wait installer.Second; Try; Wait (2 * installer.Second); Try] /\
  waits (installer.calls
           (snd (installer.downloadWithRetry offline fzf_url fzf_asset fresh)))
  = [1000000000; 2000000000]%Z /\
  waits (installer.calls
           (snd (installer.downloadWithRetry offline fzf_url fzf_asset fresh)))
  <> [1000000000; 2000000000; 4000000000]%Z.
Proof.
  split; [reflexivity|]. split; [reflexivity|]. discriminate.
Qed.

Lemma retry_schedule_witness :
  fst (installer.downloadWithRetry flaky fzf_url fzf_asset fresh)
  = ("/tmp/installer-12345-fzf-1.2.3-linux_amd64.tar.gz", None) /\
  fst (installer.downloadWithRetry offline fzf_url fzf_asset fresh)
  = ("", Some (ErrTransport "connection reset")) /\
  exists rest,
    installer.chan (snd (installer.install_download flaky fzf false "1.2.3" fresh))
    = installer.chan fresh
      ++ installer.progress fzf installer.StateDownloading "1.2.3" None
      :: installer.progress fzf installer.StateExtracting "1.2.3" None :: rest.
Proof.
  split; [|split].
  - destruct (retry_schedule flaky fzf_url fzf_asset fresh) as (_ & H & _).
    destruct (H eq_refl eq_refl eq_refl eq_refl) as [H3 _].
    rewrite (H3 eq_refl). reflexivity.
  - destruct (retry_schedule offline fzf_url fzf_asset fresh) as (_ & H & _).
    destruct (H eq_refl eq_refl eq_refl eq_refl) as [_ H3].
    rewrite (H3 (ErrTransport "connection reset") eq_refl). reflexivity.
  - destruct (retry_schedule flaky fzf_url fzf_asset fresh) as (_ & _ & H).
    destruct (H fzf false "1.2.3" fresh) as [H1 _].
    apply (H1 "/tmp/installer-12345-fzf-1.2.3-linux_amd64.tar.gz"). reflexivity.
Defined.

Lemma cancelled_wait_returns_witness :
  installer.downloadWithRetry interrupted fzf_url fzf_asset fresh
  = (("", Some (ErrContext Canceled)),
     snd (pause1 interrupted fzf_url fzf_asset fresh)) /\
  installer.downloadWithRetry interrupted_late fzf_url fzf_asset fresh
  = (("", Some (ErrContext Canceled)),
     snd (pause2 interrupted_late fzf_url fzf_asset fresh)).
Proof.
  split.
  - apply (proj1 (cancelled_wait_returns interrupted fzf_url fzf_asset fresh Canceled));
      reflexivity.
  - apply (proj2 (cancelled_wait_returns interrupted_late fzf_url fzf_asset fresh
                    Canceled)); reflexivity.
Defined.

(** The two interrupted runs in full: one attempt and the abandoned wait
    of one second; two attempts, a full wait and the abandoned wait of two
    seconds. *)
Example interrupted_runs :
  retry_events (installer.calls
                  (snd (installer.downloadWithRetry interrupted fzf_url fzf_asset fresh)))
  = [Try; Wait installer.Second] /\
  retry_events (installer.calls
                  (snd (installer.downloadWithRetry interrupted_late fzf_url fzf_asset
                          fresh)))
  = [Try; Wait installer.Second; Try; Wait (2 * installer.Second)].
Proof. split; reflexivity. Qed.





Lemma download_url_hard_v_witness :
  (forall u,
     In (installer.Download u)
        (installer.calls (snd (installer.install online client fzf false fresh))) ->
     u = fzf_url) /\
  In (installer.Download fzf_url)
     (installer.calls (snd (installer.install online client fzf false fresh))).
Proof.
  destruct (download_url_hard_v online client fzf false fresh "1.2.3"
              (installer.calls (snd (installer.install online client fzf false fresh))))
    as (H1 & _ & H3 & _); try reflexivity.
  split; [exact H1 | apply H3; reflexivity].
Defined.

(** A release whose tag has no v prefix: the URL asks for v15.1.0. *)
Example bare_tag :
  github.LatestVersion None (github.ApiResp 200 (Ok "15.1.0")) "BurntSushi/ripgrep"
  = Ok "15.1.0" /\
  installer.download_url
    {| catalog.Name := "rg"; catalog.Repo := "BurntSushi/ripgrep";
       catalog.AssetPattern := "ripgrep-{version}-x86_64-unknown-linux-musl.tar.gz";
       catalog.Packages := []; catalog.Bins := [] |}
    "15.1.0" "ripgrep-15.1.0-x86_64-unknown-linux-musl.tar.gz"
  = "https://github.com/BurntSushi/ripgrep/releases/download/v15.1.0/ripgrep-15.1.0-x86_64-unknown-linux-musl.tar.gz".
Proof. split; reflexivity. Qed.

(** The first run on [occupied] ends with a link error. *)
Example link_error_run :
  installer.chan (snd (installer.install online client fzf false occupied))
  = [installer.progress fzf installer.StateFetchingVersion "" None;
     installer.progress fzf installer.StateDownloading "1.2.3" None;
     installer.progress fzf installer.StateExtracting "1.2.3" None;
     installer.progress fzf installer.StateLinking "1.2.3" None;
     installer.progress fzf installer.StateError ""
       (Some (Wrap "link fzf" (ErrRegularFile "/home/u/.local/bin/fzf")))] /\
  In (installer.FsLink "/home/u/.local/share/fzf/fzf" "/home/u/.local/bin" "fzf" false)
     (installer.calls (snd (installer.install online client fzf false occupied))).
Proof. split; [reflexivity|]. vm_compute. tauto. Qed.

Lemma marker_outlives_links_witness :
  marker_before_links online fzf "1.2.3"
    (installer.calls (snd (installer.install online client fzf false occupied))) /\
  installer.chan
    (snd (installer.install online client fzf true
            (snd (installer.install online client fzf false occupied))))
  = installer.chan (snd (installer.install online client fzf false occupied))
    ++ [installer.progress fzf installer.StateFetchingVersion "" None;
        installer.progress fzf installer.StateSkipped "1.2.3" None] /\
  installer.calls
    (snd (installer.install online client fzf true
            (snd (installer.install online client fzf false occupied))))
  = installer.calls (snd (installer.install online client fzf false occupied))
    ++ [installer.NetGet "https://api.github.com/repos/junegunn/fzf/releases/latest";
        installer.FsReadFile "/home/u/.local/share/fzf/.version"].
Proof.
  destruct (marker_outlives_links online client fzf false occupied "1.2.3"
              (installer.calls (snd (installer.install online client fzf false occupied))))
    as (H1 & H2 & _); try reflexivity.
  split.
  - apply H1.
    exists (installer.FsWriteFile "/home/u/.local/share/fzf/.version" "1.2.3" true).
    split; [vm_compute; tauto | exact I].
  - assert (E := H2).
    specialize (E ltac:(vm_compute; tauto)).
    specialize (E ltac:(intros t; vm_compute; discriminate)).
    specialize (E ltac:(intros n; vm_compute; discriminate)).
    destruct E as [_ E].
    specialize (E eq_refl online client true eq_refl eq_refl).
    rewrite E. split; reflexivity.
Defined.

(** C9, as stated, fails: the write of the marker can fail, here because
    a directory stands at its name; the error is dropped, the run ends
    in the link error, and the next run at the same version is not
    skipped: it downloads and extracts again, and fails at the same
    link. *)
Lemma failed_write_downloads_again :
  In (installer.FsWriteFile "/home/u/.local/share/fzf/.version" "1.2.3" false)
     (installer.calls (snd (installer.install online client fzf false marker_blocked))) /\
  installer.chan (snd (installer.install online client fzf false marker_blocked))
  = [installer.progress fzf installer.StateFetchingVersion "" None;
     installer.progress fzf installer.StateDownloading "1.2.3" None;
     installer.progress fzf installer.StateExtracting "1.2.3" None;
     installer.progress fzf installer.StateLinking "1.2.3" None;
     installer.progress fzf installer.StateError ""
       (Some (Wrap "link fzf" (ErrRegularFile "/home/u/.local/bin/fzf")))] /\
  installer.chan
    (snd (installer.install online client fzf false
            (snd (installer.install online client fzf false marker_blocked))))
  = installer.chan (snd (installer.install online client fzf false marker_blocked))
    ++ [installer.progress fzf installer.StateFetchingVersion "" None;
        installer.progress fzf installer.StateDownloading "1.2.3" None;
        installer.progress fzf installer.StateExtracting "1.2.3" None;
        installer.progress fzf installer.StateLinking "1.2.3" None;
        installer.progress fzf installer.StateError ""
          (Some (Wrap "link fzf" (ErrRegularFile "/home/u/.local/bin/fzf")))].
Proof.
  split; [vm_compute; tauto|]. split; reflexivity.
Qed.

(** Four programs are selected; three are given a place and have
    announced themselves, the fourth waits. *)
Module Busy.

Import installer catalog.

Definition selected : list Program := [fzf; tool; fzf; tool].

Definition fetching (p : Program) : ProgressMsg :=
  progress p StateFetchingVersion "" None.

Definition skipped (p : Program) : ProgressMsg :=
  progress p StateSkipped "1.2.3" None.

Definition waiting (p : Program) : Worker :=
  {| w_prog := p; w_sent := []; w_pending := [fetching p; skipped p] |}.

Definition running (p : Program) : Worker :=
  {| w_prog := p; w_sent := [] ++ [fetching p]; w_pending := [skipped p] |}.

Definition pool (td : list Program) (ws : list Worker) (out : list ProgressMsg)
    : Pool :=
  {| todo := td; sem := ws; returned := []; ch := out; closed := false |}.

Definition s0 : Pool := start selected.
Definition s1 : Pool := pool [tool; fzf; tool] ([] ++ [waiting fzf]) [].
Definition s2 : Pool :=
  pool [fzf; tool] (([] ++ [waiting fzf]) ++ [waiting tool]) [].
Definition s3 : Pool :=
  pool [tool] ((([] ++ [waiting fzf]) ++ [waiting tool]) ++ [waiting fzf]) [].
Definition s4 : Pool :=
  pool [tool] ([] ++ running fzf :: [waiting tool; waiting fzf]) ([] ++ [fetching fzf]).
Definition s5 : Pool :=
  pool [tool] ([running fzf] ++ running tool :: [waiting fzf])
       (([] ++ [fetching fzf]) ++ [fetching tool]).
Definition s6 : Pool :=
  pool [tool] ([running fzf; running tool] ++ running fzf :: [])
       ((([] ++ [fetching fzf]) ++ [fetching tool]) ++ [fetching fzf]).

Lemma short_pipeline (p : Program) : pipeline [fetching p; skipped p].
Proof.
  exists (fetching p), [], (skipped p). repeat split. constructor.
Qed.

Lemma s6_reachable : reachable selected s6.
Proof.
  apply (reach_step selected s5 s6).
  apply (reach_step selected s4 s5).
  apply (reach_step selected s3 s4).
  apply (reach_step selected s2 s3).
  apply (reach_step selected s1 s2).
  apply (reach_step selected s0 s1).
  - apply reach_start.
  - apply (step_acquire s0 fzf [tool; fzf; tool] [fetching fzf; skipped fzf]);
      [reflexivity | unfold workerCount; simpl; lia | apply short_pipeline].
  - apply (step_acquire s1 tool [fzf; tool] [fetching tool; skipped tool]);
      [reflexivity | unfold workerCount; simpl; lia | apply short_pipeline].
  - apply (step_acquire s2 fzf [tool] [fetching fzf; skipped fzf]);
      [reflexivity | unfold workerCount; simpl; lia | apply short_pipeline].
  - apply (step_send s3 [] [waiting tool; waiting fzf] fzf [] [skipped fzf]
             (fetching fzf)).
    reflexivity.
  - apply (step_send s4 [running fzf] [waiting fzf] tool [] [skipped tool]
             (fetching tool)).
    reflexivity.
  - apply (step_send s5 [running fzf; running tool] [] fzf [] [skipped fzf]
             (fetching fzf)).
    reflexivity.
Qed.

End Busy.

Lemma pool_bound_witness :
  (installer.active_count Busy.s6 <= 3)%nat /\
  (length (installer.sem Busy.s6) <= 3)%nat /\
  (forall s', installer.step Busy.s6 s' ->
              installer.todo s' <> installer.todo Busy.s6 ->
              (length (installer.sem Busy.s6) < 3)%nat).
Proof.
  destruct (pool_bound Busy.selected Busy.s6 Busy.s6_reachable)
    as (H1 & H2 & _ & _ & H5 & _).
  split; [exact H1|]. split; [exact H2 | exact H5].
Defined.

(** With the three places taken and three pipelines active, the fourth
    program cannot be started. *)
Example fourth_program_waits :
  installer.active_count Busy.s6 = 3%nat /\
  forall s', installer.step Busy.s6 s' -> installer.todo s' = installer.todo Busy.s6.
Proof.
  split; [reflexivity|].
  intros s' Hs. inversion Hs; subst; try reflexivity; try discriminate.
  match goal with
  | H : (length (installer.sem Busy.s6) < installer.workerCount)%nat |- _ =>
      unfold installer.workerCount in H; simpl in H; lia
  end.
Qed.

(** C3. A descriptor without links, run by the code: after the
    extraction [install] sends the linking message at once and then done.
    No message stands between extracting and linking, no request for a
    selection is made, and [Link] is never called. [State] has no member
    for waiting on a selection and [ProgressMsg] carries no reply channel. *)
Theorem no_links_no_selection :
  installer.chan (snd (installer.install online client tool false fresh))
  = [installer.progress tool installer.StateFetchingVersion "" None;
     installer.progress tool installer.StateDownloading "1.2.3" None;
     installer.progress tool installer.StateExtracting "1.2.3" None;
     installer.progress tool installer.StateLinking "1.2.3" None;
     installer.progress tool installer.StateDone "1.2.3" None] /\
  installer.calls (snd (installer.install online client tool false fresh))
  = [installer.NetGet "https://api.github.com/repos/acme/tool/releases/latest";
     installer.FsReadFile "/home/u/.local/share/tool/.version";
     installer.Download "https://github.com/acme/tool/releases/download/v1.2.3/tool-1.2.3";
     installer.NetGet "https://github.com/acme/tool/releases/download/v1.2.3/tool-1.2.3";
     installer.FsCreateTemp "/tmp/installer-12345-tool-1.2.3";
     installer.FsMkdirAll "/home/u/.local/share/tool" true;
     installer.FsExtract "/tmp/installer-12345-tool-1.2.3" "/home/u/.local/share/tool" true;
     installer.FsWriteFile "/home/u/.local/share/tool/.version" "1.2.3" true;
     installer.FsRemove "/tmp/installer-12345-tool-1.2.3" true] /\
  (forall s : installer.State,
     In s [installer.StatePending; installer.StateFetchingVersion;
           installer.StateDownloading; installer.StateExtracting;
           installer.StateLinking; installer.StateDone; installer.StateSkipped;
           installer.StateError]).
Proof.
  split; [reflexivity|]. split; [reflexivity|].
  intros s. destruct s; simpl; tauto.
Qed.


(** * Further worked runs *)


(** Without the directory for the links [Link] fails and changes nothing;
    with an empty source it fails after it has removed the old link. *)
Example Link_failures :
  linker.Link {[ "/" := Directory 493%N ]} "/opt/fzf/fzf" "/home/u/.local/bin" "fzf"
  = ({[ "/" := Directory 493%N ]},
     Some (Wrap "create symlink /home/u/.local/bin/fzf -> /opt/fzf/fzf"
             (ErrOS "symlink" "/home/u/.local/bin/fzf"))) /\
  fst (linker.Link bin_with_link "" "/home/u/.local/bin" "fzf")
  = {[ "/home/u/.local/bin" := Directory 493%N ]} /\
  snd (linker.Link bin_with_link "" "/home/u/.local/bin" "fzf") <> None.
Proof. split; [reflexivity|]. split; [reflexivity | discriminate]. Qed.

Lemma LatestRelease_version_witness :
  github.LatestVersion None (github.ApiResp 200 (Ok "v1.2.3")) "junegunn/fzf"
  = Ok "1.2.3" /\
  "v1.2.3" = "v" +:+ "1.2.3".
Proof.
  destruct (LatestRelease_version None (github.ApiResp 200 (Ok "v1.2.3")) "junegunn/fzf")
    as [H1 H2].
  split; [exact H1|].
  destruct (H2 {| github.Tag := "v1.2.3"; github.Version := "1.2.3" |} eq_refl)
    as (_ & _ & _ & [H | [H _]]); [exact H | discriminate H].
Defined.

(** A directory with an archive in it. *)
Definition unpacked : gmap string node :=
  <["/tmp/fzf.tar.gz" := File "ELF.." 384%N]>
    (<["/opt/fzf" := Directory 493%N]>
       (<["/opt" := Directory 493%N]>
          (<["/tmp" := Directory 1023%N]> {[ "/" := Directory 493%N ]}))).

Lemma Extract_only_adds_witness :
  fst (extractor.Extract one_file unpacked "/tmp/fzf.tar.gz" "/opt/fzf") !! "/opt/fzf"
  = Some (Directory 493%N) /\
  exists d, fst (extractor.Extract one_file unpacked "/tmp/fzf.tar.gz" "/opt/fzf")
            !! "/tmp/fzf.tar.gz" = Some (File d 384%N).
Proof.
  pose proof (Extract_only_adds one_file unpacked "/tmp/fzf.tar.gz" "/opt/fzf") as H.
  cbv zeta in H. destruct H as (H1 & H2 & _).
  split.
  - apply H2. reflexivity.
  - apply (H1 "/tmp/fzf.tar.gz" "ELF.."). reflexivity.
Defined.

Lemma downloadWithRetry_files_witness :
  installer.fs (snd (installer.downloadWithRetry offline fzf_url fzf_asset fresh))
  = installer.fs fresh /\
  exists n body,
    fst (fst (installer.downloadWithRetry flaky fzf_url fzf_asset fresh))
    = installer.temp_path "/tmp" ("installer-*-" +:+ fzf_asset) (installer.temp_rand flaky n) /\
    installer.fs (snd (installer.downloadWithRetry flaky fzf_url fzf_asset fresh))
    = <[fst (fst (installer.downloadWithRetry flaky fzf_url fzf_asset fresh))
        := File body 384%N]> (installer.fs fresh).
Proof.
  split.
  - pose proof (downloadWithRetry_files offline fzf_url fzf_asset fresh) as H.
    cbv zeta in H. destruct H as (_ & H & _). apply H.
    assert (E : snd (fst (installer.downloadWithRetry offline fzf_url fzf_asset fresh))
                = Some (ErrTransport "connection reset")) by reflexivity.
    rewrite E. discriminate.
  - pose proof (downloadWithRetry_files flaky fzf_url fzf_asset fresh) as H.
    cbv zeta in H. destruct H as (_ & _ & H).
    destruct (H eq_refl) as (n & body & H1 & _ & H3). exists n, body.
    split; [exact H1 | exact H3].
Defined.

Lemma download_stores_body_witness :
  OS.ReadFile
    (installer.fs (snd (installer.download online fzf_url fzf_asset fresh)))
    "/tmp/installer-12345-fzf-1.2.3-linux_amd64.tar.gz"
  = Ok "ELF..".
Proof.
  apply (download_stores_body online fzf_url fzf_asset "ELF.." fresh).
  - split; [reflexivity|]. exists 5%Z. split; [reflexivity | discriminate].
  - reflexivity.
  - reflexivity.
  - reflexivity.
Defined.

Lemma temp_file_removed_witness :
  installer.fs (snd (installer.install_download online fzf false "1.2.3" fresh))
  !! "/tmp/installer-12345-fzf-1.2.3-linux_amd64.tar.gz" = None /\
  exists cs,
    installer.calls (snd (installer.install_download online fzf false "1.2.3" fresh))
    = installer.calls fresh ++ cs
      ++ [installer.FsRemove "/tmp/installer-12345-fzf-1.2.3-linux_amd64.tar.gz" true].
Proof.
  apply (temp_file_removed online fzf "1.2.3" false fresh
           "/tmp/installer-12345-fzf-1.2.3-linux_amd64.tar.gz").
  reflexivity.
Defined.

Lemma sanitize_stays_inside_witness :
  Forall ordinary (kept ("/" +:+ "../../etc/passwd")) /\
  GoPath.Clean "/opt/fzf" = render true (kept "/opt/fzf") /\
  extractor.sanitize "/opt/fzf" "../../etc/passwd"
  = render true (kept "/opt/fzf" ++ kept ("/" +:+ "../../etc/passwd")).
Proof.
  apply (sanitize_stays_inside "/opt/fzf" "../../etc/passwd"). discriminate.
Defined.

(** A member that names a path outside the destination is written
    inside it. *)
Example sanitize_climbing :
  extractor.sanitize "/opt/fzf" "../../etc/passwd" = "/opt/fzf/etc/passwd" /\
  extractor.sanitize "/opt/fzf" "/etc/passwd" = "/opt/fzf/etc/passwd" /\
  extractor.sanitize "/opt/fzf" "bin/../../fzf" = "/opt/fzf/fzf" /\
  extractor.sanitize "/opt/fzf" ".." = "/opt/fzf".
Proof. repeat split. Qed.

Definition fzf_member : extractor.TarEntry :=
  {| extractor.tar_Name := "bin/fzf";
     extractor.tar_Typeflag := extractor.TypeReg;
     extractor.tar_Mode := 493%N;
     extractor.tar_data := "ELF..";
     extractor.tar_copy_err := None |}.

Definition rooted : gmap string node := {[ "/" := Directory 493%N ]}.

Lemma extracted_member_read_back_witness :
  OS.ReadFile (fst (extractor.tar_loop rooted "/opt/fzf" [fzf_member] None))
              "/opt/fzf/bin/fzf"
  = Ok "ELF..".
Proof.
  apply (proj1 (extracted_member_read_back "/opt/fzf" rooted
                  (fst (extractor.tar_loop rooted "/opt/fzf" [fzf_member] None)))
               [] fzf_member); reflexivity.
Defined.

(** The member a/b cannot be written where a is a regular file: the
    extraction stops there, and c, which follows it, is not written. *)
Example extraction_stops :
  extractor.tar_loop (<["/opt/a" := File "x" 420%N]>
                        (<["/opt" := Directory 493%N]> rooted)) "/opt"
    [{| extractor.tar_Name := "a/b"; extractor.tar_Typeflag := extractor.TypeReg;
        extractor.tar_Mode := 420%N; extractor.tar_data := "b";
        extractor.tar_copy_err := None |};
     {| extractor.tar_Name := "c"; extractor.tar_Typeflag := extractor.TypeReg;
        extractor.tar_Mode := 420%N; extractor.tar_data := "c";
        extractor.tar_copy_err := None |}] None
  = (<["/opt/a" := File "x" 420%N]> (<["/opt" := Directory 493%N]> rooted),
     Some (ErrOS "open" "/opt/a/b")).
Proof. reflexivity. Qed.

(** A tool lies in the directory it is to be copied to. *)
Definition in_place : gmap string node :=
  <["/opt/bin/tool" := File "ELF.." 420%N]>
    (<["/opt/bin" := Directory 493%N]> (<["/opt" := Directory 493%N]> rooted)).

Lemma copyBinary_existing_witness :
  extractor.copyBinary in_place "/opt/bin/tool" "/opt/bin"
  = (<["/opt/bin/tool" := File "" 420%N]> in_place, None).
Proof.
  apply (copyBinary_existing in_place "/opt/bin/tool" "/opt/bin" "/opt/bin/tool"
           "ELF.." "ELF.." 420%N 420%N); reflexivity.
Defined.

(** One program, from the start of [Run] to the closed channel. *)
Module Finished.

Import installer catalog.

Definition finished : Worker :=
  {| w_prog := tool; w_sent := [Busy.fetching tool; Busy.skipped tool];
     w_pending := [] |}.

Definition t0 : Pool := start [tool].
Definition t1 : Pool :=
  {| todo := []; sem := [Busy.waiting tool]; returned := []; ch := [];
     closed := false |}.
Definition t2 : Pool :=
  {| todo := []; sem := [Busy.running tool]; returned := [];
     ch := [Busy.fetching tool]; closed := false |}.
Definition t3 : Pool :=
  {| todo := []; sem := [finished]; returned := [];
     ch := [Busy.fetching tool; Busy.skipped tool]; closed := false |}.
Definition t4 : Pool :=
  {| todo := []; sem := []; returned := [finished];
     ch := [Busy.fetching tool; Busy.skipped tool]; closed := false |}.
Definition t5 : Pool :=
  {| todo := []; sem := []; returned := [finished];
     ch := [Busy.fetching tool; Busy.skipped tool]; closed := true |}.

Lemma t4_reachable : reachable [tool] t4.
Proof.
  apply (reach_step [tool] t3 t4).
  apply (reach_step [tool] t2 t3).
  apply (reach_step [tool] t1 t2).
  apply (reach_step [tool] t0 t1).
  - apply reach_start.
  - apply (step_acquire t0 tool [] [Busy.fetching tool; Busy.skipped tool]);
      [reflexivity | unfold workerCount; simpl; lia | apply Busy.short_pipeline].
  - apply (step_send t1 [] [] tool [] [Busy.skipped tool] (Busy.fetching tool)).
    reflexivity.
  - apply (step_send t2 [] [] tool [Busy.fetching tool] [] (Busy.skipped tool)).
    reflexivity.
  - apply (step_release t3 [] [] finished); reflexivity.
Qed.

Lemma t5_reachable : reachable [tool] t5.
Proof.
  apply (reach_step [tool] t4 t5); [apply t4_reachable|].
  apply (step_close t4); reflexivity.
Qed.

End Finished.

Lemma closed_after_all_witness :
  installer.todo Finished.t5 = [] /\ installer.sem Finished.t5 = [] /\
  Permutation (map installer.w_prog (installer.returned Finished.t5)) [tool] /\
  Forall (fun w => installer.pipeline (installer.w_sent w) /\ installer.w_pending w = [])
         (installer.returned Finished.t5) /\
  length (installer.ch Finished.t5) = sent_total (installer.returned Finished.t5).
Proof.
  apply (closed_after_all [tool] Finished.t5 Finished.t5_reachable). reflexivity.
Defined.

Lemma buffer_suffices_witness :
  (length (installer.ch Busy.s6) <= 5 * (length Busy.selected - length (installer.todo Busy.s6)))%nat /\
  (length (installer.ch Busy.s6) <= installer.buffer Busy.selected)%nat.
Proof.
  apply (proj2 buffer_suffices Busy.selected Busy.s6 Busy.s6_reachable).
  repeat constructor.
Defined.

(** A catalog of two programs, as the decoder may hand it over. *)
Definition rg_entry : catalog.Program :=
  {| catalog.Name := ""; catalog.Repo := "BurntSushi/ripgrep";
     catalog.AssetPattern := "ripgrep-{version}-x86_64-unknown-linux-musl.tar.gz";
     catalog.Packages := []; catalog.Bins := [] |}.

Definition fzf_entry : catalog.Program :=
  {| catalog.Name := ""; catalog.Repo := "junegunn/fzf";
     catalog.AssetPattern := "fzf-{version}-linux_amd64.tar.gz";
     catalog.Packages := ["git"];
     catalog.Bins := [{| catalog.Src := "fzf"; catalog.Dst := "fzf" |}] |}.

Definition raw_catalog : list (string * catalog.Program) :=
  [("rg", rg_entry); ("fzf", fzf_entry)].

Lemma raw_catalog_keys : List.NoDup (map fst raw_catalog).
Proof.
  constructor; [|constructor; [|constructor]]; simpl; intuition discriminate.
Qed.

Lemma Load_validated_sorted_witness :
  exists ps,
    catalog.Load (Ok raw_catalog) = catalog.Programs ps /\
    Permutation ps (map named raw_catalog) /\
    ascending catalog.Name ps /\
    Forall valid ps.
Proof.
  apply (proj1 (Load_validated_sorted raw_catalog raw_catalog_keys)).
  repeat constructor; discriminate.
Defined.

(** The programs come out in the order of their names, each named by its
    key; an entry without [repo] is refused. *)
Example Load_catalog :
  catalog.Load (Ok raw_catalog)
  = catalog.Programs [catalog.set_Name "fzf" fzf_entry; catalog.set_Name "rg" rg_entry] /\
  catalog.Load (Ok [("rg", rg_entry);
                    ("broken", {| catalog.Name := ""; catalog.Repo := "";
                                  catalog.AssetPattern := ""; catalog.Packages := [];
                                  catalog.Bins := [] |})])
  = catalog.LoadError
      (catalog.ValidationErrors
         ("catalog validation errors:" +:+ newline
            +:+ "[broken]: repo is required, asset_pattern is required")).
Proof. split; reflexivity. Qed.

Lemma Load_any_order_witness :
  match catalog.Load (Ok raw_catalog), catalog.Load (Ok (rev raw_catalog)) with
  | catalog.Programs ps, catalog.Programs ps' => ps = ps'
  | catalog.LoadError (catalog.ValidationErrors _),
    catalog.LoadError (catalog.ValidationErrors _) => True
  | _, _ => False
  end.
Proof.
  apply (Load_any_order raw_catalog (rev raw_catalog) raw_catalog_keys).
  apply perm_swap.
Defined.

Lemma EnsureBaseDirs_creates_witness :
  OS.is_dir (fst (system.EnsureBaseDirs "/home/u" rooted)) "/home/u/.local/share" = true /\
  OS.is_dir (fst (system.EnsureBaseDirs "/home/u" rooted)) "/home/u/.local/bin" = true /\
  system.EnsureBaseDirs "/home/u" (fst (system.EnsureBaseDirs "/home/u" rooted))
  = (fst (system.EnsureBaseDirs "/home/u" rooted), None).
Proof.
  destruct (EnsureBaseDirs_creates "/home/u" rooted
              (fst (system.EnsureBaseDirs "/home/u" rooted)))
    as (H1 & H2 & _ & _ & H5); [reflexivity|].
  split; [exact H1|]. split; [exact H2 | exact H5].
Defined.

(** A link that leads nowhere stands at [~/.local]: [MkdirAll] refuses
    it, nothing is made. A link to a directory is passed. *)
Example EnsureBaseDirs_links :
  snd (system.EnsureBaseDirs "/home/u"
         (<["/home/u/.local" := Symlink "/data/local"]>
            (<["/home/u" := Directory 493%N]> (<["/home" := Directory 493%N]> rooted))))
  = Some (ErrOS "mkdir" "/home/u/.local") /\
  snd (system.EnsureBaseDirs "/home/u"
         (<["/home/u/.local" := Symlink "../../data"]>
            (<["/data" := Directory 493%N]>
               (<["/home/u" := Directory 493%N]>
                  (<["/home" := Directory 493%N]> rooted)))))
  = None.
Proof. split; reflexivity. Qed.

(** Two programs that need git and curl, on a machine without curl. *)
Definition needs_curl : list catalog.Program :=
  [{| catalog.Name := "fzf"; catalog.Repo := "junegunn/fzf";
      catalog.AssetPattern := "fzf-{version}.tar.gz";
      catalog.Packages := ["git"; "curl"]; catalog.Bins := [] |};
   {| catalog.Name := "rg"; catalog.Repo := "BurntSushi/ripgrep";
      catalog.AssetPattern := "rg-{version}.tar.gz";
      catalog.Packages := ["curl"]; catalog.Bins := [] |}].

Definition only_git (pkg : string) : bool := String.eqb pkg "git".

Lemma preflight_decides_witness :
  exists missing,
    tui.confirm only_git needs_curl = tui.Preflight missing /\
    missing <> [] /\ List.NoDup missing /\
    forall pkg,
      In pkg missing <->
      (exists p, In p needs_curl /\ In pkg (catalog.Packages p)) /\ only_git pkg = false.
Proof.
  pose proof (preflight_decides only_git needs_curl) as H.
  cbv zeta in H. destruct H as (_ & H).
  apply (proj2 (H ltac:(discriminate))).
  intros Hall.
  assert (E : only_git "curl" = true).
  { apply Hall. eexists. split; [left; reflexivity | right; left; reflexivity]. }
  discriminate E.
Defined.

Example preflight_lists_once :
  tui.confirm only_git needs_curl = tui.Preflight ["curl"] /\
  tui.confirm (fun _ => true) needs_curl = tui.Launch needs_curl ["fzf"; "rg"].
Proof. split; reflexivity. Qed.

Lemma two_names : List.NoDup (map catalog.Name [fzf; tool]).
Proof.
  constructor; [|constructor; [|constructor]]; simpl; intuition discriminate.
Qed.

Lemma checked_are_selected_witness :
  tui.selector.selectedPrograms
    (tui.selector.press (tui.selector.newSelectorModel [fzf; tool])
       [(0%nat, " "); (1%nat, " "); (0%nat, " ")])
  = map tui.selector.program
      (List.filter tui.selector.item_selected
         (tui.selector.items
            (tui.selector.press (tui.selector.newSelectorModel [fzf; tool])
               [(0%nat, " "); (1%nat, " "); (0%nat, " ")]))).
Proof.
  apply (checked_are_selected [fzf; tool] two_names
           [(0%nat, " "); (1%nat, " "); (0%nat, " ")]).
Defined.

(** Each program switched on and off again: nothing is selected, and the
    key [a] now selects nothing either. *)
Definition on_and_off : tui.selector.selectorModel :=
  tui.selector.press (tui.selector.newSelectorModel [fzf; tool])
    [(0%nat, " "); (0%nat, " "); (1%nat, " "); (1%nat, " ")].

Lemma select_all_counts_entries_witness :
  tui.selector.selectedPrograms on_and_off = [] /\
  tui.selector.selectedPrograms (tui.selector.Update 0 "a" on_and_off) = [] /\
  tui.selector.selectedPrograms
    (tui.selector.Update 0 "a" (tui.selector.newSelectorModel [fzf; tool]))
  = [fzf; tool].
Proof.
  split; [reflexivity|]. split.
  - exact (select_all_counts_entries [fzf; tool] two_names
             [(0%nat, " "); (0%nat, " "); (1%nat, " "); (1%nat, " ")] 0%nat).
  - exact (select_all_counts_entries [fzf; tool] two_names [] 0%nat).
Defined.

(** An install directory with a directory and a file in it. *)
Definition listing (d : string) : list (string * bool) :=
  [("bin", true); ("fzf", false); (".git", true)].

Definition typing (key value : string) : string :=
  if String.eqb key "backspace" then "" else value +:+ key.

Lemma picker_cursor_in_range_witness :
  exists m,
    tui.picker.feed listing typing (tui.picker.newPickerModel listing "/opt/fzf")
      [tui.picker.KeyMsg "down"; tui.picker.KeyMsg "down"; tui.picker.KeyMsg "down";
       tui.picker.KeyMsg "enter"] = Some m /\
    (0 <= tui.picker.cursor m)%Z /\
    (tui.picker.entries m <> [] ->
     (tui.picker.cursor m < Z.of_nat (length (tui.picker.entries m)))%Z).
Proof.
  apply (picker_cursor_in_range listing typing "/opt/fzf").
Defined.

Definition long_list : tui.picker.pickerModel :=
  {| tui.picker.installDir := "/opt/fzf"; tui.picker.currentDir := "/opt/fzf";
     tui.picker.entries :=
       repeat {| tui.picker.name := "f"; tui.picker.path := "/opt/fzf/f";
                 tui.picker.isDir := false |} 10;
     tui.picker.cursor := 7; tui.picker.input := "";
     tui.picker.phase := tui.picker.phaseBrowse; tui.picker.selectedSrc := "";
     tui.picker.added := []; tui.picker.done := false; tui.picker.quit := false;
     tui.picker.height := 10 |}.

Lemma window_shows_cursor_witness :
  tui.picker.window long_list = (4, 8)%Z /\
  (0 <= fst (tui.picker.window long_list) <= tui.picker.cursor long_list)%Z /\
  (tui.picker.cursor long_list < snd (tui.picker.window long_list)
   <= Z.of_nat (length (tui.picker.entries long_list)))%Z.
Proof.
  split; [reflexivity|].
  destruct (window_shows_cursor long_list) as (H1 & H2 & _).
  - simpl. lia.
  - split; [exact H1 | exact H2].
Defined.

(** The file fzf is chosen and its name is wiped out before enter. *)
Definition wiped : list tui.picker.msg :=
  [tui.picker.KeyMsg "down"; tui.picker.KeyMsg "enter";
   tui.picker.KeyMsg "backspace"; tui.picker.KeyMsg "enter"].

Lemma picked_bins_are_named_witness :
  Forall (fun b => catalog.Dst b <> "")
    (tui.picker.added
       (default (tui.picker.newPickerModel listing "/opt/fzf")
          (tui.picker.feed listing typing
             (tui.picker.newPickerModel listing "/opt/fzf") wiped))).
Proof.
  apply (picked_bins_are_named listing typing "/opt/fzf" wiped). reflexivity.
Defined.

Example wiped_name_is_base :
  tui.picker.added
    (default (tui.picker.newPickerModel listing "/opt/fzf")
       (tui.picker.feed listing typing
          (tui.picker.newPickerModel listing "/opt/fzf") wiped))
  = [{| catalog.Src := "/opt/fzf/fzf"; catalog.Dst := "fzf" |}].
Proof. reflexivity. Qed.

Lemma opt_fzf : Forall ordinary ["opt"; "fzf"].
Proof. repeat constructor; discriminate. Qed.

Lemma listing_names (d : string) :
  Forall (fun e : string * bool => element (fst e)) (listing d).
Proof. repeat constructor; discriminate. Qed.

(** Into [bin], and then up twice: the second key does nothing. *)
Definition down_and_up : list tui.picker.msg :=
  [tui.picker.KeyMsg "enter"; tui.picker.KeyMsg "left"; tui.picker.KeyMsg "left"].

Lemma picker_stays_inside_witness :
  inside ["opt"; "fzf"]
    (tui.picker.currentDir
       (default (tui.picker.newPickerModel listing "/opt/fzf")
          (tui.picker.feed listing typing
             (tui.picker.newPickerModel listing "/opt/fzf") down_and_up))) /\
  tui.picker.currentDir
    (default (tui.picker.newPickerModel listing "/opt/fzf")
       (tui.picker.feed listing typing
          (tui.picker.newPickerModel listing "/opt/fzf") down_and_up))
  = "/opt/fzf".
Proof.
  split; [|reflexivity].
  apply (picker_stays_inside ["opt"; "fzf"] opt_fzf listing listing_names typing
           down_and_up).
  reflexivity.
Defined.
